(** * GnuPG message ingestion: armor filter, packet sequencer, qualified list

    A shallow embedding of three translation units of the repository:

    - [armor.c] (the armor filter: clearsigned text, radix-64, CRC-24),
    - [mainproc.c] (the packet sequencer and the signature check),
    - [sm/qualified.c] (the list of qualified root certificates).

    Bytes and C integers are values of [Z]; where the C code stores into a
    [byte] or a [u32] the wrap-around is written out.  C strings are lists
    of bytes read up to the first NUL.  Functions that can leave through
    [g10_exit], a failed [assert] or a NULL dereference return an
    [outcome]. *)

From Stdlib Require Import String Ascii ZArith List Bool Lia.
Import ListNotations.
Local Open Scope Z_scope.

(** ** Bytes, characters and C strings *)

Definition ch (a : ascii) : Z := Z.of_N (N_of_ascii a).

Fixpoint bytes (s : string) : list Z :=
  match s with
  | EmptyString => []
  | String a s' => ch a :: bytes s'
  end.

Definition SP : Z := 32.
Definition TAB : Z := 9.
Definition CR : Z := 13.
Definition LF : Z := 10.
Definition NUL : Z := 0.

(** A store into an [unsigned char]. *)
Definition to_byte (x : Z) : Z := x mod 256.

(** A value of type [u32]. *)
Definition to_u32 (x : Z) : Z := x mod 2 ^ 32.

Definition zlen {A} (l : list A) : Z := Z.of_nat (length l).

(** [p[i]] on a NUL-terminated buffer: past the end one reads the NUL. *)
Definition at_ (l : list Z) (i : nat) : Z := nth i l NUL.

(** The C-string view of a buffer: the bytes before the first NUL. *)
Fixpoint cstr (l : list Z) : list Z :=
  match l with
  | [] => []
  | c :: l' => if c =? NUL then [] else c :: cstr l'
  end.

Fixpoint list_eqb (l1 l2 : list Z) : bool :=
  match l1, l2 with
  | [], [] => true
  | a :: l1', b :: l2' => (a =? b) && list_eqb l1' l2'
  | _, _ => false
  end.

(** [memcmp (l, pre, length pre) == 0] on a buffer that is long enough, and
    on a C string in general (the comparison stops at the terminator). *)
Fixpoint has_prefix (pre l : list Z) : bool :=
  match pre, l with
  | [], _ => true
  | a :: pre', b :: l' => (a =? b) && has_prefix pre' l'
  | _ :: _, [] => false
  end.

(** ** How a call can end *)

Inductive outcome (A : Type) : Type :=
| Ok (a : A)          (* the function returns *)
| Exit (status : Z)   (* [g10_exit]: the process ends *)
| Abort.              (* failed [assert], [BUG()] or a NULL dereference *)

Arguments Ok {A} a.
Arguments Exit {A} status.
Arguments Abort {A}.

Definition bind {A B} (m : outcome A) (k : A -> outcome B) : outcome B :=
  match m with
  | Ok a => k a
  | Exit s => Exit s
  | Abort => Abort
  end.

Notation "x <- m ;; k" := (bind m (fun x => k))
  (at level 61, m at next level, right associativity).
Notation "' p <- m ;; k" := (bind m (fun p => k))
  (at level 61, p pattern, m at next level, right associativity).

(** Return codes.  [errors.h] is not part of the sources at hand; the codes
    the three units name are kept apart from success (0) and from the
    end-of-file sentinel (-1) by construction. *)
Inductive g10err : Type :=
| G10ERR_GENERAL
| G10ERR_PUBKEY_ALGO
| G10ERR_DIGEST_ALGO
| G10ERR_BAD_SIGN
| G10ERR_NO_PUBKEY
| G10ERR_INVALID_PACKET
| G10ERR_INVALID_ARMOR
| G10ERR_NO_SECKEY
| G10ERR_CREATE_FILE
| G10ERR_SIG_CLASS
| G10ERR_UNEXPECTED
| G10ERR_other (code : Z).

Inductive rc_t : Type :=
| RC_OK                 (* 0 *)
| RC_EOF                (* -1 *)
| RC_ERR (e : g10err).

Definition rc_is_ok (rc : rc_t) : bool :=
  match rc with RC_OK => true | _ => false end.

Definition rc_is_eof (rc : rc_t) : bool :=
  match rc with RC_EOF => true | _ => false end.

(** * The armor filter (armor.c) *)

Module Armor.

Definition MAX_LINELEN : Z := 20000.
Definition CRCINIT : Z := 0xB704CE.
Definition CRCPOLY : Z := 0x864CFB.

Definition BEGIN_SIGNATURE : Z := 2.
Definition BEGIN_SIGNED_MSG_IDX : Z := 3.

Definition head_strings : list (list Z) :=
  [ bytes "BEGIN PGP MESSAGE";
    bytes "BEGIN PGP PUBLIC KEY BLOCK";
    bytes "BEGIN PGP SIGNATURE";
    bytes "BEGIN PGP SIGNED MESSAGE";
    bytes "BEGIN PGP ARMORED FILE";
    bytes "BEGIN PGP PRIVATE KEY BLOCK";
    bytes "BEGIN PGP SECRET KEY BLOCK" ].

(** The fields of [armor_filter_context_t] that the input side reads or
    writes.  [buffer] holds the [buffer_len] bytes of the current line. *)
Record armor_filter_context_t : Type := mk_afx {
  only_keyblocks : Z;
  inp_checked : Z;
  inp_bypass : Z;
  in_cleartext : Z;
  not_dash_escaped : Z;
  hashes : Z;
  faked : Z;
  truncated : Z;
  buffer : list Z;
  buffer_pos : nat;
  radbuf0 : Z;
  idx : Z;
  crc : Z;
  any_data : Z;
  empty : nat
}.

(** Field updates ([afx->f = v]). *)
Definition set_inp_checked (v : Z) (x : armor_filter_context_t) :=
  mk_afx (only_keyblocks x) v (inp_bypass x) (in_cleartext x)
    (not_dash_escaped x) (hashes x) (faked x) (truncated x) (buffer x)
    (buffer_pos x) (radbuf0 x) (idx x) (crc x) (any_data x) (empty x).

Definition set_in_cleartext (v : Z) (x : armor_filter_context_t) :=
  mk_afx (only_keyblocks x) (inp_checked x) (inp_bypass x) v
    (not_dash_escaped x) (hashes x) (faked x) (truncated x) (buffer x)
    (buffer_pos x) (radbuf0 x) (idx x) (crc x) (any_data x) (empty x).

Definition set_not_dash_escaped (v : Z) (x : armor_filter_context_t) :=
  mk_afx (only_keyblocks x) (inp_checked x) (inp_bypass x) (in_cleartext x)
    v (hashes x) (faked x) (truncated x) (buffer x) (buffer_pos x)
    (radbuf0 x) (idx x) (crc x) (any_data x) (empty x).

Definition set_hashes (v : Z) (x : armor_filter_context_t) :=
  mk_afx (only_keyblocks x) (inp_checked x) (inp_bypass x) (in_cleartext x)
    (not_dash_escaped x) v (faked x) (truncated x) (buffer x)
    (buffer_pos x) (radbuf0 x) (idx x) (crc x) (any_data x) (empty x).

Definition set_faked (v : Z) (x : armor_filter_context_t) :=
  mk_afx (only_keyblocks x) (inp_checked x) (inp_bypass x) (in_cleartext x)
    (not_dash_escaped x) (hashes x) v (truncated x) (buffer x)
    (buffer_pos x) (radbuf0 x) (idx x) (crc x) (any_data x) (empty x).

Definition set_truncated (v : Z) (x : armor_filter_context_t) :=
  mk_afx (only_keyblocks x) (inp_checked x) (inp_bypass x) (in_cleartext x)
    (not_dash_escaped x) (hashes x) (faked x) v (buffer x) (buffer_pos x)
    (radbuf0 x) (idx x) (crc x) (any_data x) (empty x).

Definition set_buffer (v : list Z) (x : armor_filter_context_t) :=
  mk_afx (only_keyblocks x) (inp_checked x) (inp_bypass x) (in_cleartext x)
    (not_dash_escaped x) (hashes x) (faked x) (truncated x) v
    (buffer_pos x) (radbuf0 x) (idx x) (crc x) (any_data x) (empty x).

Definition set_buffer_pos (v : nat) (x : armor_filter_context_t) :=
  mk_afx (only_keyblocks x) (inp_checked x) (inp_bypass x) (in_cleartext x)
    (not_dash_escaped x) (hashes x) (faked x) (truncated x) (buffer x) v
    (radbuf0 x) (idx x) (crc x) (any_data x) (empty x).

Definition set_radbuf0 (v : Z) (x : armor_filter_context_t) :=
  mk_afx (only_keyblocks x) (inp_checked x) (inp_bypass x) (in_cleartext x)
    (not_dash_escaped x) (hashes x) (faked x) (truncated x) (buffer x)
    (buffer_pos x) v (idx x) (crc x) (any_data x) (empty x).

Definition set_idx (v : Z) (x : armor_filter_context_t) :=
  mk_afx (only_keyblocks x) (inp_checked x) (inp_bypass x) (in_cleartext x)
    (not_dash_escaped x) (hashes x) (faked x) (truncated x) (buffer x)
    (buffer_pos x) (radbuf0 x) v (crc x) (any_data x) (empty x).

Definition set_crc (v : Z) (x : armor_filter_context_t) :=
  mk_afx (only_keyblocks x) (inp_checked x) (inp_bypass x) (in_cleartext x)
    (not_dash_escaped x) (hashes x) (faked x) (truncated x) (buffer x)
    (buffer_pos x) (radbuf0 x) (idx x) v (any_data x) (empty x).

Definition set_any_data (v : Z) (x : armor_filter_context_t) :=
  mk_afx (only_keyblocks x) (inp_checked x) (inp_bypass x) (in_cleartext x)
    (not_dash_escaped x) (hashes x) (faked x) (truncated x) (buffer x)
    (buffer_pos x) (radbuf0 x) (idx x) (crc x) v (empty x).

Definition set_empty (v : nat) (x : armor_filter_context_t) :=
  mk_afx (only_keyblocks x) (inp_checked x) (inp_bypass x) (in_cleartext x)
    (not_dash_escaped x) (hashes x) (faked x) (truncated x) (buffer x)
    (buffer_pos x) (radbuf0 x) (idx x) (crc x) (any_data x) v.

(** ** Lines

    [iobuf_read_line] lives in [iobuf.c], outside the sources at hand.  A
    stream read line by line is modelled by the results of the successive
    calls: the bytes stored (never empty before end of file, the LF
    included) and whether the line was cut at [MAX_LINELEN], in which case
    the call sets [maxlen] to zero.  At end of file the call returns 0, which
    is the empty list of the loops below. *)

Record rline : Type := mk_rline {
  rl_bytes : list Z;
  rl_truncated : bool
}.

(** [strchr (" \t\r\n", c)] is non-NULL for the four characters and for the
    terminating NUL of the set. *)
Definition in_trim_set (c : Z) : bool :=
  (c =? SP) || (c =? TAB) || (c =? CR) || (c =? LF) || (c =? NUL).

(** The [for] loop of [trim_trailing_spaces]: [n] counts the bytes seen,
    [mark] is the start of the current run of trimmable bytes. *)
Fixpoint trim_scan (line : list Z) (n : nat) (mark : option nat) : option nat :=
  match line with
  | [] => mark
  | p :: line' =>
      if in_trim_set p
      then trim_scan line' (S n)
             (match mark with None => Some n | Some m => Some m end)
      else trim_scan line' (S n) None
  end.

(** The new length; the bytes kept are [firstn] of it. *)
Definition trim_trailing_spaces (line : list Z) : nat :=
  match trim_scan line 0 None with
  | Some mark => mark
  | None => length line
  end.

(** The buffer after the call: [*mark = 0] is written when a mark is set. *)
Definition trim_written (line : list Z) : list Z :=
  match trim_scan line 0 None with
  | Some mark => firstn mark line ++ [NUL] ++ skipn (S mark) line
  | None => line
  end.

(** [strstr (l, pat)] on C strings without NUL: the offset of the first
    occurrence. *)
Fixpoint strstr (pat l : list Z) : option nat :=
  if has_prefix pat l then Some O
  else match l with
       | [] => None
       | _ :: l' => option_map S (strstr pat l')
       end.

(** [strcmp] against each entry of a table: the first index that is equal. *)
Fixpoint find_string (p : list Z) (table : list (list Z)) (i : Z) : option Z :=
  match table with
  | [] => None
  | s :: table' => if list_eqb s p then Some i else find_string p table' (i + 1)
  end.

Definition dashes : list Z := bytes "-----".

(** [is_armor_header]: -1 or the index into [head_strings]. *)
Definition is_armor_header (line : list Z) : Z :=
  let len := length line in
  if (len <? 15)%nat then -1
  else if negb (has_prefix dashes line) then -1
  else
    let s := cstr (skipn 5 line) in
    match strstr dashes s with
    | None => -1
    | Some k =>
        let p := skipn (k + 5) s in
        let p := match p with c :: p' => if c =? CR then p' else p | [] => p end in
        let p := match p with c :: p' => if c =? LF then p' else p | [] => p end in
        match p with
        | _ :: _ => -1    (* garbage after dashes *)
        | [] =>
            match find_string (firstn k s) head_strings 0 with
            | None => -1  (* unknown armor line *)
            | Some i => i
            end
        end
    end.

(** [strncmp (s1, s2, n) == 0]. *)
Fixpoint strncmp_eq (s1 s2 : list Z) (n : nat) : bool :=
  match n with
  | O => true
  | S n' =>
      let c1 := hd NUL s1 in
      let c2 := hd NUL s2 in
      if c1 =? c2
      then if c1 =? NUL then true else strncmp_eq (tl s1) (tl s2) n'
      else false
  end.

Definition is_blank (c : Z) : bool := (c =? SP) || (c =? TAB).

Fixpoint skip_blanks (s : list Z) : list Z :=
  match s with
  | c :: s' => if is_blank c then skip_blanks s' else s
  | [] => []
  end.

(** The scan for [s2]: the bytes up to a blank, a comma or the end. *)
Fixpoint token_end (s : list Z) : nat :=
  match s with
  | c :: s' => if is_blank c || (c =? ch ",") then O else S (token_end s')
  | [] => O
  end.

(** The [for(s=line+5;;s=s2)] loop of [parse_hash_header]; [None] is the
    [return 0] of an invalid header, fuel bounds the passes. *)
Fixpoint hash_names (fuel : nat) (s : list Z) (found : Z) : option Z :=
  match fuel with
  | O => None
  | S fuel' =>
      match skip_blanks s with
      | [] => Some found
      | c :: rest =>
          let n := S (token_end rest) in
          let s := c :: rest in
          let bit :=
            if strncmp_eq s (bytes "RIPEMD160") n then Some 1
            else if strncmp_eq s (bytes "SHA1") n then Some 2
            else if strncmp_eq s (bytes "MD5") n then Some 4
            else if strncmp_eq s (bytes "TIGER") n then Some 8
            else None in
          match bit with
          | None => None
          | Some b =>
              match skip_blanks (skipn n s) with
              | [] => hash_names fuel' [] (Z.lor found b)
              | c2 :: s2 =>
                  if c2 =? ch "," then hash_names fuel' s2 (Z.lor found b)
                  else None
              end
          end
      end
  end.

(** [parse_hash_header] on the C string [line]. *)
Definition parse_hash_header (line : list Z) : Z :=
  let l := cstr line in
  if (length l <? 6)%nat || (60 <? length l)%nat then 0
  else if negb (has_prefix (bytes "Hash:") l) then 0
  else match hash_names (S (length l)) (skipn 5 l) 0 with
       | Some found => found
       | None => 0
       end.

(** [strchr (line, ':')] followed by the test [!p || !p[1]]. *)
Fixpoint colon_with_text (l : list Z) : bool :=
  match l with
  | [] => false
  | c :: l' =>
      if c =? ch ":" then match l' with [] => false | _ :: _ => true end
      else colon_with_text l'
  end.

(** [parse_header_line] on the line held in [afx->buffer]: 0 for the empty
    line, -1 for an invalid header, 1 for a good one. *)
Definition parse_header_line (afx : armor_filter_context_t)
  : Z * armor_filter_context_t :=
  let line := buffer afx in
  if (at_ line 0 =? LF)
     || (negb (length line =? 0)%nat && (at_ line 0 =? CR) && (at_ line 1 =? LF))
  then (0, afx)
  else
    let afx := set_buffer (trim_written line) afx in
    let l := cstr (buffer afx) in
    if negb (colon_with_text l) then (-1, afx)
    else if negb (in_cleartext afx =? 0) then
      let hs := parse_hash_header l in
      if negb (hs =? 0) then (1, set_hashes (Z.lor (hashes afx) hs) afx)
      else if (15 <? length l)%nat && has_prefix (bytes "NotDashEscaped:") l
      then (1, set_not_dash_escaped 1 afx)
      else (-1, afx)
    else (1, afx).

(** ** [fake_packet]

    The caller's buffer [buf] is written front to back.  The model keeps the
    bytes [buf[2 .. len)] as a list ([len] is two more than its length);
    the two bytes of the length header are stored when the loop is over. *)

Record fake_state : Type := mk_fs {
  fs_afx : armor_filter_context_t;
  fs_buf : list Z;          (* buf[2 .. len) *)
  fs_emplines : nat;
  fs_lastline : bool;
  fs_rc : rc_t
}.

Definition fs_len (s : fake_state) : Z := 2 + zlen (fs_buf s).

(** [while( emplines && len < size ) { CR; LF; emplines--; }] *)
Fixpoint flush_emplines (size : Z) (emplines : nat) (buf : list Z)
  : nat * list Z :=
  match emplines with
  | O => (O, buf)
  | S e =>
      if 2 + zlen buf <? size
      then flush_emplines size e (buf ++ [CR; LF])
      else (emplines, buf)
  end.

(** [while( len < size && buffer_pos < buffer_len ) buf[len++] =
    buffer[buffer_pos++];], [pending] being the bytes from [buffer_pos]
    on. *)
Fixpoint copy_line (size : Z) (pending : list Z) (pos : nat) (buf : list Z)
  : nat * list Z :=
  match pending with
  | [] => (pos, buf)
  | c :: pending' =>
      if 2 + zlen buf <? size
      then copy_line size pending' (S pos) (buf ++ [c])
      else (pos, buf)
  end.

(** The dash-escape and armor-line tests on the trimmed line [p] of length
    [n]: the new [buffer_pos], and whether the line ends the text. *)
Definition classify_line (not_dash_escaped : Z) (p : list Z) : nat * bool :=
  let n := length p in
  if (2 <? n)%nat && (at_ p 0 =? ch "-") then
    if (at_ p 1 =? ch " ") && (not_dash_escaped =? 0) then (2%nat, false)
    else if (15 <=? n)%nat && (at_ p 1 =? ch "-") && (at_ p 2 =? ch "-")
            && (at_ p 3 =? ch "-")
    then (O, true)
    else (O, false)
  else (O, false).

(** The loop [while( !rc && len < size )].  Every pass that does not leave
    the loop reads one line, so the recursion is on the stream.  The pass
    that flushes empty lines ends in [continue]: the loop test is taken
    again and, [emplines] being zero then, the next pass goes on with the
    pending line; the model runs the two passes as one. *)
Fixpoint fake_loop (size : Z) (a : list rline) (s : fake_state) {struct a}
  : outcome (fake_state * list rline) :=
  if negb (rc_is_ok (fs_rc s)) || negb (fs_len s <? size) then Ok (s, a)
  else
    let '(e, b) := flush_emplines size (fs_emplines s) (fs_buf s) in
    if negb (2 + zlen b <? size) then
      Ok (mk_fs (fs_afx s) b e (fs_lastline s) (fs_rc s), a)
    else
      let afx := fs_afx s in
      (* the pending line and its CR,LF *)
      let '(afx, b) :=
        if faked afx =? 1 then (set_faked (faked afx + 1) afx, b)
        else
          let '(pos, b) :=
            copy_line size (skipn (buffer_pos afx) (buffer afx))
                      (buffer_pos afx) b in
          (set_buffer_pos pos afx, b ++ [CR; LF]) in
      if negb (faked (fs_afx s) =? 1) && negb (2 + zlen b <? size) then
        (* if( len >= size ) continue; *)
        Ok (mk_fs afx b e (fs_lastline s) (fs_rc s), a)
      else
        (* read the next line *)
        match a with
        | [] =>
            Ok (mk_fs (set_buffer [] (set_buffer_pos O afx)) b e
                      (fs_lastline s) RC_EOF, [])
        | l :: a' =>
            match rl_bytes l with
            | [] =>
                Ok (mk_fs (set_buffer [] (set_buffer_pos O afx)) b e
                          (fs_lastline s) RC_EOF, a')
            | _ :: _ =>
                let afx := set_buffer_pos O afx in
                let afx :=
                  if rl_truncated l then set_truncated (truncated afx + 1) afx
                  else afx in
                let p :=
                  firstn (trim_trailing_spaces (rl_bytes l)) (rl_bytes l) in
                let afx := set_buffer p afx in
                let '(pos, last) := classify_line (not_dash_escaped afx) p in
                let afx := set_buffer_pos pos afx in
                if last then
                  (* assert( len >= 4 ); len -= 2; rc = -1; *)
                  if 2 + zlen b <? 4 then Abort
                  else
                    fake_loop size a'
                      (mk_fs afx (firstn (length b - 2) b) e true RC_EOF)
                else
                  fake_loop size a' (mk_fs afx b e (fs_lastline s) (fs_rc s))
            end
        end.

(** The [for(;;)] loop over the header lines of the signature's armor; the
    inner [do ... while( !maxlen )] reads again after a truncated line.
    [invalid_armor] writes the BADARMOR status and calls [g10_exit (1)]. *)
Fixpoint read_armor_headers (a : list rline) (afx : armor_filter_context_t)
  : outcome (rc_t * armor_filter_context_t * list rline) :=
  match a with
  | [] => Ok (RC_EOF, set_buffer [] afx, [])
  | l :: a' =>
      if rl_truncated l then read_armor_headers a' afx
      else
        let afx := set_buffer (rl_bytes l) afx in
        match rl_bytes l with
        | [] => Ok (RC_EOF, afx, a')
        | _ :: _ =>
            let '(i, afx) := parse_header_line afx in
            if i <=? 0 then
              if negb (i =? 0) then Exit 1 else Ok (RC_OK, afx, a')
            else read_armor_headers a' afx
        end
  end.

Record fake_result : Type := mk_fake_result {
  fp_rc : rc_t;
  fp_out : list Z;                 (* buf[0 .. *retn) *)
  fp_afx : armor_filter_context_t;
  fp_rest : list rline
}.

Definition fake_packet (afx : armor_filter_context_t) (a : list rline)
  (size : Z) : outcome fake_result :=
  let size := size - 3 in
  '(s, a) <- fake_loop size a (mk_fs afx [] (empty afx) false RC_OK) ;;
  let buf0 := to_byte (Z.shiftr (fs_len s - 2) 8) in
  let buf1 := to_byte (fs_len s - 2) in
  if fs_lastline s then
    (* write last (ending) length header *)
    let b :=
      if negb (buf0 =? 0) && negb (buf1 =? 0)   (* only if we have some text *)
      then fs_buf s ++ [0; 0]
      else fs_buf s in
    let afx := set_buffer_pos O (set_in_cleartext 0 (set_faked 0 (fs_afx s))) in
    '(rc, afx, a) <- read_armor_headers a afx ;;
    let afx := set_radbuf0 0 (set_idx 0 (set_crc CRCINIT (set_inp_checked 1 afx))) in
    Ok (mk_fake_result rc ([buf0; buf1] ++ b) (set_empty (fs_emplines s) afx) a)
  else
    Ok (mk_fake_result (fs_rc s) ([buf0; buf1] ++ fs_buf s)
                       (set_empty (fs_emplines s) (fs_afx s)) a).

(** *** The canonical form of the text, in the words of the specification *)

Definition is_trailing_ws (c : Z) : bool := (c =? SP) || (c =? TAB) || (c =? CR).

(** A line without its trailing SP, TAB and CR. *)
Fixpoint strip_trailing_ws (l : list Z) : list Z :=
  match l with
  | [] => []
  | c :: l' =>
      match strip_trailing_ws l' with
      | [] => if is_trailing_ws c then [] else [c]
      | r => c :: r
      end
  end.

(** The line without the trailing bytes that [trim_trailing_spaces] looks
    for (an auxiliary form, used to relate the scan to the canonical text). *)
Fixpoint strip_trim_set (l : list Z) : list Z :=
  match l with
  | [] => []
  | c :: l' =>
      match strip_trim_set l' with
      | [] => if in_trim_set c then [] else [c]
      | r => c :: r
      end
  end.

(** A dash-escaped line starts with a dash and a space, and goes on. *)
Definition dash_escaped (l : list Z) : bool :=
  (2 <? length l)%nat && (at_ l 0 =? ch "-") && (at_ l 1 =? ch " ").

(** The canonical form of one line: stripped, and without the dash escape
    unless the header [NotDashEscaped] was given. *)
Definition canonical_line (not_dash_escaped : Z) (l : list Z) : list Z :=
  let t := strip_trailing_ws l in
  if (not_dash_escaped =? 0) && dash_escaped t then skipn 2 t else t.

(** Every line followed by CR LF: the text of the claim as it was written. *)
Definition canonical_text (not_dash_escaped : Z) (lines : list (list Z))
  : list Z :=
  concat (map (fun l => canonical_line not_dash_escaped l ++ [CR; LF]) lines).

(** The lines joined by CR LF, none after the last one. *)
Fixpoint join_crlf (lines : list (list Z)) : list Z :=
  match lines with
  | [] => []
  | [l] => l
  | l :: rest => l ++ [CR; LF] ++ join_crlf rest
  end.

(** A line of text as [iobuf_read_line] returns it. *)
Definition text_rline (l : list Z) : rline := mk_rline (l ++ [LF]) false.

(** A trimmed line that ends the clearsigned text: at least 15 bytes that
    start with four dashes. *)
Definition armor_like (p : list Z) : bool :=
  (15 <=? length p)%nat && (at_ p 0 =? ch "-") && (at_ p 1 =? ch "-")
  && (at_ p 2 =? ch "-") && (at_ p 3 =? ch "-").

(** A line of text that does not end the clearsigned text: no LF and no
    NUL inside, and not an armor-like line once stripped. *)
Definition text_line_ok (l : list Z) : Prop :=
  Forall (fun c => c <> LF /\ c <> NUL) l
  /\ armor_like (strip_trailing_ws l) = false.

(** A line as read that ends the clearsigned text. *)
Definition ends_text (t : rline) : Prop :=
  rl_bytes t <> []
  /\ armor_like (firstn (trim_trailing_spaces (rl_bytes t)) (rl_bytes t)) = true.

(** *** Sample inputs

    The context as [check_input] leaves it after the header block of a
    clearsigned message (the empty line that ends the headers is in the
    buffer), and the first line of the signature armor. *)

Definition afx_clearsigned (not_dashed : Z) : armor_filter_context_t :=
  mk_afx 0 0 0 1 not_dashed 0 1 0 [LF] 0 0 0 0 0 0.

Definition begin_signature_line : rline :=
  text_rline (bytes "-----BEGIN PGP SIGNATURE-----").

Definition sample_text : list (list Z) :=
  [bytes "hello  "; []; bytes "- -----BEGIN foo"].

(** ** The tables of [initialize] *)

Definition bintoasc : list Z :=
  bytes "ABCDEFGHIJKLMNOPQRSTUVWXYZabcdefghijklmnopqrstuvwxyz0123456789+/".

(** [table[i] = v]. *)
Fixpoint store (table : list Z) (i : nat) (v : Z) : list Z :=
  match table, i with
  | [], _ => []
  | _ :: t, O => v :: t
  | x :: t, S i' => x :: store t i' v
  end.

(** The loop [for(i=j=0; j < 128; j++ )] over the CRC table; [todo] counts
    the passes that are left. *)
Fixpoint crc_table_loop (todo : nat) (i j : nat) (table : list Z) : list Z :=
  match todo with
  | O => table
  | S todo' =>
      let t := nth j table 0 in
      let table :=
        if negb (Z.land t 0x00800000 =? 0) then
          let t := to_u32 (Z.shiftl t 1) in
          store (store table i (Z.lxor t CRCPOLY)) (S i) t
        else
          let t := to_u32 (Z.shiftl t 1) in
          store (store table i t) (S i) (Z.lxor t CRCPOLY) in
      crc_table_loop todo' (S (S i)) (S j) table
  end.

Definition crc_table : list Z :=
  Eval vm_compute in crc_table_loop 128 0 0 (repeat 0 256).

(** [for(s=bintoasc,i=0; *s; s++,i++ ) asctobin[*s] = i;] *)
Fixpoint asctobin_loop (s : list Z) (i : Z) (table : list Z) : list Z :=
  match s with
  | [] => table
  | c :: s' => asctobin_loop s' (i + 1) (store table (Z.to_nat c) i)
  end.

Definition asctobin_table : list Z :=
  Eval vm_compute in asctobin_loop bintoasc 0 (repeat 255 256).

(** [asctobin[c]] for a byte [c]. *)
Definition asctobin (c : Z) : Z := nth (Z.to_nat c) asctobin_table 255.

(** ** [radix64_read] *)

Definition is_radix_space (c : Z) : bool :=
  (c =? LF) || (c =? SP) || (c =? CR) || (c =? TAB).

(** The [switch(idx)] of the decoding loop on the value [c] of a radix-64
    character: the byte stored, if one is, and the new [val]. *)
Definition radix_switch (idx val c : Z) : option Z * Z :=
  if idx =? 0 then (None, to_byte (Z.shiftl c 2))
  else if idx =? 1 then
    let val := Z.lor val (Z.land (Z.shiftr c 4) 3) in
    (Some val, Z.land (Z.shiftl c 4) 0xf0)
  else if idx =? 2 then
    let val := Z.lor val (Z.land (Z.shiftr c 2) 15) in
    (Some val, Z.land (Z.shiftl c 6) 0xc0)
  else if idx =? 3 then
    let val := Z.lor val (Z.land c 0x3f) in
    (Some val, val)
  else (None, val).

Record radix_body : Type := mk_radix_body {
  rb_buf : list Z;        (* buf[0 .. n) *)
  rb_idx : Z;
  rb_val : Z;
  rb_checkcrc : bool;
  rb_rest : list Z
}.

(** The loop [for( n=0; n < size; )] over the bytes that [iobuf_get]
    returns; the end of the list is the -1 of end of file. *)
Fixpoint radix_loop (size : Z) (a : list Z) (buf : list Z) (idx val : Z)
  : radix_body :=
  if negb (zlen buf <? size) then mk_radix_body buf idx val false a
  else
    match a with
    | [] => mk_radix_body buf idx val false []
    | c :: a' =>
        if is_radix_space c then radix_loop size a' buf idx val
        else if c =? ch "=" then   (* pad character: stop *)
          mk_radix_body (if idx =? 1 then buf ++ [val] else buf) idx val true a'
        else
          let c2 := asctobin c in
          if c2 =? 255 then radix_loop size a' buf idx val
          else
            let '(stored, val) := radix_switch idx val c2 in
            let buf := match stored with Some v => buf ++ [v] | None => buf end in
            radix_loop size a' buf (Z.rem (idx + 1) 4) val
    end.

(** [crc = (crc << 8) ^ crc_table[((crc >> 16)&0xff) ^ buf[i]]] on a [u32],
    over the bytes of the buffer. *)
Definition crc_step (crc b : Z) : Z :=
  Z.lxor (to_u32 (Z.shiftl crc 8))
         (nth (Z.to_nat (Z.lxor (Z.land (Z.shiftr crc 16) 0xff) b)) crc_table 0).

Definition crc_update (crc : Z) (buf : list Z) : Z :=
  Z.land (fold_left crc_step buf crc) 0x00ffffff.

(** The loop that skips LF, blanks and pad characters after the first pad:
    the character it stops at (or none at end of file) and what follows. *)
Fixpoint skip_pad (a : list Z) : option Z * list Z :=
  match a with
  | [] => (None, [])
  | c :: a' =>
      if is_radix_space c || (c =? ch "=") then skip_pad a' else (Some c, a')
  end.

(** The [switch(idx)] of the CRC loop: the new [val] and [mycrc]. *)
Definition crc_switch (idx val mycrc c : Z) : Z * Z :=
  if idx =? 0 then (to_byte (Z.shiftl c 2), mycrc)
  else if idx =? 1 then
    let val := Z.lor val (Z.land (Z.shiftr c 4) 3) in
    (Z.land (Z.shiftl c 4) 0xf0, Z.lor mycrc (Z.shiftl val 16))
  else if idx =? 2 then
    let val := Z.lor val (Z.land (Z.shiftr c 2) 15) in
    (Z.land (Z.shiftl c 6) 0xc0, Z.lor mycrc (Z.shiftl val 8))
  else if idx =? 3 then
    let val := Z.lor val (Z.land c 0x3f) in
    (val, Z.lor mycrc val)
  else (val, mycrc).

(** The loop [do { ... } while( ++idx < 4 )]; [todo] is [4 - idx].  The
    result is the last value of [c] ([None] for the -1 of end of file, which
    no byte equals; 255 for a character outside the alphabet), [idx],
    [mycrc] and the rest of the input. *)
Fixpoint crc_loop (todo : nat) (idx c : Z) (a : list Z) (val mycrc : Z)
  : option Z * Z * Z * list Z :=
  match todo with
  | O => (Some c, idx, mycrc, a)
  | S todo' =>
      let c := asctobin c in
      if c =? 255 then (Some c, idx, mycrc, a)
      else
        let '(val, mycrc) := crc_switch idx val mycrc c in
        match a with
        | [] => (None, idx, mycrc, [])
        | d :: a' => crc_loop todo' (idx + 1) d a' val mycrc
        end
  end.

Record radix_result : Type := mk_radix_result {
  rr_rc : rc_t;
  rr_out : list Z;                 (* buf[0 .. *retn) *)
  rr_afx : armor_filter_context_t;
  rr_rest : list Z
}.

Definition radix64_read (afx : armor_filter_context_t) (a : list Z) (size : Z)
  : radix_result :=
  let b := radix_loop size a [] (idx afx) (radbuf0 afx) in
  let afx := set_radbuf0 (rb_val b)
               (set_idx (rb_idx b)
                  (set_crc (crc_update (crc afx) (rb_buf b)) afx)) in
  let '(rc, afx, a) :=
    if rb_checkcrc b then
      let afx := set_faked 0 (set_inp_checked 0 (set_any_data 1 afx)) in
      match skip_pad (rb_rest b) with
      | (None, a) => (RC_OK, afx, a)          (* premature eof (no CRC) *)
      | (Some c, a) =>
          let '(c, idx, mycrc, a) := crc_loop 4 0 c a (rb_val b) 0 in
          match c with
          | None =>               (* premature eof (in CRC) *)
              (RC_ERR G10ERR_INVALID_ARMOR, afx, a)
          | Some _ =>
              if negb (idx =? 4)  (* malformed CRC *)
              then (RC_ERR G10ERR_INVALID_ARMOR, afx, a)
              else if negb (mycrc =? crc afx)   (* CRC error *)
              then (RC_ERR G10ERR_INVALID_ARMOR, afx, a)
              else (RC_OK, afx, a)
          end
      end
    else (RC_OK, afx, rb_rest b) in
  let rc := match rb_buf b with [] => RC_EOF | _ :: _ => rc end in
  mk_radix_result rc (rb_buf b) afx a.

(** *** The verdict of the CRC loop *)

(** [mycrc] after four passes of the CRC loop on four values of the
    alphabet. *)
Definition crc_chain (s1 s2 s3 s4 : Z) : Z :=
  let '(v, m) := crc_switch 0 0 0 s1 in
  let '(v, m) := crc_switch 1 v m s2 in
  let '(v, m) := crc_switch 2 v m s3 in
  snd (crc_switch 3 v m s4).

(** The input after the pad characters on which the CRC loop ends with
    [c != -1], [idx == 4] and [mycrc == crc]. *)
Definition trailer_accepted (crc : Z) (l : list Z) : bool :=
  match l with
  | c1 :: c2 :: c3 :: c4 :: _ :: _ =>
      negb (asctobin c1 =? 255) && negb (asctobin c2 =? 255)
      && negb (asctobin c3 =? 255) && negb (asctobin c4 =? 255)
      && (crc_chain (asctobin c1) (asctobin c2) (asctobin c3) (asctobin c4)
          =? crc)
  | _ => false
  end.

(** *** The CRC trailer, in the words of the specification *)

(** The place of [c] in [l], counted from [i]. *)
Fixpoint index_of (c : Z) (l : list Z) (i : Z) : option Z :=
  match l with
  | [] => None
  | x :: l' => if x =? c then Some i else index_of c l' (i + 1)
  end.

(** The value of a character of the radix-64 alphabet. *)
Definition radix64_digit (c : Z) : option Z := index_of c bintoasc 0.

Definition is_base64 (c : Z) : bool :=
  match radix64_digit c with Some _ => true | None => false end.

(** The 24 bits that four characters of the alphabet encode, six bits a
    character, the first character in the highest place. *)
Definition crc_of_chars (c1 c2 c3 c4 : Z) : option Z :=
  match radix64_digit c1, radix64_digit c2,
        radix64_digit c3, radix64_digit c4 with
  | Some s1, Some s2, Some s3, Some s4 =>
      Some (262144 * s1 + 4096 * s2 + 64 * s3 + s4)
  | _, _, _, _ => None
  end.

(** Four characters of the alphabet that encode [crc], and one more byte
    of input after them. *)
Definition crc_trailer_ok (crc : Z) (l : list Z) : bool :=
  match l with
  | c1 :: c2 :: c3 :: c4 :: _ :: _ =>
      match crc_of_chars c1 c2 c3 c4 with
      | Some v => v =? crc
      | None => false
      end
  | _ => false
  end.

(** The values of the alphabet, and a test over all pairs of them. *)
Definition digit_range : list Z := map Z.of_nat (seq 0 64).

Definition pair_ok (f : Z -> Z -> bool) : bool :=
  forallb (fun s => forallb (f s) digit_range) digit_range.

(** The context once the armor headers are read. *)
Definition afx_radix : armor_filter_context_t :=
  mk_afx 0 1 0 0 0 0 0 0 [LF] 0 0 0 CRCINIT 0 0.

(** ** The faked packets of a clearsigned message

    The block of [armor_filter] that runs once [check_input] has set
    [faked]: one one-pass signature packet per detected hash, then the
    header of a plaintext packet.  The digest identifiers come from
    [cipher.h], which is not among the sources, and are parameters. *)

Section FakedHeader.

Variables DIGEST_ALGO_RMD160 DIGEST_ALGO_SHA1
          DIGEST_ALGO_MD5 DIGEST_ALGO_TIGER : Z.

(** One pass through the body of the [do ... while( hashes )] loop. *)
Definition onepass_body (hs : Z) (buf : list Z) : Z * list Z :=
  let buf := buf ++ [0x90]      (* old format, type 4, 1 length byte *)
                 ++ [13]        (* length *)
                 ++ [3]         (* version *)
                 ++ [0x01] in   (* sigclass 0x01 (canonical text mode) *)
  let '(hs, algo) :=
    if negb (Z.land hs 1 =? 0) then (Z.land hs (Z.lnot 1), DIGEST_ALGO_RMD160)
    else if negb (Z.land hs 2 =? 0) then (Z.land hs (Z.lnot 2), DIGEST_ALGO_SHA1)
    else if negb (Z.land hs 4 =? 0) then (Z.land hs (Z.lnot 4), DIGEST_ALGO_MD5)
    else if negb (Z.land hs 8 =? 0) then (Z.land hs (Z.lnot 8), DIGEST_ALGO_TIGER)
    else (hs, 0) in
  let buf := buf ++ [algo]
                 ++ [0]                        (* public key algo *)
                 ++ repeat 0 8                 (* keyid *)
                 ++ [if hs =? 0 then 1 else 0] (* last one: [!hashes] *) in
  (hs, buf).

Fixpoint onepass_loop (fuel : nat) (hs : Z) (buf : list Z) : option (list Z) :=
  match fuel with
  | O => None
  | S fuel' =>
      let '(hs', buf') := onepass_body hs buf in
      if hs' =? 0 then Some buf' else onepass_loop fuel' hs' buf'
  end.

(** The bytes written to the caller's buffer; four passes are enough once
    [hashes] is masked to four bits. *)
Definition fake_header (afx_hashes : Z) : option (list Z) :=
  let hs := Z.land afx_hashes (Z.lor (Z.lor (Z.lor 1 2) 4) 8) in
  let hs := if hs =? 0 then Z.lor hs 4 else hs in   (* default to MD 5 *)
  match onepass_loop 4 hs [] with
  | None => None
  | Some buf =>
      Some (buf ++ [0xaf]          (* old packet format, type 11, var length *)
                ++ [0; 6]          (* the length header *)
                ++ [ch "t"]        (* canonical text mode *)
                ++ [0]             (* namelength *)
                ++ repeat 0 4)     (* timestamp *)
  end.

(** *** What the specification says, in its own words *)

(** The hashes enabled by the [Hash] header, in the order of the list
    RIPEMD160, SHA1, MD5, TIGER; MD5 alone when none is enabled. *)
Definition enabled_hashes (afx_hashes : Z) : list Z :=
  let l := (if Z.testbit afx_hashes 0 then [DIGEST_ALGO_RMD160] else [])
        ++ (if Z.testbit afx_hashes 1 then [DIGEST_ALGO_SHA1] else [])
        ++ (if Z.testbit afx_hashes 2 then [DIGEST_ALGO_MD5] else [])
        ++ (if Z.testbit afx_hashes 3 then [DIGEST_ALGO_TIGER] else []) in
  match l with
  | [] => [DIGEST_ALGO_MD5]
  | _ => l
  end.

(** A one-pass signature packet: version 3, sigclass 0x01, the digest,
    pubkey-algo zero, keyid zero and the is-last flag. *)
Definition onepass_packet (algo : Z) (last : bool) : list Z :=
  [0x90; 13; 3; 0x01; algo; 0] ++ repeat 0 8 ++ [if last then 1 else 0].

(** The packets for a list of digests; only the last carries the flag. *)
Fixpoint onepass_packets (algos : list Z) : list Z :=
  match algos with
  | [] => []
  | [a] => onepass_packet a true
  | a :: rest => onepass_packet a false ++ onepass_packets rest
  end.

Definition plaintext_header : list Z := [0xaf; 0; 6; ch "t"; 0; 0; 0; 0; 0].

End FakedHeader.

(** The claim as it was written asks for the reverse order of the list. *)
Definition reversed_order_packets (rmd sha md5 tiger afx_hashes : Z) : list Z :=
  onepass_packets (rev (enabled_hashes rmd sha md5 tiger afx_hashes))
    ++ plaintext_header.

End Armor.

(** * The packet sequencer (mainproc.c) *)

Module Mainproc.

(** ** Packets

    [packet.h] is not among the sources; a packet is its type tag and, for
    the types whose fields the sequencer reads, those fields. *)

Inductive pkttype_t : Type :=
| PKT_NONE
| PKT_PUBKEY_ENC
| PKT_SIGNATURE
| PKT_SYMKEY_ENC
| PKT_ONEPASS_SIG
| PKT_SECRET_KEY
| PKT_PUBLIC_KEY
| PKT_SECRET_SUBKEY
| PKT_COMPRESSED
| PKT_ENCRYPTED
| PKT_MARKER
| PKT_PLAINTEXT
| PKT_RING_TRUST
| PKT_USER_ID
| PKT_PUBLIC_SUBKEY
| PKT_OLD_COMMENT
| PKT_COMMENT.

Definition pkttype_eqb (a b : pkttype_t) : bool :=
  match a, b with
  | PKT_NONE, PKT_NONE | PKT_PUBKEY_ENC, PKT_PUBKEY_ENC
  | PKT_SIGNATURE, PKT_SIGNATURE | PKT_SYMKEY_ENC, PKT_SYMKEY_ENC
  | PKT_ONEPASS_SIG, PKT_ONEPASS_SIG | PKT_SECRET_KEY, PKT_SECRET_KEY
  | PKT_PUBLIC_KEY, PKT_PUBLIC_KEY | PKT_SECRET_SUBKEY, PKT_SECRET_SUBKEY
  | PKT_COMPRESSED, PKT_COMPRESSED | PKT_ENCRYPTED, PKT_ENCRYPTED
  | PKT_MARKER, PKT_MARKER | PKT_PLAINTEXT, PKT_PLAINTEXT
  | PKT_RING_TRUST, PKT_RING_TRUST | PKT_USER_ID, PKT_USER_ID
  | PKT_PUBLIC_SUBKEY, PKT_PUBLIC_SUBKEY | PKT_OLD_COMMENT, PKT_OLD_COMMENT
  | PKT_COMMENT, PKT_COMMENT => true
  | _, _ => false
  end.

Record PKT_signature : Type := mk_signature {
  sig_keyid : Z * Z;
  sig_class : Z;
  sig_digest_algo : Z
}.

Record PKT_onepass_sig : Type := mk_onepass_sig {
  ops_keyid : Z * Z;
  ops_sig_class : Z;
  ops_digest_algo : Z
}.

Record PKT_pubkey_enc : Type := mk_pubkey_enc {
  pke_keyid : Z * Z;
  pke_pubkey_algo : Z
}.

Record PKT_symkey_enc : Type := mk_symkey_enc {
  ske_cipher_algo : Z;
  ske_s2k : Z;            (* the string-to-key specifier, as a handle *)
  ske_seskeylen : Z
}.

(** A packet: the tag and the member of the union that goes with it; the
    payloads that the sequencer only hands on are handles. *)
Inductive PACKET : Type :=
| Pkt_none
| Pkt_pubkey_enc (enc : PKT_pubkey_enc)
| Pkt_signature (sig : PKT_signature)
| Pkt_symkey_enc (enc : PKT_symkey_enc)
| Pkt_onepass_sig (ops : PKT_onepass_sig)
| Pkt_secret_key (sk : Z)
| Pkt_public_key (pk : Z)
| Pkt_secret_subkey (sk : Z)
| Pkt_compressed (zd : Z)
| Pkt_encrypted (ed : Z)
| Pkt_marker
| Pkt_plaintext (pt : Z)
| Pkt_ring_trust
| Pkt_user_id (uid : Z)
| Pkt_public_subkey (pk : Z)
| Pkt_old_comment
| Pkt_comment.

Definition pkttype (pkt : PACKET) : pkttype_t :=
  match pkt with
  | Pkt_none => PKT_NONE
  | Pkt_pubkey_enc _ => PKT_PUBKEY_ENC
  | Pkt_signature _ => PKT_SIGNATURE
  | Pkt_symkey_enc _ => PKT_SYMKEY_ENC
  | Pkt_onepass_sig _ => PKT_ONEPASS_SIG
  | Pkt_secret_key _ => PKT_SECRET_KEY
  | Pkt_public_key _ => PKT_PUBLIC_KEY
  | Pkt_secret_subkey _ => PKT_SECRET_SUBKEY
  | Pkt_compressed _ => PKT_COMPRESSED
  | Pkt_encrypted _ => PKT_ENCRYPTED
  | Pkt_marker => PKT_MARKER
  | Pkt_plaintext _ => PKT_PLAINTEXT
  | Pkt_ring_trust => PKT_RING_TRUST
  | Pkt_user_id _ => PKT_USER_ID
  | Pkt_public_subkey _ => PKT_PUBLIC_SUBKEY
  | Pkt_old_comment => PKT_OLD_COMMENT
  | Pkt_comment => PKT_COMMENT
  end.

(** The options that the sequencer reads ([options.h]). *)
Record options : Type := mk_options {
  list_packets : bool;
  skip_verify : bool;
  batch : bool;
  def_cipher_algo : Z
}.

(** The callback handed to [handle_compressed]. *)
Inductive compress_cb : Type :=
| cb_none                 (* NULL: the full mode *)
| cb_proc_compressed      (* [proc_compressed_cb]: signature packets *)
| cb_proc_encrypt.        (* [proc_encrypt_cb]: encryption packets *)

(** ** The collaborators

    What the sequencer calls and does not define: key derivation, bulk
    decryption, digests, signature checks, and the constants of
    [cipher.h].  A call that fills an out-parameter returns it. *)
Class Collaborators : Type := {
  DEK : Type;
  MD_HANDLE : Type;
  opt : options;
  is_ELGAMAL : Z -> bool;
  is_RSA : Z -> bool;
  PUBKEY_ALGO_DSA : Z;
  DEFAULT_CIPHER_ALGO : Z;
  DIGEST_ALGO_RMD160 : Z;
  DIGEST_ALGO_SHA1 : Z;
  DIGEST_ALGO_MD5 : Z;
  md_open : Z -> Z -> MD_HANDLE;
  md_enable : MD_HANDLE -> Z -> MD_HANDLE;
  md_copy : MD_HANDLE -> MD_HANDLE;
  get_session_key : PKT_pubkey_enc -> rc_t * DEK;
  passphrase_to_dek : Z -> option Z -> option DEK;
  decrypt_data : Z -> option DEK -> rc_t;
  handle_plaintext :
    Z -> option MD_HANDLE -> bool -> bool -> rc_t * option MD_HANDLE;
  handle_compressed : Z -> compress_cb -> rc_t;
  hash_datafiles : MD_HANDLE -> bool -> rc_t * MD_HANDLE;
  ask_for_detached_datafile : option MD_HANDLE -> rc_t * option MD_HANDLE;
  check_digest_algo : Z -> rc_t;
  signature_check : PKT_signature -> MD_HANDLE -> rc_t;
  check_key_signature : list PACKET -> PACKET -> rc_t * bool;
  check_signatures_trust : PKT_signature -> rc_t;
  (* the nodes that the loop over [find_next_kbnode (n1, PKT_SIGNATURE)]
     visits, starting after the root *)
  signature_nodes : list PACKET -> list PACKET
}.

Section Sequencer.

Context {X : Collaborators}.

(** What the sequencer lets the outside see. *)
Inductive log_message : Type :=
| msg_symkey_with_session_key
| msg_pubkey_decryption_failed
| msg_decryption_failed
| msg_handle_plaintext_failed
| msg_uncompressing_failed
| msg_cant_hash_datafile
| msg_cant_check_signature
| msg_orphaned_user_id
| msg_subkey_without_mainkey
| msg_another_packet_in_the_way
| msg_invalid_root_packet.

Inductive event : Type :=
| ev_log_error (m : log_message) (rc : rc_t)
| ev_passphrase_to_dek (algo : Z) (s2k : option Z)
| ev_decrypt_data (ed : Z) (key : option DEK)
| ev_status_goodsig
| ev_status_badsig
| ev_status_errsig.

(** The context [CTX].  [kblist] is the field [list] (the empty list is the
    NULL pointer).  Two fields are not in the C structure: [secmem] counts
    the DEKs that are allocated and not yet freed, [trace] records the
    calls and messages in the order they happen, the last one first. *)
Record CTX : Type := mk_ctx {
  mfx_md : option MD_HANDLE;
  sigs_only : bool;
  encrypt_only : bool;
  dek : option DEK;
  last_was_session_key : Z;
  kblist : list PACKET;
  have_data : bool;
  secmem : Z;
  trace : list event
}.

Definition set_mfx_md (v : option MD_HANDLE) (c : CTX) : CTX :=
  mk_ctx v (sigs_only c) (encrypt_only c) (dek c) (last_was_session_key c)
         (kblist c) (have_data c) (secmem c) (trace c).

Definition set_last_was_session_key (v : Z) (c : CTX) : CTX :=
  mk_ctx (mfx_md c) (sigs_only c) (encrypt_only c) (dek c) v
         (kblist c) (have_data c) (secmem c) (trace c).

Definition set_kblist (v : list PACKET) (c : CTX) : CTX :=
  mk_ctx (mfx_md c) (sigs_only c) (encrypt_only c) (dek c)
         (last_was_session_key c) v (have_data c) (secmem c) (trace c).

Definition set_have_data (v : bool) (c : CTX) : CTX :=
  mk_ctx (mfx_md c) (sigs_only c) (encrypt_only c) (dek c)
         (last_was_session_key c) (kblist c) v (secmem c) (trace c).

Definition emit (e : event) (c : CTX) : CTX :=
  mk_ctx (mfx_md c) (sigs_only c) (encrypt_only c) (dek c)
         (last_was_session_key c) (kblist c) (have_data c) (secmem c)
         (e :: trace c).

(** [c->dek = v] for a pointer to a DEK that was just allocated (or NULL). *)
Definition store_dek (v : option DEK) (c : CTX) : CTX :=
  mk_ctx (mfx_md c) (sigs_only c) (encrypt_only c) v
         (last_was_session_key c) (kblist c) (have_data c)
         (match v with Some _ => secmem c + 1 | None => secmem c end)
         (trace c).

(** [m_free(c->dek); c->dek = NULL;] *)
Definition free_dek (c : CTX) : CTX :=
  mk_ctx (mfx_md c) (sigs_only c) (encrypt_only c) None
         (last_was_session_key c) (kblist c) (have_data c)
         (match dek c with Some _ => secmem c - 1 | None => secmem c end)
         (trace c).

(** [m_free(c->dek);] with no store after it, as at the label [leave]:
    the memory is given back, the pointer stays in the context. *)
Definition m_free_dek (c : CTX) : CTX :=
  mk_ctx (mfx_md c) (sigs_only c) (encrypt_only c) (dek c)
         (last_was_session_key c) (kblist c) (have_data c)
         (match dek c with Some _ => secmem c - 1 | None => secmem c end)
         (trace c).

Definition init_ctx (sigs enc : bool) : CTX :=
  mk_ctx None sigs enc None 0 [] false 0 [].

(** [add_kbnode (root, node)] walks from the root to the last node; the
    root must not be NULL. *)
Definition add_kbnode (root : list PACKET) (node : PACKET)
  : outcome (list PACKET) :=
  match root with
  | [] => Abort
  | _ :: _ => Ok (root ++ [node])
  end.

(** The type of the root packet, [c->list->pkt->pkttype]. *)
Definition root_type (l : list PACKET) : option pkttype_t :=
  match l with
  | [] => None
  | p :: _ => Some (pkttype p)
  end.

(** ** [do_check_sig] *)

Definition do_check_sig (c : CTX) (node : PACKET) : outcome (rc_t * bool) :=
  match node with
  | Pkt_signature sig =>
      let algo := sig_digest_algo sig in
      if algo =? 0 then Ok (RC_ERR G10ERR_PUBKEY_ALGO, false)
      else
        match check_digest_algo algo with
        | RC_OK =>
            let data_md :=
              match mfx_md c with
              | Some md => md_copy md
              | None => md_open 0 0      (* detached signature *)
              end in
            if sig_class sig =? 0x00 then
              Ok (signature_check sig data_md, false)
            else if sig_class sig =? 0x01 then
              Ok (signature_check sig data_md, false)
            else if (Z.land (sig_class sig) (Z.lnot 3) =? 0x10)
                    || (sig_class sig =? 0x18)
                    || (sig_class sig =? 0x20)
                    || (sig_class sig =? 0x30) then
              match root_type (kblist c) with
              | None => Abort
              | Some t =>
                  if pkttype_eqb t PKT_PUBLIC_KEY
                     || pkttype_eqb t PKT_PUBLIC_SUBKEY
                  then Ok (check_key_signature (kblist c) node)
                  else Ok (RC_ERR G10ERR_SIG_CLASS, false)
              end
            else Ok (RC_ERR G10ERR_SIG_CLASS, false)
        | rc => Ok (rc, false)
        end
  | _ => Abort     (* assert( node->pkt->pkttype == PKT_SIGNATURE ) *)
  end.

(** ** [check_sig_and_print] and [proc_tree] *)

Definition check_sig_and_print (c : CTX) (node : PACKET) : outcome CTX :=
  if skip_verify opt then Ok c
  else
    '(rc, _) <- do_check_sig c node ;;
    match node with
    | Pkt_signature sig =>
        match rc with
        | RC_OK =>
            let c := emit ev_status_goodsig c in
            let rc := check_signatures_trust sig in
            if batch opt && negb (rc_is_ok rc) then Exit 1 else Ok c
        | RC_ERR G10ERR_BAD_SIGN =>
            let c := emit ev_status_badsig c in
            if batch opt then Exit 1 else Ok c
        | _ =>
            Ok (emit (ev_log_error msg_cant_check_signature rc)
                     (emit ev_status_errsig c))
        end
    | _ => Abort
    end.

Fixpoint check_all (c : CTX) (nodes : list PACKET) : outcome CTX :=
  match nodes with
  | [] => Ok c
  | n :: nodes' => c' <- check_sig_and_print c n ;; check_all c' nodes'
  end.

Definition sig_digest (n : PACKET) : Z :=
  match n with Pkt_signature sig => sig_digest_algo sig | _ => 0 end.

(** The detached data is hashed by [hash_datafiles] in the mode for
    signatures and asked for otherwise. *)
Definition hash_detached (c : CTX) (md : MD_HANDLE) (textmode : bool)
  : rc_t * CTX :=
  if sigs_only c then
    let '(rc, md) := hash_datafiles md textmode in (rc, set_mfx_md (Some md) c)
  else
    let '(rc, md) := ask_for_detached_datafile (Some md) in (rc, set_mfx_md md c).

Definition proc_tree (c : CTX) (node : list PACKET) : outcome CTX :=
  if list_packets opt then Ok c
  else
    match node with
    | [] => Abort
    | root :: _ =>
        match pkttype root with
        | PKT_PUBLIC_KEY | PKT_PUBLIC_SUBKEY | PKT_SECRET_KEY =>
            Ok c    (* [list_node]: the key is listed *)
        | PKT_ONEPASS_SIG =>
            let sigs := signature_nodes node in
            if negb (have_data c) then
              let md := fold_left (fun md n => md_enable md (sig_digest n))
                                  sigs (md_open 0 0) in
              (* the loop has left [n1] NULL: the text mode is 0 *)
              let '(rc, c) := hash_detached c md false in
              if negb (rc_is_ok rc)
              then Ok (emit (ev_log_error msg_cant_hash_datafile rc) c)
              else check_all c sigs
            else check_all c sigs
        | PKT_SIGNATURE =>
            match root with
            | Pkt_signature sig =>
                if negb (have_data c) then
                  let md := md_open (sig_digest_algo sig) 0 in
                  let '(rc, c) := hash_detached c md (sig_class sig =? 0x01) in
                  if negb (rc_is_ok rc)
                  then Ok (emit (ev_log_error msg_cant_hash_datafile rc) c)
                  else check_sig_and_print c root
                else check_sig_and_print c root
            | _ => Abort
            end
        | _ => Ok (emit (ev_log_error msg_invalid_root_packet RC_OK) c)
        end
    end.

Definition release_list (c : CTX) : outcome CTX :=
  match kblist c with
  | [] => Ok c
  | _ :: _ =>
      c <- proc_tree c (kblist c) ;;
      Ok (set_kblist [] c)
  end.

(** ** Adding nodes *)

(** The functions return the new context and [newpkt]. *)
Definition add_onepass_sig (c : CTX) (pkt : PACKET) : outcome (CTX * bool) :=
  match kblist c with
  | root :: _ =>      (* add another packet *)
      c <- (if negb (pkttype_eqb (pkttype root) PKT_ONEPASS_SIG)
            then release_list
                   (emit (ev_log_error msg_another_packet_in_the_way RC_OK) c)
            else Ok c) ;;
      l <- add_kbnode (kblist c) pkt ;;
      Ok (set_kblist l c, true)
  | [] =>             (* insert the first one *)
      Ok (set_kblist [pkt] c, true)
  end.

Definition add_user_id (c : CTX) (pkt : PACKET) : outcome (CTX * bool) :=
  match kblist c with
  | [] => Ok (emit (ev_log_error msg_orphaned_user_id RC_OK) c, false)
  | _ :: _ =>
      l <- add_kbnode (kblist c) pkt ;;
      Ok (set_kblist l c, true)
  end.

Definition add_subkey (c : CTX) (pkt : PACKET) : outcome (CTX * bool) :=
  match kblist c with
  | [] => Ok (emit (ev_log_error msg_subkey_without_mainkey RC_OK) c, false)
  | _ :: _ =>
      l <- add_kbnode (kblist c) pkt ;;
      Ok (set_kblist l c, true)
  end.

Definition add_signature (c : CTX) (pkt : PACKET) : outcome (CTX * bool) :=
  match kblist c with
  | [] =>
      if pkttype_eqb (pkttype pkt) PKT_SIGNATURE
      then Ok (set_kblist [pkt] c, true)   (* the first signature *)
      else Ok (c, false)                   (* oops (invalid packet sequence) *)
  | _ :: _ =>
      l <- add_kbnode (kblist c) pkt ;;
      Ok (set_kblist l c, true)
  end.

(** ** Session keys and encrypted data *)

Definition proc_symkey_enc (c : CTX) (enc : PKT_symkey_enc) : CTX :=
  if negb (ske_seskeylen enc =? 0)
  then emit (ev_log_error msg_symkey_with_session_key RC_OK) c
  else
    let c := set_last_was_session_key 2 c in
    let c := emit (ev_passphrase_to_dek (ske_cipher_algo enc) (Some (ske_s2k enc))) c in
    store_dek (passphrase_to_dek (ske_cipher_algo enc) (Some (ske_s2k enc))) c.

Definition proc_pubkey_enc (c : CTX) (enc : PKT_pubkey_enc) : CTX :=
  let c := set_last_was_session_key 1 c in
  let '(result, c) :=
    if is_ELGAMAL (pke_pubkey_algo enc)
       || (pke_pubkey_algo enc =? PUBKEY_ALGO_DSA)
       || is_RSA (pke_pubkey_algo enc)
    then
      let c := free_dek c in            (* paranoid: delete a pending DEK *)
      let '(result, key) := get_session_key enc in
      let c := store_dek (Some key) c in   (* m_alloc_secure, then filled *)
      if negb (rc_is_ok result)
      then (result, free_dek c)            (* error: delete the DEK *)
      else (result, c)
    else (RC_ERR G10ERR_PUBKEY_ALGO, c) in
  match result with
  | RC_EOF => c
  | RC_OK => c
  | RC_ERR _ => emit (ev_log_error msg_pubkey_decryption_failed result) c
  end.

Definition proc_encrypted (c : CTX) (ed : Z) : CTX :=
  let '(result, c) :=
    match dek c with
    | None =>
        if last_was_session_key c =? 0 then
          (* assume this is old conventional encrypted data *)
          let algo := if negb (def_cipher_algo opt =? 0)
                      then def_cipher_algo opt else DEFAULT_CIPHER_ALGO in
          let c := emit (ev_passphrase_to_dek algo None) c in
          (RC_OK, store_dek (passphrase_to_dek algo None) c)
        else (RC_ERR G10ERR_NO_SECKEY, c)
    | Some _ => (RC_OK, c)
    end in
  let '(result, c) :=
    if rc_is_ok result
    then (decrypt_data ed (dek c), emit (ev_decrypt_data ed (dek c)) c)
    else (result, c) in
  let c := free_dek c in
  let c :=
    match result with
    | RC_EOF => c
    | RC_OK => c
    | RC_ERR _ => emit (ev_log_error msg_decryption_failed result) c
    end in
  set_last_was_session_key 0 c.

(** ** Plaintext and compressed data *)

Definition onepass_digests (l : list PACKET) : list Z :=
  concat (map (fun n => match n with
                        | Pkt_onepass_sig ops =>
                            if negb (ops_digest_algo ops =? 0)
                            then [ops_digest_algo ops] else []
                        | _ => []
                        end) l).

Definition is_clearsig_onepass (n : PACKET) : bool :=
  match n with
  | Pkt_onepass_sig ops =>
      (ops_sig_class ops =? 0x01)
      && (fst (ops_keyid ops) =? 0) && (snd (ops_keyid ops) =? 0)
  | _ => false
  end.

Definition proc_plaintext (c : CTX) (pt : Z) : CTX :=
  let algos := onepass_digests (kblist c) in
  let clearsig := existsb is_clearsig_onepass (kblist c) in
  let algos :=
    match algos with
    | [] =>     (* no onepass sig packet: enable all standard algos *)
        [DIGEST_ALGO_RMD160; DIGEST_ALGO_SHA1; DIGEST_ALGO_MD5]
    | _ => algos
    end in
  let md := fold_left md_enable algos (md_open 0 0) in
  let '(rc, md') := handle_plaintext pt (Some md) (sigs_only c) clearsig in
  let '(rc, md') :=
    match rc with
    | RC_ERR G10ERR_CREATE_FILE =>
        if negb (sigs_only c)
        then handle_plaintext pt md' true clearsig
        else (rc, md')
    | _ => (rc, md')
    end in
  let c := set_mfx_md md' c in
  let c := if negb (rc_is_ok rc)
           then emit (ev_log_error msg_handle_plaintext_failed rc) c else c in
  set_last_was_session_key 0 c.

Definition proc_compressed (c : CTX) (zd : Z) : CTX :=
  let rc :=
    if sigs_only c then handle_compressed zd cb_proc_compressed
    else if encrypt_only c then handle_compressed zd cb_proc_encrypt
    else handle_compressed zd cb_none in
  let c := if negb (rc_is_ok rc)
           then emit (ev_log_error msg_uncompressing_failed rc) c else c in
  set_last_was_session_key 0 c.

(** ** [do_proc_packets]

    The stream is the list of what the successive calls of [parse_packet]
    return before the end of file: the return code and the packet as the
    call leaves it. *)

Definition parsed : Type := (rc_t * PACKET)%type.

Inductive pass_result : Type :=
| Continue (c : CTX)            (* on to the next [parse_packet] *)
| Break (c : CTX)               (* [break]: the loop ends, [rc = 0] *)
| Leave (rc : rc_t) (c : CTX).  (* [goto leave] *)

(** The cleanup at the head of the loop body. *)
Definition cleanup (c : CTX) (pkt : PACKET) : CTX :=
  match dek c with
  | Some _ =>
      if negb (pkttype_eqb (pkttype pkt) PKT_ENCRYPTED)
      then free_dek c      (* burn it *)
      else c
  | None => c
  end.

Definition done (c : CTX) : outcome (option CTX) := Ok (Some c).

Definition added (r : outcome (CTX * bool)) : outcome (option CTX) :=
  '(c, _) <- r ;; Ok (Some c).

(** The [switch] statements: the context after the packet is handled, or
    [None] for the [goto leave] with [G10ERR_UNEXPECTED]. *)
Definition dispatch (c : CTX) (pkt : PACKET) : outcome (option CTX) :=
  if list_packets opt then
    match pkt with
    | Pkt_pubkey_enc enc => done (proc_pubkey_enc c enc)
    | Pkt_encrypted ed => done (proc_encrypted c ed)
    | Pkt_compressed zd => done (proc_compressed c zd)
    | _ => done c
    end
  else if sigs_only c then
    match pkt with
    | Pkt_public_key _ | Pkt_secret_key _ | Pkt_user_id _
    | Pkt_symkey_enc _ | Pkt_pubkey_enc _ | Pkt_encrypted _ => Ok None
    | Pkt_signature _ => added (add_signature c pkt)
    | Pkt_plaintext pt => done (proc_plaintext c pt)
    | Pkt_compressed zd => done (proc_compressed c zd)
    | Pkt_onepass_sig _ => added (add_onepass_sig c pkt)
    | _ => done c
    end
  else if encrypt_only c then
    match pkt with
    | Pkt_public_key _ | Pkt_secret_key _ | Pkt_user_id _ => Ok None
    | Pkt_signature _ => added (add_signature c pkt)
    | Pkt_symkey_enc enc => done (proc_symkey_enc c enc)
    | Pkt_pubkey_enc enc => done (proc_pubkey_enc c enc)
    | Pkt_encrypted ed => done (proc_encrypted c ed)
    | Pkt_plaintext pt => done (proc_plaintext c pt)
    | Pkt_compressed zd => done (proc_compressed c zd)
    | Pkt_onepass_sig _ => added (add_onepass_sig c pkt)
    | _ => done c
    end
  else
    match pkt with
    | Pkt_public_key _ | Pkt_secret_key _ =>
        c <- release_list c ;;
        done (set_kblist [pkt] c)
    | Pkt_public_subkey _ | Pkt_secret_subkey _ => added (add_subkey c pkt)
    | Pkt_user_id _ => added (add_user_id c pkt)
    | Pkt_signature _ => added (add_signature c pkt)
    | Pkt_pubkey_enc enc => done (proc_pubkey_enc c enc)
    | Pkt_symkey_enc enc => done (proc_symkey_enc c enc)
    | Pkt_encrypted ed => done (proc_encrypted c ed)
    | Pkt_plaintext pt => done (proc_plaintext c pt)
    | Pkt_compressed zd => done (proc_compressed c zd)
    | Pkt_onepass_sig _ => added (add_onepass_sig c pkt)
    | _ => done c
    end.

(** One pass of the loop on a packet that [parse_packet] has returned. *)
Definition proc_packet (c : CTX) (p : parsed) : outcome pass_result :=
  let '(rc, pkt) := p in
  let c := cleanup c pkt in
  match rc with
  | RC_ERR G10ERR_INVALID_PACKET => Ok (Break c)
  | RC_ERR _ | RC_EOF => Ok (Continue c)
  | RC_OK =>
      r <- dispatch c pkt ;;
      match r with
      | None => Ok (Leave (RC_ERR G10ERR_UNEXPECTED) c)
      | Some c =>
          Ok (Continue
                (if negb (pkttype_eqb (pkttype pkt) PKT_SIGNATURE)
                 then set_have_data (pkttype_eqb (pkttype pkt) PKT_PLAINTEXT) c
                 else c))
      end
  end.

(** The loop [while( (rc=parse_packet(a, pkt)) != -1 )]: the return code at
    the label [leave], the context there, and the packets not read. *)
Fixpoint proc_loop (c : CTX) (a : list parsed)
  : outcome (rc_t * CTX * list parsed) :=
  match a with
  | [] => Ok (RC_OK, c, [])
  | p :: a' =>
      if rc_is_eof (fst p) then Ok (RC_OK, c, a')
      else
        r <- proc_packet c p ;;
        match r with
        | Continue c' => proc_loop c' a'
        | Break c' => Ok (RC_OK, c', a')
        | Leave rc c' => Ok (rc, c', a')
        end
  end.

Definition do_proc_packets (c : CTX) (a : list parsed)
  : outcome (rc_t * CTX * list parsed) :=
  '(rc, c, a) <- proc_loop c a ;;
  c <- release_list c ;;
  let c := m_free_dek c in           (* the pointer is not cleared *)
  let c := set_mfx_md None c in      (* free_md_filter_context *)
  Ok (rc, c, a).

Definition proc_packets (a : list parsed) :=
  do_proc_packets (init_ctx false false) a.

Definition proc_signature_packets (a : list parsed) :=
  do_proc_packets (init_ctx true false) a.

Definition proc_encryption_packets (a : list parsed) :=
  do_proc_packets (init_ctx false true) a.

(** The contexts that the loop passes through at its head while it reads
    the packets of [a]. *)
Fixpoint run (c : CTX) (a : list parsed) : outcome pass_result :=
  match a with
  | [] => Ok (Continue c)
  | p :: a' =>
      if rc_is_eof (fst p) then Ok (Break c)
      else
        r <- proc_packet c p ;;
        match r with
        | Continue c' => run c' a'
        | other => Ok other
        end
  end.

(** *** The invariants of the list and of the DEK *)

(** The packets that the dispatch appends to an open list. *)
Definition appendable (t : pkttype_t) : bool :=
  match t with
  | PKT_ONEPASS_SIG | PKT_SIGNATURE | PKT_USER_ID
  | PKT_PUBLIC_SUBKEY | PKT_SECRET_SUBKEY => true
  | _ => false
  end.

(** A list with a one-pass signature at its root holds, after the root,
    packets of these types only. *)
Definition onepass_list_ok (l : list PACKET) : Prop :=
  root_type l = Some PKT_ONEPASS_SIG ->
  Forall (fun p => appendable (pkttype p) = true) (tl l).

(** The packet is a session-key packet from which a DEK is obtained. *)
Definition acquires (pkt : PACKET) : Prop :=
  match pkt with
  | Pkt_pubkey_enc enc =>
      (is_ELGAMAL (pke_pubkey_algo enc)
       || (pke_pubkey_algo enc =? PUBKEY_ALGO_DSA)
       || is_RSA (pke_pubkey_algo enc)) = true
      /\ fst (get_session_key enc) = RC_OK
  | Pkt_symkey_enc enc =>
      ske_seskeylen enc = 0
      /\ passphrase_to_dek (ske_cipher_algo enc) (Some (ske_s2k enc)) <> None
  | _ => False
  end.

(** As many DEKs are allocated as the context holds: one or none. *)
Definition dek_accounted (c : CTX) : Prop :=
  secmem c = match dek c with Some _ => 1 | None => 0 end.

(** The packets that end a run in the mode for signatures ([sigs] true)
    and in the mode for encryption, with [G10ERR_UNEXPECTED]. *)
Definition rejected (sigs : bool) (t : pkttype_t) : bool :=
  match t with
  | PKT_PUBLIC_KEY | PKT_SECRET_KEY | PKT_USER_ID => true
  | PKT_SYMKEY_ENC | PKT_PUBKEY_ENC | PKT_ENCRYPTED => sigs
  | _ => false
  end.

Definition is_subkey (t : pkttype_t) : bool :=
  match t with
  | PKT_PUBLIC_SUBKEY | PKT_SECRET_SUBKEY => true
  | _ => false
  end.

(** A failed parse that leaves a held DEK in place: the packet structure
    says Encrypted. *)
Definition failed_encrypted (p : parsed) : Prop :=
  fst p <> RC_OK /\ pkttype (snd p) = PKT_ENCRYPTED.

(** The context of a pass result. *)
Definition ctx_of (r : pass_result) : CTX :=
  match r with
  | Continue c | Break c | Leave _ c => c
  end.

(** ** Relations between the context before and after a step *)

(** The fields that only the dispatch itself writes. *)
Definition same_core (c c' : CTX) : Prop :=
  sigs_only c' = sigs_only c
  /\ encrypt_only c' = encrypt_only c
  /\ dek c' = dek c
  /\ secmem c' = secmem c
  /\ kblist c' = kblist c
  /\ last_was_session_key c' = last_was_session_key c
  /\ have_data c' = have_data c.

(** What a dispatch may do to the list, while the modes and the DEK stay
    as they are. *)
Definition list_step (c c' : CTX) (pkt : PACKET) : Prop :=
  sigs_only c' = sigs_only c
  /\ encrypt_only c' = encrypt_only c
  /\ dek c' = dek c
  /\ secmem c' = secmem c
  /\ (kblist c' = kblist c
      \/ (kblist c <> [] /\ kblist c' = kblist c ++ [pkt])
      \/ kblist c' = [pkt]).

(** Plaintext and compressed packets leave the modes, the DEK and the list
    as they are. *)
Definition keeps (c c1 : CTX) : Prop :=
  sigs_only c1 = sigs_only c
  /\ encrypt_only c1 = encrypt_only c
  /\ dek c1 = dek c
  /\ secmem c1 = secmem c
  /\ kblist c1 = kblist c.

(** The modes never change, and the list changes by one of three moves:
    it stays, a packet of an appendable type is put at its end, or it is
    replaced by the packet alone. *)
Definition list_move (c c' : CTX) (pkt : PACKET) : Prop :=
  sigs_only c' = sigs_only c
  /\ encrypt_only c' = encrypt_only c
  /\ (kblist c' = kblist c
      \/ (kblist c <> [] /\ kblist c' = kblist c ++ [pkt]
          /\ appendable (pkttype pkt) = true)
      \/ kblist c' = [pkt]).

(** The handlers of the packets that are not put on the list leave the
    list and the modes alone. *)
Definition same_list (c c1 : CTX) : Prop :=
  sigs_only c1 = sigs_only c
  /\ encrypt_only c1 = encrypt_only c
  /\ kblist c1 = kblist c.

(** What holds of the DEK after the packet [pkt] is handled. *)
Definition dek_after (c' : CTX) (pkt : PACKET) : Prop :=
  dek_accounted c'
  /\ (dek c' <> None -> acquires pkt)
  /\ (pkttype pkt = PKT_ENCRYPTED -> dek c' = None).

End Sequencer.

(** *** Sample collaborators

    Simple stand-ins: digests are the lists of their algorithms, a DEK is
    a number, every key can be obtained and every check succeeds. *)
Definition sample_collaborators : Collaborators := {|
  DEK := Z;
  MD_HANDLE := list Z;
  opt := mk_options false false false 0;
  is_ELGAMAL := fun a => (a =? 16) || (a =? 20);
  is_RSA := fun a => (a =? 1) || (a =? 2) || (a =? 3);
  PUBKEY_ALGO_DSA := 17;
  DEFAULT_CIPHER_ALGO := 4;
  DIGEST_ALGO_RMD160 := 3;
  DIGEST_ALGO_SHA1 := 2;
  DIGEST_ALGO_MD5 := 1;
  md_open := fun algo _ => if algo =? 0 then [] else [algo];
  md_enable := fun md algo => md ++ [algo];
  md_copy := fun md => md;
  get_session_key := fun enc => (RC_OK, fst (pke_keyid enc));
  passphrase_to_dek := fun algo _ => Some algo;
  decrypt_data := fun _ _ => RC_OK;
  handle_plaintext := fun _ md _ _ => (RC_OK, md);
  handle_compressed := fun _ _ => RC_OK;
  hash_datafiles := fun md _ => (RC_OK, md);
  ask_for_detached_datafile := fun md => (RC_OK, md);
  check_digest_algo := fun algo =>
    if (algo =? 1) || (algo =? 2) || (algo =? 3)
    then RC_OK else RC_ERR G10ERR_DIGEST_ALGO;
  signature_check := fun _ _ => RC_OK;
  check_key_signature := fun _ _ => (RC_OK, false);
  check_signatures_trust := fun _ => RC_OK;
  signature_nodes := fun l =>
    filter (fun p => pkttype_eqb (pkttype p) PKT_SIGNATURE) (tl l)
|}.

Definition sample_onepass : PACKET :=
  Pkt_onepass_sig (mk_onepass_sig (0, 0) 0x01 2).

Definition sample_signature (class : Z) : PACKET :=
  Pkt_signature (mk_signature (0x1234, 0x5678) class 2).

Definition sample_user_id : PACKET := Pkt_user_id 0.

Definition sample_public_key : PACKET := Pkt_public_key 0.

Definition sample_pubkey_enc : PACKET :=
  Pkt_pubkey_enc (mk_pubkey_enc (7, 7) 16).

(** The context of the full mode with a public key at the root of the
    list. *)
Definition ctx_with_key : CTX (X := sample_collaborators) :=
  mk_ctx None false false None 0
         [sample_public_key; sample_user_id; sample_signature 0x14]
         false 0 [].

(** The context of the mode for signatures once a signature is read. *)
Definition ctx_sigs_one : CTX (X := sample_collaborators) :=
  mk_ctx None true false None 0 [sample_signature 0] false 0 [].

(** The context of the full mode once a PubkeyEnc packet has given its
    key. *)
Definition ctx_with_dek : CTX (X := sample_collaborators) :=
  mk_ctx (X := sample_collaborators) None false false (Some 7) 1 [] false 1 [].

End Mainproc.

(** * The list of qualified certificates (sm/qualified.c) *)

Module Qualified.

(** The error codes of libgpg-error that the unit uses. *)
Inductive gpg_err_code_t : Type :=
| GPG_ERR_NO_ERROR
| GPG_ERR_GENERAL
| GPG_ERR_EOF
| GPG_ERR_NOT_FOUND
| GPG_ERR_LINE_TOO_LONG
| GPG_ERR_INCOMPLETE_LINE
| GPG_ERR_BAD_DATA
| GPG_ERR_from_errno (errno : Z).

(** The file [qualified.txt] as [fopen] finds it. *)
Inductive list_file : Type :=
| file_missing                  (* ENOENT *)
| file_unreadable (errno : Z)   (* any other error of [fopen] *)
| file_present (content : list Z).

(** The static variables of the unit: whether [listname] is set, and the
    bytes of [listfp] that are not read yet ([None] is the NULL pointer). *)
Record module_state : Type := mk_state {
  listname : bool;
  listfp : option (list Z)
}.

(** How a call ends: it returns, or it has stored a byte behind the end of
    the object that its pointer belongs to, from where on the C program
    has no defined behaviour. *)
Inductive defined (A : Type) : Type :=
| Returns (a : A)
| Undefined.

Arguments Returns {A} a.
Arguments Undefined {A}.

(** Modelled from the spec: the macros [spacep] and [hexdigitp] belong to
    [util.h], which is not among the sources; a space is a blank or a tab,
    a hex digit is one of 0-9, A-F, a-f (the 40-hex-digit fingerprint of
    the claim, with lowercased digits). *)
Definition spacep (c : Z) : bool := (c =? ch " ") || (c =? TAB).

Definition hexdigitp (c : Z) : bool :=
  ((ch "0" <=? c) && (c <=? ch "9"))
  || ((ch "A" <=? c) && (c <=? ch "F"))
  || ((ch "a" <=? c) && (c <=? ch "f")).

(** [fgets (line, size, fp)] reads at most [size - 1] bytes and stops after
    a newline. *)
Fixpoint fgets_take (n : nat) (s : list Z) : list Z * list Z :=
  match n, s with
  | O, _ => ([], s)
  | _, [] => ([], [])
  | S n', c :: s' =>
      if c =? LF then ([c], s')
      else let '(l, r) := fgets_take n' s' in (c :: l, r)
  end.

Definition fgets (size : nat) (s : list Z) : option (list Z * list Z) :=
  match s with
  | [] => None      (* end of file, nothing read *)
  | _ :: _ => Some (fgets_take (size - 1) s)
  end.

(** [while ( (c=getc (listfp)) != EOF && c != '\n') ;] *)
Fixpoint eat_line (s : list Z) : list Z :=
  match s with
  | [] => []
  | c :: s' => if c =? LF then s' else eat_line s'
  end.

Fixpoint skip_spaces (p : list Z) : list Z :=
  match p with
  | c :: p' => if spacep c then skip_spaces p' else p
  | [] => []
  end.

(** The loop over the fingerprint: the key gathered so far, the count [j]
    of its digits and the text from [p + i] on. *)
Fixpoint scan_fingerprint (p : list Z) (j : nat) (key : list Z)
  : list Z * nat * list Z :=
  match p with
  | c :: p' =>
      if ((c =? ch ":") || hexdigitp c) && (j <? 40)%nat then
        if negb (c =? ch ":")
        then scan_fingerprint p' (S j)
               (key ++ [if ch "a" <=? c then Z.land c 0xdf else c])
        else scan_fingerprint p' j key
      else (key, j, p)
  | [] => (key, j, [])
  end.

Definition lower (c : Z) : bool := (ch "a" <=? c) && (c <=? ch "z").

(** What one line of the file is to [read_list]. *)
Inductive line_class : Type :=
| Skip                               (* an empty line or a comment *)
| Entry (key country : list Z)       (* a valid entry *)
| Bad (e : gpg_err_code_t).

(** The part of [read_list] after the line is known to be complete and
    not to be skipped; [p] is the C string behind the leading spaces. *)
Definition parse_entry (p : list Z) : line_class :=
  let '(key, j, rest) := scan_fingerprint p 0 [] in
  if negb (j =? 40)%nat || negb (spacep (at_ rest 0) || (at_ rest 0 =? LF))
  then Bad GPG_ERR_BAD_DATA   (* invalid formatted fingerprint *)
  else
    let rest := skip_spaces (tl rest) in
    if lower (at_ rest 0) && lower (at_ rest 1)
       && (spacep (at_ rest 2) || (at_ rest 2 =? LF))
    then Entry key [at_ rest 0; at_ rest 1]
    else Bad GPG_ERR_BAD_DATA.  (* invalid country code *)

(** One line as [fgets] has stored it. *)
Definition parse_line (chunk : list Z) : line_class :=
  let line := cstr chunk in
  if match line with [] => true | _ :: _ => false end
     || negb (last line NUL =? LF)
  then Bad (match line with
            | _ :: _ => GPG_ERR_LINE_TOO_LONG
            | [] => GPG_ERR_INCOMPLETE_LINE
            end)
  else
    let p := skip_spaces line in
    if match p with [] => true | c :: _ => (c =? LF) || (c =? ch "#") end
    then Skip
    else parse_entry p.

(** What a call of [read_list] leaves: its code, the line counter and
    the unread bytes of the file; [rd_key] and [rd_country] are the
    strings in the two buffers when the code is 0, the one case in which
    the caller reads them (they are left empty here otherwise). *)
Record read_result : Type := mk_read {
  rd_err : gpg_err_code_t;
  rd_key : list Z;
  rd_country : list Z;
  rd_lnr : Z;
  rd_rest : list Z
}.

(** The [do ... while] loop of [read_list] on the unread bytes [s]; [None]
    when the fuel runs out. *)
Fixpoint read_lines (fuel : nat) (s : list Z) (lnr : Z) : option read_result :=
  match fuel with
  | O => None
  | S fuel' =>
      match fgets 255 s with
      | None => Some (mk_read GPG_ERR_EOF [] [] lnr s)
      | Some (chunk, s') =>
          match parse_line chunk with
          | Bad GPG_ERR_LINE_TOO_LONG =>
              Some (mk_read GPG_ERR_LINE_TOO_LONG [] [] lnr (eat_line s'))
          | Bad GPG_ERR_INCOMPLETE_LINE =>
              Some (mk_read GPG_ERR_INCOMPLETE_LINE [] [] lnr (eat_line s'))
          | Bad e => Some (mk_read e [] [] (lnr + 1) s')
          | Skip => read_lines fuel' s' (lnr + 1)
          | Entry key country =>
              Some (mk_read GPG_ERR_NO_ERROR key country (lnr + 1) s')
          end
      end
  end.

(** [read_list]: the file is opened at the first call.  [country_size]
    is the size of the object that the argument [country] points to: the
    function stores [country[0]] when it starts, and [country[0]],
    [country[1]] and [country[2]] for a valid entry (its comment asks for
    a buffer of at least 3 characters).  The stores to [key] go to
    [key[0 .. 40]]; the one caller has 41 bytes there. *)
Definition read_list (fs : list_file) (st : module_state) (country_size : nat)
  (lnr : Z) : option (defined (read_result * module_state)) :=
  if (country_size <? 1)%nat then Some Undefined     (* *country = 0 *)
  else
  let opened :=
    if listname st then inl st
    else
      match fs with
      | file_present content => inl (mk_state true (Some content))
      | file_missing => inl (mk_state true None)
      | file_unreadable errno => inr errno
      end in
  match opened with
  | inr errno =>
      Some (Returns (mk_read (GPG_ERR_from_errno errno) [] [] lnr [],
                     mk_state true None))
  | inl st =>
      match listfp st with
      | None => Some (Returns (mk_read GPG_ERR_EOF [] [] lnr [], st))
      | Some s =>
          match read_lines (S (length s)) s lnr with
          | None => None
          | Some r =>
              let st' := mk_state (listname st) (Some (rd_rest r)) in
              match rd_err r with
              | GPG_ERR_NO_ERROR =>
                  if (country_size <? 3)%nat
                  then Some Undefined                 (* country[2] = 0 *)
                  else Some (Returns (r, st'))
              | _ => Some (Returns (r, st'))
              end
          end
      end
  end.

(** The loop [while (!(err = read_list (key, country, &lnr)))] of
    [gpgsm_is_in_qualified_list]; the buffers are the locals
    [char key[41]] and [char country[2]] of that function. *)
Fixpoint lookup_loop (fuel : nat) (fs : list_file) (st : module_state)
  (lnr : Z) (fpr : list Z)
  : option (defined (gpg_err_code_t * module_state)) :=
  match fuel with
  | O => None
  | S fuel' =>
      match read_list fs st 2 lnr with
      | None => None
      | Some Undefined => Some Undefined
      | Some (Returns (r, st')) =>
          match rd_err r with
          | GPG_ERR_NO_ERROR =>
              if list_eqb (rd_key r) (cstr fpr)      (* !strcmp (key, fpr) *)
              then Some (Returns (GPG_ERR_NO_ERROR, st'))
              else lookup_loop fuel' fs st' (rd_lnr r) fpr
          | e => Some (Returns (e, st'))
          end
      end
  end.

(** [gpgsm_is_in_qualified_list]; [fpr] is what
    [gpgsm_get_fingerprint_hexstring] returns for the certificate. *)
Definition gpgsm_is_in_qualified_list (fs : list_file) (st : module_state)
  (fpr : option (list Z))
  : option (defined (gpg_err_code_t * module_state)) :=
  match fpr with
  | None => Some (Returns (GPG_ERR_GENERAL, st))
  | Some fpr =>
      let st :=
        match listfp st, fs with
        | Some _, file_present content =>
            mk_state (listname st) (Some content)     (* rewind *)
        | _, _ => st
        end in
      let fuel := match fs with
                  | file_present content => S (S (length content))
                  | _ => 2%nat
                  end in
      match lookup_loop fuel fs st 0 fpr with
      | None => None
      | Some Undefined => Some Undefined
      | Some (Returns (GPG_ERR_EOF, st')) =>
          Some (Returns (GPG_ERR_NOT_FOUND, st'))
      | Some (Returns r) => Some (Returns r)
      end
  end.

(** *** The list as a sequence of lines, in the words of the claim *)

(** The lines of a file as successive calls of [fgets] deliver them. *)
Fixpoint chunks (fuel : nat) (s : list Z) : list (list Z) :=
  match fuel with
  | O => []
  | S fuel' =>
      match fgets 255 s with
      | None => []
      | Some (chunk, s') => chunk :: chunks fuel' s'
      end
  end.

Definition file_lines (s : list Z) : list (list Z) := chunks (length s) s.

(** A line that [fgets] delivers whole: at most 254 bytes, the newline at
    its end and nowhere else. *)
Definition whole_line (l : list Z) : Prop :=
  exists body, l = body ++ [LF] /\ Forall (fun c => c <> LF) body
               /\ (length body <= 253)%nat.

(** A well-formed entry in the words of the claim: a fingerprint of 40
    hex digits, with colons that are skipped and lower-case digits that
    count as upper case, then a blank, a country code of two lower-case
    letters and the end of the line.  Blanks may come first. *)
Definition upcase (c : Z) : Z := if lower c then c - 32 else c.

Fixpoint fingerprint_of (text : list Z) : list Z :=
  match text with
  | [] => []
  | c :: text' =>
      if c =? ch ":" then fingerprint_of text'
      else upcase c :: fingerprint_of text'
  end.

Definition fingerprint_text (text : list Z) : bool :=
  forallb (fun c => (c =? ch ":") || hexdigitp c) text
  && (length (fingerprint_of text) =? 40)%nat
  && hexdigitp (last text NUL).

Definition country_code (country : list Z) : bool :=
  match country with
  | [a; b] => lower a && lower b
  | _ => false
  end.

Definition entry_line (indent : nat) (text country : list Z) : list Z :=
  repeat SP indent ++ text ++ [SP] ++ country ++ [LF].

(** The search for a fingerprint: the first matching entry gives success,
    the first bad line its error, the end of the list NotFound. *)
Fixpoint search (fpr : list Z) (lines : list (list Z)) : gpg_err_code_t :=
  match lines with
  | [] => GPG_ERR_NOT_FOUND
  | l :: lines' =>
      match parse_line l with
      | Skip => search fpr lines'
      | Entry key _ =>
          if list_eqb key fpr then GPG_ERR_NO_ERROR else search fpr lines'
      | Bad e => e
      end
  end.

(** A line that lets the search go on. *)
Definition passes (fpr : list Z) (l : list Z) : Prop :=
  match parse_line l with
  | Skip => True
  | Entry key _ => key <> fpr
  | Bad _ => False
  end.

Definition matches (fpr : list Z) (l : list Z) : Prop :=
  exists country, parse_line l = Entry fpr country.

Definition fresh_state : module_state := mk_state false None.

(** The module is not initialized yet, or the list is open. *)
Definition list_usable (st : module_state) : Prop :=
  st = fresh_state \/ (listname st = true /\ exists s, listfp st = Some s).

(** What the caller gets for the code that the loop ends with. *)
Definition final_code (e : gpg_err_code_t) : gpg_err_code_t :=
  match e with
  | GPG_ERR_EOF => GPG_ERR_NOT_FOUND
  | _ => e
  end.

Definition sample_fingerprint : list Z :=
  bytes "0123456789ABCDEF0123456789ABCDEF01234567".

Definition sample_list : list Z :=
  bytes "# qualified roots" ++ [LF]
  ++ bytes "  01:23:45:67:89:ab:cd:ef:01:23:45:67:89:AB:CD:EF:01:23:45:67 de" ++ [LF].

Definition skipped (l : list Z) : Prop := parse_line l = Skip.

(** What the first line that is not skipped makes of a lookup: at a
    valid entry [read_list] stores [country[2]], which the caller's
    buffer does not have. *)
Fixpoint lookup_outcome (lines : list (list Z)) : defined gpg_err_code_t :=
  match lines with
  | [] => Returns GPG_ERR_NOT_FOUND
  | l :: lines' =>
      match parse_line l with
      | Skip => lookup_outcome lines'
      | Entry _ _ => Undefined
      | Bad e => Returns e
      end
  end.

(** What one call of [read_list] does on the unread bytes [s]. *)
Definition read_outcome (s : list Z) (r : read_result) : Prop :=
  match rd_err r with
  | GPG_ERR_NO_ERROR =>
      (length (rd_rest r) < length s)%nat
      /\ exists pre l country,
           file_lines s = pre ++ l :: file_lines (rd_rest r)
           /\ Forall skipped pre
           /\ parse_line l = Entry (rd_key r) country
  | GPG_ERR_EOF => Forall skipped (file_lines s)
  | e =>
      exists pre l post,
        file_lines s = pre ++ l :: post
        /\ Forall skipped pre /\ parse_line l = Bad e
  end.

End Qualified.

(** * The output side of the armor filter (armor.c) *)

Module ArmorWriter.
Import Armor.

Definition tail_strings : list (list Z) :=
  [ bytes "END PGP MESSAGE";
    bytes "END PGP PUBLIC KEY BLOCK";
    bytes "END PGP SIGNATURE";
    bytes "END dummy";
    bytes "END PGP ARMORED FILE";
    bytes "END PGP PRIVATE KEY BLOCK";
    bytes "END PGP SECRET KEY BLOCK" ].

(** The fields of [armor_filter_context_t] that the output side reads or
    writes.  [radbuf] holds the bytes [radbuf[0 .. idx)] that wait for
    their group to be complete, so that [idx] is its length; the entries
    from [idx] on are written before they are read. *)
Record armor_filter_context_t : Type := mk_afx {
  what : Z;
  hdrlines : option (list Z);
  status : Z;
  radbuf : list Z;
  idx2 : Z;
  crc : Z
}.

Definition idx (afx : armor_filter_context_t) : Z := zlen (radbuf afx).

(** [bintoasc[i]]. *)
Definition bintoasc_at (i : Z) : Z := nth (Z.to_nat i) bintoasc NUL.

(** The four characters written for three bytes; the masks are 077, 060,
    017, 074 and 03 of the source. *)
Definition encode_group (r0 r1 r2 : Z) : list Z :=
  [ bintoasc_at (Z.land (Z.shiftr r0 2) 0x3f);
    bintoasc_at (Z.land (Z.lor (Z.land (Z.shiftl r0 4) 0x30)
                               (Z.land (Z.shiftr r1 4) 0x0f)) 0x3f);
    bintoasc_at (Z.land (Z.lor (Z.land (Z.shiftl r1 2) 0x3c)
                               (Z.land (Z.shiftr r2 6) 0x03)) 0x3f);
    bintoasc_at (Z.land r2 0x3f) ].

(** [if( ++idx2 >= (64/4) ) { iobuf_put(a, '\n'); idx2=0; }]: the bytes
    written and the new [idx2]. *)
Definition end_group (idx2 : Z) : list Z * Z :=
  if 16 <=? idx2 + 1 then ([LF], 0) else ([], idx2 + 1).

(** The loop [for( ; size; buf++, size-- )] of the flush: the bytes
    written, and [radbuf] and [idx2] when the buffer is used up. *)
Fixpoint encode_loop (buf : list Z) (radbuf : list Z) (idx2 : Z)
  : list Z * list Z * Z :=
  match buf with
  | [] => ([], radbuf, idx2)
  | b :: buf' =>
      let radbuf := radbuf ++ [b] in
      if 2 <? zlen radbuf then
        let '(nl, idx2) := end_group idx2 in
        let '(out, radbuf', idx2') := encode_loop buf' [] idx2 in
        (encode_group (nth 0 radbuf 0) (nth 1 radbuf 0) (nth 2 radbuf 0)
           ++ nl ++ out, radbuf', idx2')
      else encode_loop buf' radbuf idx2
  end.

Section Writer.

(** [VERSION] and [PRINTABLE_OS_NAME] come from [config.h], the comment
    from [opt.comment_string]. *)
Variables VERSION PRINTABLE_OS_NAME : list Z.
Variable comment_string : option (list Z).

(** The loop that writes the comment: line ends and vertical tabs are
    written as a backslash and a letter. *)
Fixpoint write_comment (s : list Z) : list Z :=
  match s with
  | [] => []
  | c :: s' =>
      (if c =? LF then bytes "\n"
       else if c =? CR then bytes "\r"
       else if c =? 11 then bytes "\v"
       else [c]) ++ write_comment s'
  end.

(** The header lines that the first flush writes.  An index outside the
    table is a [log_bug]; the last entry of the table is NULL. *)
Definition write_header (afx : armor_filter_context_t) : outcome (list Z) :=
  if (what afx <? 0) || (8 <=? what afx) then Abort
  else
    match nth_error head_strings (Z.to_nat (what afx)) with
    | None => Abort
    | Some s =>
        Ok (bytes "-----" ++ s ++ bytes "-----" ++ [LF]
            ++ bytes "Version: GnuPG v" ++ VERSION ++ bytes " ("
            ++ PRINTABLE_OS_NAME ++ bytes ")" ++ [LF]
            ++ match comment_string with
               | Some s =>
                   bytes "Comment: " ++ write_comment (cstr s) ++ [LF]
               | None =>
                   bytes "Comment: For info see http://www.gnupg.org" ++ [LF]
               end
            ++ match hdrlines afx with
               | Some h => cstr h
               | None => []
               end
            ++ [LF])
    end.

(** [armor_filter] with [control == IOBUFCTRL_FLUSH] on the [size] bytes
    of [buf]: the new context and the bytes written to the stream. *)
Definition armor_flush (afx : armor_filter_context_t) (buf : list Z)
  : outcome (armor_filter_context_t * list Z) :=
  '(afx, hdr) <-
    (if status afx =? 0 then
       hdr <- write_header afx ;;
       Ok (mk_afx (what afx) (hdrlines afx) (status afx + 1) [] 0 CRCINIT, hdr)
     else Ok (afx, [])) ;;
  let crc := crc_update (crc afx) buf in
  let '(out, radbuf, idx2) := encode_loop buf (radbuf afx) (idx2 afx) in
  Ok (mk_afx (what afx) (hdrlines afx) (status afx) radbuf idx2 crc,
      hdr ++ out).

(** The pad group of the last one or two bytes. *)
Definition encode_pad (radbuf : list Z) : list Z :=
  match radbuf with
  | [] => []
  | [r0] =>
      [ bintoasc_at (Z.land (Z.shiftr r0 2) 0x3f);
        bintoasc_at (Z.land (Z.land (Z.shiftl r0 4) 0x30) 0x3f);
        ch "="; ch "=" ]
  | r0 :: r1 :: _ =>
      [ bintoasc_at (Z.land (Z.shiftr r0 2) 0x3f);
        bintoasc_at (Z.land (Z.lor (Z.land (Z.shiftl r0 4) 0x30)
                                   (Z.land (Z.shiftr r1 4) 0x0f)) 0x3f);
        bintoasc_at (Z.land (Z.land (Z.shiftl r1 2) 0x3c) 0x3f);
        ch "=" ]
  end.

(** The checksum line: [=] and the three bytes of the CRC as one group. *)
Definition encode_crc (crc : Z) : list Z :=
  ch "=" :: encode_group (to_byte (Z.shiftr crc 16))
                         (to_byte (Z.shiftr crc 8))
                         (to_byte crc)
  ++ [LF].

(** [armor_filter] with [control == IOBUFCTRL_FREE]: the bytes written
    (pad, checksum and bottom line), and whether the message [no valid
    OpenPGP data found] is logged; [any_data] and [inp_bypass] are the
    fields of the input side. *)
Definition armor_free (afx : armor_filter_context_t) (any_data inp_bypass : Z)
  : outcome (list Z * bool) :=
  if negb (status afx =? 0) then
    let '(pad, idx2) :=
      match radbuf afx with
      | [] => ([], idx2 afx)
      | _ :: _ =>
          let '(nl, idx2) := end_group (idx2 afx) in
          (encode_pad (radbuf afx) ++ nl, idx2)
      end in
    if (what afx <? 0) || (8 <=? what afx) then Abort
    else
      match nth_error tail_strings (Z.to_nat (what afx)) with
      | None => Abort
      | Some s =>
          Ok (pad
              ++ (if negb (idx2 =? 0) then [LF] else [])  (* may need a linefeed *)
              ++ encode_crc (crc afx)
              ++ bytes "-----" ++ s ++ bytes "-----" ++ [LF], false)
      end
  else Ok ([], (any_data =? 0) && (inp_bypass =? 0)).

End Writer.

(** A context as the caller sets it up for writing. *)
Definition afx_new (what : Z) (hdrlines : option (list Z))
  : armor_filter_context_t :=
  mk_afx what hdrlines 0 [] 0 0.

(** The flushes of the buffers [chunks] one after the other, and the
    bytes written by all of them. *)
Fixpoint armor_write (VERSION PRINTABLE_OS_NAME : list Z)
  (comment_string : option (list Z))
  (afx : armor_filter_context_t) (chunks : list (list Z))
  : outcome (armor_filter_context_t * list Z) :=
  match chunks with
  | [] => Ok (afx, [])
  | buf :: chunks' =>
      '(afx, out) <-
        armor_flush VERSION PRINTABLE_OS_NAME comment_string afx buf ;;
      '(afx, out') <-
        armor_write VERSION PRINTABLE_OS_NAME comment_string afx chunks' ;;
      Ok (afx, out ++ out')
  end.

Definition is_byte (b : Z) : Prop := 0 <= b < 256.

(** The bytes that the decoding loop passes over: line ends and blanks,
    and every byte that is neither the pad character nor in the alphabet. *)
Definition radix_skipped (c : Z) : bool :=
  is_radix_space c || (negb (c =? ch "=") && (asctobin c =? 255)).

(** [radix64_read] from the point where the decoding loop is over and the
    context holds the new [crc], [idx] and [radbuf[0]]: the block
    [if( checkcrc )], then the test [if( !n )]. *)
Definition radix_verdict (afx : Armor.armor_filter_context_t) (b : radix_body)
  : rc_t * Armor.armor_filter_context_t * list Z :=
  if rb_checkcrc b then
    let afx := set_faked 0 (set_inp_checked 0 (set_any_data 1 afx)) in
    match skip_pad (rb_rest b) with
    | (None, a) => (RC_OK, afx, a)
    | (Some c, a) =>
        let '(c, idx, mycrc, a) := crc_loop 4 0 c a (rb_val b) 0 in
        match c with
        | None => (RC_ERR G10ERR_INVALID_ARMOR, afx, a)
        | Some _ =>
            if negb (idx =? 4)
            then (RC_ERR G10ERR_INVALID_ARMOR, afx, a)
            else if negb (mycrc =? Armor.crc afx)
            then (RC_ERR G10ERR_INVALID_ARMOR, afx, a)
            else (RC_OK, afx, a)
        end
    end
  else (RC_OK, afx, rb_rest b).

Definition radix_finish (afx : Armor.armor_filter_context_t) (b : radix_body)
  : radix_result :=
  let '(rc, afx, a) := radix_verdict afx b in
  let rc := match rb_buf b with [] => RC_EOF | _ :: _ => rc end in
  mk_radix_result rc (rb_buf b) afx a.

(** The result of a decoding loop behind the bytes [pre] of an earlier
    one. *)
Definition radix_after (pre : list Z) (b : radix_body) : radix_body :=
  mk_radix_body (pre ++ rb_buf b) (rb_idx b) (rb_val b) (rb_checkcrc b)
                (rb_rest b).

End ArmorWriter.

(** * The input side of the armor filter: detection and headers (armor.c) *)

Module ArmorInput.
Import Armor.

Definition set_inp_bypass (v : Z) (x : armor_filter_context_t) :=
  mk_afx (only_keyblocks x) (inp_checked x) v (in_cleartext x)
    (not_dash_escaped x) (hashes x) (faked x) (truncated x) (buffer x)
    (buffer_pos x) (radbuf0 x) (idx x) (crc x) (any_data x) (empty x).

Section Detect.

(** The packet types that [is_armored] names; their values come from
    [packet.h], which is not among the sources. *)
Variables PKT_MARKER PKT_SYMKEY_ENC PKT_PUBLIC_KEY PKT_SECRET_KEY
          PKT_PUBKEY_ENC PKT_SIGNATURE PKT_COMMENT PKT_OLD_COMMENT
          PKT_PLAINTEXT PKT_COMPRESSED PKT_ENCRYPTED : Z.

(** The cases of the [switch] that return 0. *)
Definition regular_packet (pkttype : Z) : bool :=
  existsb (Z.eqb pkttype)
    [ PKT_MARKER; PKT_SYMKEY_ENC; PKT_PUBLIC_KEY; PKT_SECRET_KEY;
      PKT_PUBKEY_ENC; PKT_SIGNATURE; PKT_COMMENT; PKT_OLD_COMMENT;
      PKT_PLAINTEXT; PKT_COMPRESSED; PKT_ENCRYPTED ].

(** [is_armored (buf)]: true when the data seems to be armored. *)
Definition is_armored (buf : list Z) : bool :=
  let ctb := at_ buf 0 in
  if Z.land ctb 0x80 =? 0 then true    (* invalid packet: assume it is armored *)
  else
    let pkttype :=
      if negb (Z.land ctb 0x40 =? 0) then Z.land ctb 0x3f
      else Z.land (Z.shiftr ctb 2) 0xf in
    negb (regular_packet pkttype).

(** What [iobuf_peek (a, buf, 1)] returns: -1 at the end of the file, 0
    when nothing can be looked at, or one byte. *)
Inductive peeked : Type :=
| peek_eof
| peek_nothing
| peek_byte (b : Z).

Definition use_armor_filter (p : peeked) : bool :=
  match p with
  | peek_eof => false      (* EOF, doesn't matter whether armored or not *)
  | peek_nothing => true   (* can't check it: try armored *)
  | peek_byte b => is_armored [b]
  end.

(** An empty line: a line end alone. *)
Definition empty_line (line : list Z) : bool :=
  (at_ line 0 =? LF)
  || (negb (length line =? 0)%nat && (at_ line 0 =? CR) && (at_ line 1 =? LF)).

(** The test on the index that [is_armor_header] returns: an armor header
    that [only_keyblocks] does not rule out. *)
Definition header_wanted (only_keyblocks i : Z) : bool :=
  (0 <=? i)
  && negb (negb (only_keyblocks =? 0)
           && negb (i =? 1) && negb (i =? 5) && negb (i =? 6)).

(** The first loop of [check_input] from the point where the next line is
    read: truncated lines are passed over, the loop ends at an armor header
    that is wanted or at the end of the input ([None]).  The result holds
    the line that is in the buffer then.  (The function [find_header] of
    the file is old code that is not compiled.) *)
Fixpoint find_armor_header (only_keyblocks : Z) (a : list rline)
  : option Z * list Z * list rline :=
  match a with
  | [] => (None, [], [])
  | l :: a' =>
      if rl_truncated l then find_armor_header only_keyblocks a'
      else
        match rl_bytes l with
        | [] => (None, [], a')
        | _ :: _ =>
            let i := is_armor_header (rl_bytes l) in
            if header_wanted only_keyblocks i then (Some i, rl_bytes l, a')
            else find_armor_header only_keyblocks a'
        end
  end.

(** The second loop of [check_input]: the lines up to the one that
    [parse_header_line] does not take for a good header, and its verdict.
    At the end of the input the buffer holds the empty string, which is
    not a header line. *)
Fixpoint read_header_lines (a : list rline) (afx : armor_filter_context_t)
  : Z * armor_filter_context_t * list rline :=
  match a with
  | [] =>
      let '(i, afx) := parse_header_line (set_buffer [] afx) in (i, afx, [])
  | l :: a' =>
      if rl_truncated l then read_header_lines a' afx
      else
        let '(i, afx) := parse_header_line (set_buffer (rl_bytes l) afx) in
        if (i <=? 0) || match rl_bytes l with [] => true | _ :: _ => false end
        then (i, afx, a')
        else read_header_lines a' afx
  end.

(** [check_input]: the return code, the context and the lines not read.
    [invalid_armor] writes the BADARMOR status and calls [g10_exit (1)]. *)
Definition check_input (afx : armor_filter_context_t) (a : list rline)
  : outcome (rc_t * armor_filter_context_t * list rline) :=
  match a with
  | [] => Ok (RC_EOF, set_buffer [] afx, [])
  | l :: a' =>
      let line := rl_bytes l in
      let afx := set_buffer line afx in
      if rl_truncated l then
        (* line has been truncated: assume not armored *)
        Ok (RC_OK, set_inp_bypass 1 (set_inp_checked 1 afx), a')
      else
        match line with
        | [] => Ok (RC_EOF, afx, a')
        | _ :: _ =>
            if negb (empty_line line) && negb (is_armored line) then
              Ok (RC_OK, set_inp_bypass 1 (set_inp_checked 1 afx), a')
            else
              (* find the armor header *)
              let '(hdr, line, a) :=
                let i := is_armor_header line in
                if header_wanted (only_keyblocks afx) i then (Some i, line, a')
                else find_armor_header (only_keyblocks afx) a' in
              let afx := set_buffer line afx in
              let '(rc, afx) :=
                match hdr with
                | Some i =>
                    if i =? BEGIN_SIGNED_MSG_IDX then
                      ((if negb (in_cleartext afx =? 0)
                        then RC_ERR G10ERR_INVALID_ARMOR  (* nested *)
                        else RC_OK),
                       set_in_cleartext 1 afx)
                    else (RC_OK, afx)
                | None => (RC_OK, afx)
                end in
              (* parse the header lines *)
              let '(rc, afx, a) :=
                match line with
                | [] => (rc, afx, a)
                | _ :: _ =>
                    let '(i, afx, a) := read_header_lines a afx in
                    ((if i <? 0 then RC_ERR G10ERR_INVALID_ARMOR else rc),
                     afx, a)
                end in
              if negb (rc_is_ok rc) then Exit 1
              else if negb (in_cleartext afx =? 0) then
                Ok (rc, set_faked 1 afx, a)
              else
                Ok (rc,
                    set_radbuf0 0
                      (set_idx 0 (set_crc CRCINIT (set_inp_checked 1 afx))),
                    a)
        end
  end.

End Detect.

(** What [parse_header_line] returns for a line, which depends on the
    context through [in_cleartext] only. *)
Definition header_verdict (cleartext : Z) (line : list Z) : Z :=
  fst (parse_header_line (mk_afx 0 0 0 cleartext 0 0 0 0 line 0 0 0 0 0 0)).

(** A line of the input that the loop over the header lines passes: a
    truncated line, or a good header line. *)
Definition header_passed (cleartext : Z) (l : rline) : Prop :=
  rl_truncated l = true
  \/ (rl_bytes l <> [] /\ header_verdict cleartext (rl_bytes l) = 1).

(** The hashes that a line of the header block of a clearsigned message
    adds to those found before. *)
Definition header_hashes (h : Z) (l : rline) : Z :=
  if rl_truncated l then h
  else Z.lor h (parse_hash_header (cstr (trim_written (rl_bytes l)))).

(** A line that is read whole. *)
Definition whole (line : list Z) : rline := mk_rline line false.

(** The ends of line [is_armor_header] lets follow the closing dashes. *)
Definition line_ends : list (list Z) := [[]; [CR]; [LF]; [CR; LF]].

(** ** The names of a [Hash:] header

    The digest names [parse_hash_header] tests for, in the order of its
    [strncmp] chain, each with the bit it sets in [found]. *)
Definition hash_table : list (list Z * Z) :=
  [(bytes "RIPEMD160", 1); (bytes "SHA1", 2); (bytes "MD5", 4);
   (bytes "TIGER", 8)].

(** The comparisons are [strncmp (s, name, s2-s)] with the length of the
    word read, so a word selects the first name it is a prefix of. *)
Fixpoint hash_bit_in (table : list (list Z * Z)) (word : list Z) : option Z :=
  match table with
  | [] => None
  | (name, bit) :: table' =>
      if has_prefix word name then Some bit else hash_bit_in table' word
  end.

Definition hash_bit (word : list Z) : option Z := hash_bit_in hash_table word.

(** A word of the header: not empty, without NUL, blank or comma. *)
Definition is_word (w : list Z) : bool :=
  negb (length w =? 0)%nat
  && forallb (fun c => negb ((c =? NUL) || is_blank c || (c =? ch ","))) w.

(** The text after [Hash:] for a list of words: a blank before each word,
    a comma between two words. *)
Fixpoint hash_list (words : list (list Z)) : list Z :=
  match words with
  | [] => []
  | w :: ws =>
      SP :: w ++ match ws with [] => [] | _ :: _ => ch "," :: hash_list ws end
  end.

(** The bits of the words, or [None] when a word selects no name. *)
Fixpoint hash_found (words : list (list Z)) (found : Z) : option Z :=
  match words with
  | [] => Some found
  | w :: ws =>
      match hash_bit w with
      | Some bit => hash_found ws (Z.lor found bit)
      | None => None
      end
  end.

End ArmorInput.

(** * What the sequencer reports (mainproc.c) *)

Module MainprocReport.
Import Mainproc.

Section Report.

Context {X : Collaborators}.

(** The call does not end the process. *)
Definition no_exit {A : Type} (m : outcome A) : Prop :=
  forall status, m <> Exit status.

Definition is_status (e : event) : bool :=
  match e with
  | ev_status_goodsig | ev_status_badsig | ev_status_errsig => true
  | _ => false
  end.

(** The status lines of a trace, the last one first. *)
Definition statuses (t : list event) : list event := filter is_status t.

(** The status line that goes with the result of [do_check_sig]. *)
Definition sig_status (c : CTX) (node : PACKET) : event :=
  match do_check_sig c node with
  | Ok (RC_OK, _) => ev_status_goodsig
  | Ok (RC_ERR G10ERR_BAD_SIGN, _) => ev_status_badsig
  | _ => ev_status_errsig
  end.

End Report.

End MainprocReport.

(** * More of the qualified list (sm/qualified.c) *)

Module QualifiedPrompt.
Import Qualified.

(** A digit of a fingerprint as [read_list] stores it: 0-9 and A-F. *)
Definition upper_hexdigitp (c : Z) : bool :=
  ((ch "0" <=? c) && (c <=? ch "9")) || ((ch "A" <=? c) && (c <=? ch "F")).

(** ** The prompts

    The loop of [gpgsm_qualified_consent] and
    [gpgsm_not_qualified_warning] that makes the prompt fit for the
    Assuan protocol.  The test [*s < ' '] is on a [char]: where [char] is
    signed the bytes from 0x80 on are negative. *)

Definition hex_upper (n : Z) : Z :=
  nth (Z.to_nat n) (bytes "0123456789ABCDEF") NUL.

(** The three characters that [sprintf] writes for the format [%%%02X]
    and the byte taken as an [unsigned char]. *)
Definition percent_byte (c : Z) : list Z :=
  [ch "%"; hex_upper (Z.shiftr c 4); hex_upper (Z.land c 15)].

Definition char_value (char_signed : bool) (c : Z) : Z :=
  if char_signed && (128 <=? c) then c - 256 else c.

Fixpoint percent_plus_escape (char_signed : bool) (s : list Z) : list Z :=
  match s with
  | [] => []
  | c :: s' =>
      (if (char_value char_signed c <? ch " ") || (c =? ch "+")
       then percent_byte c
       else if c =? ch " " then [ch "+"]
       else [c]) ++ percent_plus_escape char_signed s'
  end.

Section Prompts.

(** What the two functions call: the subject of the certificate, its
    formatted form, the text of the prompt as [asprintf] and [gettext]
    make it (or the error of a failed allocation), the allocation of the
    buffer, and the agent. *)
Variable cert : Type.
Variable char_signed : bool.
Variable qualsig_approval : bool.
Variable ksba_cert_get_subject : cert -> option (list Z).
Variable gpgsm_format_name2 : list Z -> option (list Z).
Variable consent_text : option (list Z) -> bool -> gpg_err_code_t + list Z.
Variable warning_text : option (list Z) -> gpg_err_code_t + list Z.
Variable xtrymalloc : Z -> option gpg_err_code_t.
Variable gpgsm_agent_get_confirmation : list Z -> gpg_err_code_t.

(** The common end of the two functions up to the call of the agent: the
    buffer of [strlen (name) * 3 + 1] bytes and the loop.  The result is
    the error of the allocation or the prompt that goes to the agent. *)
Definition confirm_request (name : list Z) : gpg_err_code_t + list Z :=
  let name := cstr name in
  match xtrymalloc (zlen name * 3 + 1) with
  | Some err => inl err
  | None => inr (percent_plus_escape char_signed name)
  end.

Definition qualified_consent_request (c : cert) : gpg_err_code_t + list Z :=
  match ksba_cert_get_subject c with
  | None => inl GPG_ERR_GENERAL
  | Some name =>
      let subject := gpgsm_format_name2 name in
      match consent_text subject qualsig_approval with
      | inl err => inl err
      | inr name => confirm_request name
      end
  end.

Definition not_qualified_warning_request (c : cert)
  : gpg_err_code_t + list Z :=
  if negb qualsig_approval then inl GPG_ERR_NO_ERROR
  else
    match ksba_cert_get_subject c with
    | None => inl GPG_ERR_GENERAL
    | Some name =>
        let subject := gpgsm_format_name2 name in
        match warning_text subject with
        | inl err => inl err
        | inr name => confirm_request name
        end
    end.

(** [err = gpgsm_agent_get_confirmation (ctrl, buffer)]. *)
Definition ask_agent (r : gpg_err_code_t + list Z) : gpg_err_code_t :=
  match r with
  | inl err => err
  | inr buffer => gpgsm_agent_get_confirmation buffer
  end.

Definition gpgsm_qualified_consent (c : cert) : gpg_err_code_t :=
  ask_agent (qualified_consent_request c).

Definition gpgsm_not_qualified_warning (c : cert) : gpg_err_code_t :=
  ask_agent (not_qualified_warning_request c).

End Prompts.

End QualifiedPrompt.

(** * Equality of byte strings *)

Lemma list_eqb_eq l1 l2 : list_eqb l1 l2 = true <-> l1 = l2.
Proof.
  revert l2; induction l1 as [|a l1 IH]; intros [|b l2]; simpl;
    try (split; congruence).
  rewrite andb_true_iff, Z.eqb_eq, IH. split.
  - intros [-> ->]; reflexivity.
  - intros H; inversion H; auto.
Qed.

(** * Facts about the armor filter *)

Module ArmorFacts.
Import Armor.

(** ** [trim_trailing_spaces] strips the trailing run *)

Lemma strip_trim_set_length (l : list Z) :
  (length (strip_trim_set l) <= length l)%nat.
Proof.
  induction l as [|c l IH]; simpl; [lia|].
  destruct (strip_trim_set l); [destruct (in_trim_set c)|]; simpl in *; lia.
Qed.

Lemma strip_trim_set_prefix (l : list Z) :
  firstn (length (strip_trim_set l)) l = strip_trim_set l.
Proof.
  induction l as [|c l IH]; simpl; [reflexivity|].
  destruct (strip_trim_set l) as [|r rs] eqn:E.
  - destruct (in_trim_set c); reflexivity.
  - simpl in *. now rewrite IH.
Qed.

Lemma trim_scan_spec (l : list Z) : forall n mark,
  trim_scan l n mark =
    match l with
    | [] => mark
    | _ :: _ =>
        if (length (strip_trim_set l) =? length l)%nat then None
        else match strip_trim_set l with
             | [] => match mark with Some m => Some m | None => Some n end
             | r => Some (n + length r)%nat
             end
    end.
Proof.
  induction l as [|c l IH]; intros n mark; [reflexivity|].
  cbn [trim_scan]. rewrite !IH. clear IH.
  assert (Hle := strip_trim_set_length l).
  cbn [strip_trim_set].
  destruct l as [|d l].
  - destruct (in_trim_set c); simpl; [destruct mark|]; reflexivity.
  - remember (d :: l) as l' eqn:El'.
    assert (Hlen : (0 < length l')%nat) by (subst l'; simpl; lia).
    destruct (strip_trim_set l') as [|r rs] eqn:E.
    + cbn [length] in *.
      destruct (Nat.eqb_spec 0 (length l')) as [H0|_]; [lia|].
      destruct (in_trim_set c).
      * simpl. destruct mark; reflexivity.
      * cbn [length].
        destruct (Nat.eqb_spec 1 (S (length l'))) as [H1|_]; [lia|].
        f_equal; lia.
    + cbn [length] in *.
      destruct (Nat.eqb_spec (S (length rs)) (length l')) as [He|Hne];
        destruct (Nat.eqb_spec (S (S (length rs))) (S (length l'))) as [He'|Hne'];
        try lia.
      * destruct (in_trim_set c); reflexivity.
      * destruct (in_trim_set c); f_equal; lia.
Qed.

Lemma trim_trailing_spaces_spec (l : list Z) :
  firstn (trim_trailing_spaces l) l = strip_trim_set l.
Proof.
  unfold trim_trailing_spaces. rewrite trim_scan_spec.
  destruct l as [|c l]; [reflexivity|].
  remember (c :: l) as l' eqn:El'.
  destruct (Nat.eqb_spec (length (strip_trim_set l')) (length l')) as [He|Hne].
  - rewrite <- He at 1. apply strip_trim_set_prefix.
  - rewrite <- (strip_trim_set_prefix l') at 2.
    destruct (strip_trim_set l'); reflexivity.
Qed.

(** On a line of text (no LF, no NUL) that ends in its LF, the scan keeps
    what the specification calls the line without trailing SP, TAB, CR. *)
Lemma strip_text_line (l : list Z) :
  Forall (fun c => c <> LF /\ c <> NUL) l ->
  strip_trim_set (l ++ [LF]) = strip_trailing_ws l.
Proof.
  induction 1 as [|c l [Hlf Hnul] _ IH]; [reflexivity|].
  simpl. rewrite IH.
  replace (in_trim_set c) with (is_trailing_ws c); [reflexivity|].
  unfold in_trim_set, is_trailing_ws.
  destruct (Z.eqb_spec c LF); [contradiction|].
  destruct (Z.eqb_spec c NUL); [contradiction|].
  now rewrite !orb_false_r.
Qed.

Lemma trim_text_line (l : list Z) :
  Forall (fun c => c <> LF /\ c <> NUL) l ->
  firstn (trim_trailing_spaces (l ++ [LF])) (l ++ [LF]) = strip_trailing_ws l.
Proof.
  intros H. rewrite trim_trailing_spaces_spec. now apply strip_text_line.
Qed.

(** ** The copy of the pending line *)

Lemma zlen_app {A} (l1 l2 : list A) : zlen (l1 ++ l2) = zlen l1 + zlen l2.
Proof. unfold zlen. rewrite length_app. lia. Qed.

Lemma zlen_nonneg {A} (l : list A) : 0 <= zlen l.
Proof. unfold zlen. lia. Qed.

Lemma copy_line_fits (size : Z) (pending : list Z) : forall pos buf,
  2 + zlen buf + zlen pending <= size ->
  copy_line size pending pos buf = ((pos + length pending)%nat, buf ++ pending).
Proof.
  induction pending as [|c pending IH]; intros pos buf Hsz; cbn [copy_line].
  - cbn [length]. now rewrite Nat.add_0_r, app_nil_r.
  - change (zlen (c :: pending)) with (Z.of_nat (S (length pending))) in Hsz.
    assert (Hp := zlen_nonneg pending). unfold zlen in Hp.
    destruct (Z.ltb_spec (2 + zlen buf) size) as [_|Hge]; [|lia].
    rewrite IH.
    + rewrite <- app_assoc. cbn [app length]. f_equal. lia.
    + rewrite zlen_app. unfold zlen in *. cbn [length]. lia.
Qed.

(** ** The tests on a trimmed line *)

Lemma classify_line_last (nde : Z) (p : list Z) :
  snd (classify_line nde p) = armor_like p.
Proof.
  unfold classify_line, armor_like.
  destruct (Nat.ltb_spec 2 (length p)) as [H2|H2];
    destruct (Nat.leb_spec 15 (length p)) as [H15|H15]; try lia;
    destruct (Z.eqb_spec (at_ p 0) (ch "-")) as [E0|N0];
    destruct (Z.eqb_spec (at_ p 1) (ch " ")) as [E1|N1];
    destruct (Z.eqb_spec (at_ p 1) (ch "-")) as [E1'|N1'];
    try (rewrite E1 in E1'; discriminate E1');
    destruct (at_ p 2 =? ch "-"); destruct (at_ p 3 =? ch "-");
    destruct (nde =? 0); reflexivity.
Qed.

Lemma classify_line_skip (nde : Z) (p : list Z) :
  skipn (fst (classify_line nde p)) p =
    if (nde =? 0) && dash_escaped p then skipn 2 p else p.
Proof.
  unfold classify_line, dash_escaped.
  destruct ((2 <? length p)%nat); destruct ((15 <=? length p)%nat);
    destruct (at_ p 0 =? ch "-"); destruct (at_ p 1 =? ch " ");
    destruct (at_ p 1 =? ch "-"); destruct (at_ p 2 =? ch "-");
    destruct (at_ p 3 =? ch "-"); destruct (nde =? 0); reflexivity.
Qed.

(** ** The loop of [fake_packet] on lines of text *)

Lemma fake_loop_stopped (size : Z) (a : list rline) (s : fake_state) :
  rc_is_ok (fs_rc s) = false -> fake_loop size a s = Ok (s, a).
Proof.
  intros H. destruct a; cbn [fake_loop]; rewrite H; reflexivity.
Qed.

(** One pass with a pending line that fits, followed by the read of the
    next line [l]. *)
Lemma fake_loop_step (size : Z) (afx : armor_filter_context_t) (b : list Z)
  (l : rline) (a' : list rline) :
  faked afx <> 1 ->
  rl_bytes l <> [] ->
  2 + zlen b + zlen (skipn (buffer_pos afx) (buffer afx)) + 2 < size ->
  let cur := skipn (buffer_pos afx) (buffer afx) in
  let p := firstn (trim_trailing_spaces (rl_bytes l)) (rl_bytes l) in
  exists afx1,
    buffer afx1 = p
    /\ buffer_pos afx1 = fst (classify_line (not_dash_escaped afx) p)
    /\ not_dash_escaped afx1 = not_dash_escaped afx
    /\ faked afx1 = faked afx
    /\ fake_loop size (l :: a') (mk_fs afx b 0 false RC_OK) =
         if armor_like p
         then Ok (mk_fs afx1 (b ++ cur) 0 true RC_EOF, a')
         else fake_loop size a' (mk_fs afx1 (b ++ cur ++ [CR; LF]) 0 false RC_OK).
Proof.
  intros Hfaked Hne.
  destruct (rl_bytes l) as [|c0 bytes0] eqn:Ebytes; [contradiction|].
  intros Hsz cur p.
  assert (Hcur := zlen_nonneg cur). fold cur in Hsz.
  assert (Hb := zlen_nonneg b).
  cbn [fake_loop flush_emplines fs_rc fs_buf fs_afx fs_emplines fs_lastline
       rc_is_ok negb orb].
  unfold fs_len. cbn [fs_buf].
  destruct (Z.ltb_spec (2 + zlen b) size) as [_|Hge]; [|lia].
  cbn [negb].
  destruct (Z.eqb_spec (faked afx) 1) as [E|_]; [contradiction|].
  fold cur. rewrite copy_line_fits by lia.
  cbn [negb andb].
  assert (Hlen : zlen ((b ++ cur) ++ [CR; LF]) = zlen b + zlen cur + 2).
  { rewrite !zlen_app. reflexivity. }
  rewrite Hlen.
  destruct (Z.ltb_spec (2 + (zlen b + zlen cur + 2)) size) as [_|Hge]; [|lia].
  cbn [negb].
  rewrite Ebytes. fold p.
  assert (Hnde : forall x, not_dash_escaped
            (set_buffer p
               (if rl_truncated l
                then set_truncated (truncated (set_buffer_pos 0 x) + 1)
                       (set_buffer_pos 0 x)
                else set_buffer_pos 0 x)) = not_dash_escaped x).
  { intros x. destruct (rl_truncated l); reflexivity. }
  rewrite Hnde. cbn [set_buffer_pos not_dash_escaped].
  destruct (classify_line (not_dash_escaped afx) p) as [pos last] eqn:Ecl.
  assert (Hlast := classify_line_last (not_dash_escaped afx) p).
  rewrite Ecl in Hlast. cbn [snd] in Hlast. subst last.
  eexists. split; [|split; [|split; [|split]]].
  5: {
    destruct (armor_like p).
    - destruct (Z.ltb_spec (2 + (zlen b + zlen cur + 2)) 4) as [Hlt|_]; [lia|].
      rewrite fake_loop_stopped by reflexivity.
      rewrite length_app. cbn [length].
      replace (length (b ++ cur) + 2 - 2)%nat with (length (b ++ cur)) by lia.
      rewrite firstn_app, Nat.sub_diag, firstn_all. cbn [firstn].
      rewrite app_nil_r. reflexivity.
    - rewrite <- app_assoc. reflexivity. }
  all: destruct (rl_truncated l); reflexivity.
Qed.

Lemma fake_loop_first (size : Z) (afx : armor_filter_context_t)
  (l : rline) (a' : list rline) :
  faked afx = 1 ->
  rl_bytes l <> [] ->
  2 < size ->
  let p := firstn (trim_trailing_spaces (rl_bytes l)) (rl_bytes l) in
  exists afx1,
    buffer afx1 = p
    /\ buffer_pos afx1 = fst (classify_line (not_dash_escaped afx) p)
    /\ not_dash_escaped afx1 = not_dash_escaped afx
    /\ faked afx1 = 2
    /\ fake_loop size (l :: a') (mk_fs afx [] 0 false RC_OK) =
         if armor_like p then Abort
         else fake_loop size a' (mk_fs afx1 [] 0 false RC_OK).
Proof.
  intros Hfaked Hne.
  destruct (rl_bytes l) as [|c0 bytes0] eqn:Ebytes; [contradiction|].
  intros Hsz p.
  cbn [fake_loop flush_emplines fs_rc fs_buf fs_afx fs_emplines fs_lastline
       rc_is_ok negb orb].
  unfold fs_len. cbn [fs_buf]. change (zlen (@nil Z)) with 0.
  destruct (Z.ltb_spec (2 + 0) size) as [_|Hge]; [|lia].
  cbn [negb]. rewrite Hfaked. cbn [Z.eqb Pos.eqb negb andb].
  rewrite Ebytes. fold p.
  assert (Hnde : forall x, not_dash_escaped
            (set_buffer p
               (if rl_truncated l
                then set_truncated (truncated (set_buffer_pos 0 x) + 1)
                       (set_buffer_pos 0 x)
                else set_buffer_pos 0 x)) = not_dash_escaped x).
  { intros x. destruct (rl_truncated l); reflexivity. }
  rewrite Hnde. cbn [set_faked not_dash_escaped].
  destruct (classify_line (not_dash_escaped afx) p) as [pos last] eqn:Ecl.
  assert (Hlast := classify_line_last (not_dash_escaped afx) p).
  rewrite Ecl in Hlast. cbn [snd] in Hlast. subst last.
  eexists. split; [|split; [|split; [|split]]].
  5: { destruct (armor_like p); reflexivity. }
  all: destruct (rl_truncated l); try reflexivity.
  all: cbn; rewrite Hfaked; reflexivity.
Qed.

Lemma canonical_text_cons (nde : Z) (l : list Z) (lines : list (list Z)) :
  canonical_text nde (l :: lines) =
    canonical_line nde l ++ [CR; LF] ++ canonical_text nde lines.
Proof. unfold canonical_text. cbn [map concat]. now rewrite <- app_assoc. Qed.

Lemma join_crlf_cons (l : list Z) (lines : list (list Z)) :
  join_crlf (l :: lines) = l ++ concat (map (fun x => [CR; LF] ++ x) lines).
Proof.
  revert l; induction lines as [|l' lines IH]; intros l.
  - cbn. now rewrite app_nil_r.
  - change (join_crlf (l :: l' :: lines))
      with (l ++ [CR; LF] ++ join_crlf (l' :: lines)).
    rewrite IH. cbn [map concat]. now rewrite <- !app_assoc.
Qed.

(** The loop on the rest of the text, up to the line that ends it. *)
Lemma fake_loop_text (size nde : Z) (t : rline) (rest : list rline) :
  ends_text t ->
  forall lines afx b,
    not_dash_escaped afx = nde ->
    faked afx <> 1 ->
    Forall text_line_ok lines ->
    2 + zlen b + zlen (skipn (buffer_pos afx) (buffer afx)) + 2
      + zlen (canonical_text nde lines) < size ->
    exists afx',
      fake_loop size (map text_rline lines ++ t :: rest)
                (mk_fs afx b 0 false RC_OK) =
        Ok (mk_fs afx'
              (b ++ skipn (buffer_pos afx) (buffer afx)
                 ++ concat (map (fun l => [CR; LF] ++ canonical_line nde l) lines))
              0 true RC_EOF, rest).
Proof.
  intros [Htne Htarm].
  induction lines as [|l lines IH]; intros afx b Hnde Hfaked Hok Hsz.
  - cbn [map app concat]. change (canonical_text nde []) with (@nil Z) in Hsz.
    change (zlen (@nil Z)) with 0 in Hsz.
    destruct (fake_loop_step size afx b t rest Hfaked Htne) as
      (afx1 & _ & _ & _ & _ & Heq); [lia|].
    rewrite Heq, Htarm. exists afx1. now rewrite app_nil_r.
  - inversion Hok as [|? ? [Htext Hnarm] Hok']; subst.
    rewrite canonical_text_cons, !zlen_app in Hsz.
    assert (H1 := zlen_nonneg (canonical_line (not_dash_escaped afx) l)).
    assert (H2 := zlen_nonneg (canonical_text (not_dash_escaped afx) lines)).
    change (zlen [CR; LF]) with 2 in Hsz.
    cbn [map app].
    assert (Hl : rl_bytes (text_rline l) <> []).
    { cbn. destruct l; discriminate. }
    destruct (fake_loop_step size afx b (text_rline l)
                (map text_rline lines ++ t :: rest) Hfaked Hl) as
      (afx1 & Hbuf & Hpos & Hnde1 & Hfk1 & Heq); [lia|].
    cbn [text_rline rl_bytes] in Hbuf, Hpos, Heq.
    rewrite trim_text_line in Hbuf, Hpos, Heq by assumption.
    rewrite Hnarm in Heq. rewrite Heq.
    assert (Hcur : skipn (buffer_pos afx1) (buffer afx1)
                   = canonical_line (not_dash_escaped afx) l).
    { rewrite Hbuf, Hpos, classify_line_skip. reflexivity. }
    destruct (IH afx1 (b ++ skipn (buffer_pos afx) (buffer afx) ++ [CR; LF]))
      as (afx' & Heq'); auto.
    + congruence.
    + rewrite Hcur, !zlen_app. change (zlen [CR; LF]) with 2. lia.
    + exists afx'. rewrite Heq', Hcur. cbn [map concat].
      rewrite <- !app_assoc. reflexivity.
Qed.

Lemma read_armor_headers_ends (a : list rline) : forall afx,
  match read_armor_headers a afx with
  | Ok _ => True
  | Exit st => st = 1
  | Abort => False
  end.
Proof.
  induction a as [|l a IH]; intros afx; cbn [read_armor_headers]; [exact I|].
  destruct (rl_truncated l); [apply IH|].
  destruct (rl_bytes l); [exact I|].
  destruct (parse_header_line _) as [i afx'].
  destruct (i <=? 0); [destruct (negb (i =? 0)); [reflexivity | exact I]|].
  apply IH.
Qed.

(** C1, as the code has it: when the clearsigned text (at least one line,
    every line free of NUL, none of them armor-like) and its CR LFs fit in
    the caller's buffer, the first call of [fake_packet] emits, after the
    two bytes of the length header, the canonical lines joined by CR LF:
    trailing SP, TAB and CR stripped, the dash escape dropped exactly when
    [NotDashEscaped] is off, one CR LF between two lines (an empty line
    gives an empty canonical line, hence one CR LF) and none after the last
    line.  The call returns unless a header line of the signature armor is
    invalid, in which case the process exits. *)
Theorem fake_packet_canonical_text
  (afx : armor_filter_context_t) (lines : list (list Z)) (t : rline)
  (rest : list rline) (size : Z) :
  faked afx = 1 ->
  empty afx = O ->
  lines <> [] ->
  Forall text_line_ok lines ->
  ends_text t ->
  2 + zlen (canonical_text (not_dash_escaped afx) lines) < size - 3 ->
  let body := join_crlf (map (canonical_line (not_dash_escaped afx)) lines) in
  match fake_packet afx (map text_rline lines ++ t :: rest) size with
  | Ok r =>
      exists trailer,
        (trailer = [] \/ trailer = [0; 0])
        /\ fp_out r = [to_byte (Z.shiftr (zlen body) 8); to_byte (zlen body)]
                        ++ body ++ trailer
  | Exit st => st = 1 /\ exists afx1, read_armor_headers rest afx1 = Exit 1
  | Abort => False
  end.
Proof.
  intros Hfaked Hempty Hne Hok Hend Hsz body.
  destruct lines as [|l lines]; [contradiction|].
  inversion Hok as [|? ? [Htext Hnarm] Hok']; subst.
  unfold fake_packet. rewrite Hempty. cbn [map app].
  rewrite canonical_text_cons, !zlen_app in Hsz.
  change (zlen [CR; LF]) with 2 in Hsz.
  assert (H1 := zlen_nonneg (canonical_line (not_dash_escaped afx) l)).
  assert (H2 := zlen_nonneg (canonical_text (not_dash_escaped afx) lines)).
  assert (Hl : rl_bytes (text_rline l) <> []).
  { cbn. destruct l; discriminate. }
  destruct (fake_loop_first (size - 3) afx (text_rline l)
              (map text_rline lines ++ t :: rest) Hfaked Hl) as
    (afx1 & Hbuf & Hpos & Hnde1 & Hfk1 & Heq); [lia|].
  cbn [text_rline rl_bytes] in Hbuf, Hpos, Heq.
  rewrite trim_text_line in Hbuf, Hpos, Heq by assumption.
  rewrite Hnarm in Heq. rewrite Heq.
  assert (Hcur : skipn (buffer_pos afx1) (buffer afx1)
                 = canonical_line (not_dash_escaped afx) l).
  { rewrite Hbuf, Hpos, classify_line_skip. reflexivity. }
  destruct (fake_loop_text (size - 3) (not_dash_escaped afx) t rest Hend
              lines afx1 []) as (afx' & Heq'); auto.
  - rewrite Hfk1. discriminate.
  - rewrite Hcur. change (zlen (@nil Z)) with 0. lia.
  - rewrite Heq'. cbn [bind app]. rewrite Hcur.
    change (fun l0 : list Z => [CR; LF] ++ canonical_line (not_dash_escaped afx) l0)
      with (fun l0 : list Z => (fun x => [CR; LF] ++ x)
                                 (canonical_line (not_dash_escaped afx) l0)).
    rewrite <- (map_map (canonical_line (not_dash_escaped afx))
                        (fun x => [CR; LF] ++ x)).
    rewrite <- join_crlf_cons.
    change (join_crlf (canonical_line (not_dash_escaped afx) l
                       :: map (canonical_line (not_dash_escaped afx)) lines))
      with body.
    cbn [fs_lastline fs_buf fs_afx fs_emplines]. unfold fs_len. cbn [fs_buf].
    replace (2 + zlen body - 2) with (zlen body) by lia.
    set (afx_e := set_buffer_pos 0 (set_in_cleartext 0 (set_faked 0 afx'))).
    assert (Hends := read_armor_headers_ends rest afx_e).
    destruct (read_armor_headers rest afx_e) as [[[rc afx2] a2]|st|] eqn:Eh.
    + cbn [bind fp_out].
      destruct (negb (to_byte (Z.shiftr (zlen body) 8) =? 0)
                && negb (to_byte (zlen body) =? 0)).
      * exists [0; 0]. split; [now right|]. reflexivity.
      * exists []. split; [now left|]. now rewrite app_nil_r.
    + cbn [bind]. subst st. split; [reflexivity|]. now exists afx_e.
    + exact Hends.
Qed.

Lemma fake_packet_canonical_text_witness :
  match fake_packet (afx_clearsigned 0)
          (map text_rline sample_text ++ begin_signature_line :: [text_rline []])
          8192 with
  | Ok r =>
      exists trailer,
        (trailer = [] \/ trailer = [0; 0])
        /\ fp_out r =
             [to_byte (Z.shiftr (zlen (join_crlf (map (canonical_line 0) sample_text))) 8);
              to_byte (zlen (join_crlf (map (canonical_line 0) sample_text)))]
             ++ join_crlf (map (canonical_line 0) sample_text) ++ trailer
  | Exit st => st = 1 /\ exists afx1, read_armor_headers [text_rline []] afx1 = Exit 1
  | Abort => False
  end.
Proof.
  apply (fake_packet_canonical_text (afx_clearsigned 0) sample_text
           begin_signature_line [text_rline []] 8192).
  - reflexivity.
  - reflexivity.
  - discriminate.
  - repeat constructor; try (intros H; discriminate H).
  - split; [discriminate | reflexivity].
  - vm_compute. reflexivity.
Defined.

(** C1 as stated fails: the text [hello] before the signature armor gives
    the body [hello], without the CR LF that the claim puts after every
    line. *)
Lemma fake_packet_last_line_unterminated :
  exists r,
    fake_packet (afx_clearsigned 0)
      [text_rline (bytes "hello"); begin_signature_line; text_rline []] 8192
    = Ok r
    /\ skipn 2 (fp_out r) = bytes "hello"
    /\ skipn 2 (fp_out r) <> canonical_text 0 [bytes "hello"].
Proof.
  eexists. split; [reflexivity|]. split; [reflexivity | discriminate].
Qed.

(** C6 on the code: a text of five bytes ended by a line that
    [is_armor_header] recognizes as BEGIN PGP SIGNATURE is emitted as the
    length header 0, 5 and the five bytes, with no zero-length header after
    them (the test [buf[0] && buf[1]] asks for both bytes of the length to be
    non-zero); and on an empty text the assertion [len >= 4] fails. *)
Theorem fake_packet_trailer_missing :
  is_armor_header (bytes "-----BEGIN PGP SIGNATURE-----") = BEGIN_SIGNATURE
  /\ (exists r,
        fake_packet (afx_clearsigned 0)
          [text_rline (bytes "hello"); begin_signature_line; text_rline []] 8192
        = Ok r
        /\ fp_rc r = RC_OK
        /\ fp_out r = [0; 5] ++ bytes "hello")
  /\ fake_packet (afx_clearsigned 0) [begin_signature_line; text_rline []] 8192
     = Abort.
Proof.
  split; [reflexivity|]. split; [|reflexivity].
  eexists. repeat split.
Qed.

(** ** The CRC trailer of the radix-64 body *)

Lemma crc_switch_first (val mycrc c : Z) :
  crc_switch 0 val mycrc c = (to_byte (Z.shiftl c 2), mycrc).
Proof. reflexivity. Qed.

(** The CRC loop on the input that follows the pad characters: it ends
    with [c] different from -1, [idx] equal to 4 and [mycrc] equal to
    [crc] exactly on the inputs of [trailer_accepted]. *)
Lemma crc_loop_verdict (crc c val : Z) (a : list Z) :
  (let '(c', idx, mycrc, _) := crc_loop 4 0 c a val 0 in
   match c' with
   | None => false
   | Some _ =>
       if negb (idx =? 4) then false
       else if negb (mycrc =? crc) then false
       else true
   end)
  = trailer_accepted crc (c :: a).
Proof.
  unfold trailer_accepted, crc_chain.
  cbn [crc_loop].
  destruct (asctobin c =? 255); [destruct a as [|? [|? [|? [|? ?]]]]; reflexivity|].
  rewrite !crc_switch_first.
  destruct a as [|c2 a]; [reflexivity|].
  cbn [crc_loop].
  destruct (asctobin c2 =? 255);
    [destruct a as [|? [|? [|? ?]]]; reflexivity|].
  change (0 + 1) with 1.
  destruct (crc_switch 1 (to_byte (Z.shiftl (asctobin c) 2)) 0 (asctobin c2))
    as [v1 m1].
  destruct a as [|c3 a]; [reflexivity|].
  cbn [crc_loop].
  destruct (asctobin c3 =? 255); [destruct a as [|? [|? ?]]; reflexivity|].
  change (1 + 1) with 2.
  destruct (crc_switch 2 v1 m1 (asctobin c3)) as [v2 m2].
  destruct a as [|c4 a]; [reflexivity|].
  cbn [crc_loop].
  destruct (asctobin c4 =? 255); [destruct a as [|? ?]; reflexivity|].
  change (2 + 1) with 3.
  destruct (crc_switch 3 v2 m2 (asctobin c4)) as [v3 m3].
  destruct a as [|c5 a]; [reflexivity|].
  cbn [crc_loop snd negb andb].
  change (3 + 1 =? 4) with true. cbn [negb].
  destruct (m3 =? crc); reflexivity.
Qed.

(** *** The decoder's table and the alphabet *)

Lemma range_forallb (n : nat) (f : Z -> bool) (z : Z) :
  forallb f (map Z.of_nat (seq 0 n)) = true ->
  0 <= z < Z.of_nat n -> f z = true.
Proof.
  intros H Hz. rewrite forallb_forall in H. apply H.
  rewrite in_map_iff. exists (Z.to_nat z). split; [lia|].
  apply in_seq. lia.
Qed.

Lemma index_of_range (c : Z) (l : list Z) (i k : Z) :
  index_of c l i = Some k -> i <= k < i + zlen l.
Proof.
  revert i; induction l as [|x l IH]; intros i; cbn [index_of]; [discriminate|].
  unfold zlen. cbn [length]. destruct (x =? c).
  - intros H; inversion H; subst. lia.
  - intros H. apply IH in H. unfold zlen in H. lia.
Qed.

Lemma index_of_none (c : Z) (l : list Z) (i : Z) :
  ~ In c l -> index_of c l i = None.
Proof.
  revert i; induction l as [|x l IH]; intros i Hn; cbn [index_of]; [reflexivity|].
  destruct (Z.eqb_spec x c) as [->|Hne]; [exfalso; apply Hn; left; reflexivity|].
  apply IH. intros H; apply Hn; right; exact H.
Qed.

Lemma radix64_digit_range (c s : Z) : radix64_digit c = Some s -> 0 <= s < 64.
Proof.
  unfold radix64_digit. intros H. apply index_of_range in H.
  change (zlen bintoasc) with 64 in H. lia.
Qed.

(** [asctobin] holds the place of a character in the alphabet, and 255
    for every other value. *)
Lemma asctobin_digit (c : Z) :
  asctobin c = match radix64_digit c with Some s => s | None => 255 end.
Proof.
  destruct (Z_lt_le_dec c 0) as [Hneg|Hpos];
    [|destruct (Z_lt_le_dec c 256) as [Hlt|Hge]].
  - unfold radix64_digit. rewrite index_of_none.
    + unfold asctobin. replace (Z.to_nat c) with O by lia. reflexivity.
    + intros H. assert (Hb : Forall (fun x => 0 <= x) bintoasc)
        by (repeat constructor; discriminate).
      rewrite Forall_forall in Hb. apply Hb in H. lia.
  - apply Z.eqb_eq.
    apply (range_forallb 256
             (fun c => asctobin c =? match radix64_digit c with
                                     | Some s => s | None => 255 end));
      [vm_compute; reflexivity | lia].
  - unfold radix64_digit. rewrite index_of_none.
    + unfold asctobin. apply nth_overflow.
      change (length asctobin_table) with 256%nat. lia.
    + intros H. assert (Hb : Forall (fun x => x < 256) bintoasc)
        by (repeat constructor).
      rewrite Forall_forall in Hb. apply Hb in H. lia.
Qed.

(** *** The three bytes that the CRC loop assembles *)

Lemma lor_shiftl_small (a b n : Z) :
  0 <= n -> 0 <= b < 2 ^ n -> Z.lor (Z.shiftl a n) b = a * 2 ^ n + b.
Proof.
  intros Hn Hb. rewrite <- Z.shiftl_mul_pow2 by assumption.
  assert (Hl : Z.land (Z.shiftl a n) b = 0).
  { apply Z.bits_inj'. intros i Hi. rewrite Z.land_spec, Z.bits_0.
    destruct (Z_lt_le_dec i n) as [Hlt|Hge].
    - rewrite Z.shiftl_spec_low by assumption. reflexivity.
    - rewrite <- (Z.mod_small b (2 ^ n)) by assumption.
      rewrite Z.mod_pow2_bits_high by lia. apply andb_false_r. }
  rewrite <- Z.lxor_lor by assumption.
  symmetry. apply Z.add_nocarry_lxor. assumption.
Qed.

Lemma crc_bytes (b1 b2 b3 : Z) :
  0 <= b2 < 256 -> 0 <= b3 < 256 ->
  Z.lor (Z.lor (Z.lor 0 (Z.shiftl b1 16)) (Z.shiftl b2 8)) b3
  = 65536 * b1 + 256 * b2 + b3.
Proof.
  intros H2 H3. rewrite Z.lor_0_l.
  replace (Z.shiftl b1 16) with (Z.shiftl (Z.shiftl b1 8) 8)
    by (rewrite Z.shiftl_shiftl by lia; reflexivity).
  rewrite <- Z.shiftl_lor.
  rewrite (lor_shiftl_small b1 b2 8) by (cbn; lia).
  rewrite lor_shiftl_small by (cbn; lia).
  change (2 ^ 8) with 256. lia.
Qed.

Lemma pair_ok_spec (f : Z -> Z -> bool) (s t : Z) :
  pair_ok f = true -> 0 <= s < 64 -> 0 <= t < 64 -> f s t = true.
Proof.
  intros H Hs Ht.
  apply (range_forallb 64 (f s)); [|lia].
  apply (range_forallb 64 (fun s => forallb (f s) digit_range)); [exact H | lia].
Qed.

Lemma crc_byte1 (s1 s2 : Z) :
  0 <= s1 < 64 -> 0 <= s2 < 64 ->
  Z.lor (to_byte (Z.shiftl s1 2)) (Z.land (Z.shiftr s2 4) 3) = 4 * s1 + s2 / 16.
Proof.
  intros H1 H2. apply Z.eqb_eq.
  apply (pair_ok_spec (fun s1 s2 =>
           Z.lor (to_byte (Z.shiftl s1 2)) (Z.land (Z.shiftr s2 4) 3)
           =? 4 * s1 + s2 / 16)); [vm_compute; reflexivity | lia | lia].
Qed.

Lemma crc_byte2 (s2 s3 : Z) :
  0 <= s2 < 64 -> 0 <= s3 < 64 ->
  Z.lor (Z.land (Z.shiftl s2 4) 0xf0) (Z.land (Z.shiftr s3 2) 15)
  = 16 * (s2 mod 16) + s3 / 4.
Proof.
  intros H1 H2. apply Z.eqb_eq.
  apply (pair_ok_spec (fun s2 s3 =>
           Z.lor (Z.land (Z.shiftl s2 4) 0xf0) (Z.land (Z.shiftr s3 2) 15)
           =? 16 * (s2 mod 16) + s3 / 4)); [vm_compute; reflexivity | lia | lia].
Qed.

Lemma crc_byte3 (s3 s4 : Z) :
  0 <= s3 < 64 -> 0 <= s4 < 64 ->
  Z.lor (Z.land (Z.shiftl s3 6) 0xc0) (Z.land s4 0x3f) = 64 * (s3 mod 4) + s4.
Proof.
  intros H1 H2. apply Z.eqb_eq.
  apply (pair_ok_spec (fun s3 s4 =>
           Z.lor (Z.land (Z.shiftl s3 6) 0xc0) (Z.land s4 0x3f)
           =? 64 * (s3 mod 4) + s4)); [vm_compute; reflexivity | lia | lia].
Qed.

(** The shifts and masks of the CRC loop put the four values, six bits
    each, one after the other. *)
Lemma crc_chain_value (s1 s2 s3 s4 : Z) :
  0 <= s1 < 64 -> 0 <= s2 < 64 -> 0 <= s3 < 64 -> 0 <= s4 < 64 ->
  crc_chain s1 s2 s3 s4 = 262144 * s1 + 4096 * s2 + 64 * s3 + s4.
Proof.
  intros H1 H2 H3 H4.
  unfold crc_chain, crc_switch. cbn [Z.eqb Pos.eqb snd].
  rewrite crc_byte1, crc_byte2, crc_byte3 by assumption.
  rewrite crc_bytes by (Z.div_mod_to_equations; lia).
  Z.div_mod_to_equations; lia.
Qed.

(** The inputs that the CRC loop accepts are those of the specification. *)
Lemma trailer_accepted_spec (crc : Z) (l : list Z) :
  trailer_accepted crc l = crc_trailer_ok crc l.
Proof.
  destruct l as [|c1 [|c2 [|c3 [|c4 [|c5 l]]]]]; try reflexivity.
  unfold trailer_accepted, crc_trailer_ok, crc_of_chars.
  rewrite (asctobin_digit c1), (asctobin_digit c2),
          (asctobin_digit c3), (asctobin_digit c4).
  destruct (radix64_digit c1) as [s1|] eqn:E1; [|reflexivity].
  apply radix64_digit_range in E1.
  replace (s1 =? 255) with false by (symmetry; apply Z.eqb_neq; lia).
  destruct (radix64_digit c2) as [s2|] eqn:E2; [|reflexivity].
  apply radix64_digit_range in E2.
  replace (s2 =? 255) with false by (symmetry; apply Z.eqb_neq; lia).
  destruct (radix64_digit c3) as [s3|] eqn:E3; [|reflexivity].
  apply radix64_digit_range in E3.
  replace (s3 =? 255) with false by (symmetry; apply Z.eqb_neq; lia).
  destruct (radix64_digit c4) as [s4|] eqn:E4; [|reflexivity].
  apply radix64_digit_range in E4.
  replace (s4 =? 255) with false by (symmetry; apply Z.eqb_neq; lia).
  cbn [negb andb]. rewrite crc_chain_value by assumption. reflexivity.
Qed.

(** C3, as the code has it: once the decoding loop has met the pad
    character, the call has decoded at least one byte, and a character
    follows the pad characters and blanks, [radix64_read] returns success
    when four characters of the alphabet encode the running CRC and one
    more byte of input follows them, and InvalidArmor otherwise (CRC
    mismatch, a character outside the alphabet among the four, end of
    input within the four or right after them).  What follows the CRC
    (the END line) is not looked at. *)
Theorem radix64_read_crc_check
  (afx : armor_filter_context_t) (a : list Z) (size : Z) (c : Z) (a2 : list Z) :
  let b := radix_loop size a [] (idx afx) (radbuf0 afx) in
  rb_checkcrc b = true ->
  rb_buf b <> [] ->
  skip_pad (rb_rest b) = (Some c, a2) ->
  rr_rc (radix64_read afx a size) =
    if crc_trailer_ok (crc_update (crc afx) (rb_buf b)) (c :: a2)
    then RC_OK else RC_ERR G10ERR_INVALID_ARMOR.
Proof.
  intros b Hcheck Hbuf Hskip.
  unfold radix64_read. fold b. rewrite Hcheck, Hskip.
  rewrite <- trailer_accepted_spec.
  rewrite <- (crc_loop_verdict (crc_update (crc afx) (rb_buf b)) c (rb_val b) a2).
  destruct (rb_buf b) as [|x xs] eqn:Eb; [contradiction|].
  destruct (crc_loop 4 0 c a2 (rb_val b) 0) as [[[c' idx'] mycrc] a3].
  cbn [set_faked set_inp_checked set_any_data set_radbuf0 set_idx set_crc crc].
  destruct c' as [c'|]; [|reflexivity].
  destruct (negb (idx' =? 4)); [reflexivity|].
  destruct (negb (mycrc =? crc_update (crc afx) (x :: xs))); reflexivity.
Qed.

(** A body of three zero bytes, its CRC [Je8i], a line end, and nothing
    else: the trailer is accepted. *)
Lemma radix64_read_crc_check_witness :
  rr_rc (radix64_read afx_radix
           (bytes "AAAA" ++ [LF] ++ bytes "=Je8i" ++ [LF]) 8192) =
    if crc_trailer_ok (crc_update (crc afx_radix) [0; 0; 0])
         (bytes "Je8i" ++ [LF])
    then RC_OK else RC_ERR G10ERR_INVALID_ARMOR.
Proof.
  apply (radix64_read_crc_check afx_radix
           (bytes "AAAA" ++ [LF] ++ bytes "=Je8i" ++ [LF]) 8192
           (ch "J") (bytes "e8i" ++ [LF])).
  - reflexivity.
  - discriminate.
  - reflexivity.
Defined.

(** C3 as stated fails: a body with a correct CRC after which the input
    ends, with no END line at all, is accepted, and the three bytes are
    delivered. *)
Lemma radix64_read_missing_tail_accepted :
  rr_rc (radix64_read afx_radix
           (bytes "AAAA" ++ [LF] ++ bytes "=Je8i" ++ [LF]) 8192) = RC_OK
  /\ rr_out (radix64_read afx_radix
               (bytes "AAAA" ++ [LF] ++ bytes "=Je8i" ++ [LF]) 8192) = [0; 0; 0]
  /\ rr_rest (radix64_read afx_radix
                (bytes "AAAA" ++ [LF] ++ bytes "=Je8i" ++ [LF]) 8192) = [].
Proof. repeat split. Qed.

Section FakedHeaderFacts.

Variables DIGEST_ALGO_RMD160 DIGEST_ALGO_SHA1
          DIGEST_ALGO_MD5 DIGEST_ALGO_TIGER : Z.

Local Abbreviation onepass_loop :=
  (onepass_loop DIGEST_ALGO_RMD160 DIGEST_ALGO_SHA1
                DIGEST_ALGO_MD5 DIGEST_ALGO_TIGER).
Local Abbreviation fake_header :=
  (fake_header DIGEST_ALGO_RMD160 DIGEST_ALGO_SHA1
               DIGEST_ALGO_MD5 DIGEST_ALGO_TIGER).
Local Abbreviation enabled_hashes :=
  (enabled_hashes DIGEST_ALGO_RMD160 DIGEST_ALGO_SHA1
                  DIGEST_ALGO_MD5 DIGEST_ALGO_TIGER).

(** Every pass of the loop clears one of the four bits, so the loop is
    over after at most four passes. *)
Lemma onepass_loop_masked (m : Z) :
  0 < m < 16 ->
  onepass_loop 4 m [] =
    Some (onepass_packets
            ((if Z.testbit m 0 then [DIGEST_ALGO_RMD160] else [])
          ++ (if Z.testbit m 1 then [DIGEST_ALGO_SHA1] else [])
          ++ (if Z.testbit m 2 then [DIGEST_ALGO_MD5] else [])
          ++ (if Z.testbit m 3 then [DIGEST_ALGO_TIGER] else []))).
Proof.
  intros Hm.
  assert (Hcases : m = 1 \/ m = 2 \/ m = 3 \/ m = 4 \/ m = 5 \/ m = 6 \/ m = 7
                   \/ m = 8 \/ m = 9 \/ m = 10 \/ m = 11 \/ m = 12 \/ m = 13
                   \/ m = 14 \/ m = 15) by lia.
  repeat (destruct Hcases as [-> | Hcases]; [reflexivity|]).
  subst m; reflexivity.
Qed.

Lemma testbit_masked (h : Z) (i : Z) :
  0 <= i < 4 -> Z.testbit (Z.land h 15) i = Z.testbit h i.
Proof.
  intros Hi. rewrite Z.land_spec.
  assert (Hc : i = 0 \/ i = 1 \/ i = 2 \/ i = 3) by lia.
  destruct Hc as [-> | [-> | [-> | ->]]]; simpl; apply andb_true_r.
Qed.

(** C2, as the code has it: the faked one-pass signature packets follow the
    order of the list RIPEMD160, SHA1, MD5, TIGER (not its reverse), one per
    enabled hash, each with sigclass 0x01, keyid zero and pubkey-algo zero,
    the is-last flag on the last packet only, MD5 alone when no hash is
    enabled; the plaintext packet header follows.  The loop always ends. *)
Theorem fake_header_packets (afx_hashes : Z) :
  fake_header afx_hashes =
    Some (onepass_packets (enabled_hashes afx_hashes) ++ plaintext_header).
Proof.
  unfold fake_header, enabled_hashes.
  change (Z.lor (Z.lor (Z.lor 1 2) 4) 8) with 15.
  rewrite <- (testbit_masked afx_hashes 0), <- (testbit_masked afx_hashes 1),
          <- (testbit_masked afx_hashes 2), <- (testbit_masked afx_hashes 3)
    by lia.
  assert (Hr : 0 <= Z.land afx_hashes 15 < 16).
  { change 15 with (Z.ones 4). rewrite Z.land_ones by lia.
    apply Z.mod_pos_bound; lia. }
  set (m := Z.land afx_hashes 15) in *. clearbody m.
  destruct (Z.eqb_spec m 0) as [-> | Hne].
  - reflexivity.
  - rewrite onepass_loop_masked by lia.
    assert (Hcases : m = 1 \/ m = 2 \/ m = 3 \/ m = 4 \/ m = 5 \/ m = 6 \/ m = 7
                     \/ m = 8 \/ m = 9 \/ m = 10 \/ m = 11 \/ m = 12 \/ m = 13
                     \/ m = 14 \/ m = 15) by lia.
    repeat (destruct Hcases as [-> | Hcases]; [reflexivity|]).
    subst m; reflexivity.
Qed.

End FakedHeaderFacts.

(** C2 as stated fails: with RIPEMD160 and SHA1 enabled (and the digest
    identifiers of OpenPGP) the first faked packet names RIPEMD160 and the
    flagged last one SHA1, which is the order of the list and not its
    reverse. *)
Lemma fake_header_not_reversed :
  fake_header 3 2 1 6 3 <> Some (reversed_order_packets 3 2 1 6 3)
  /\ fake_header 3 2 1 6 3 =
       Some ([0x90; 13; 3; 1; 3; 0; 0; 0; 0; 0; 0; 0; 0; 0; 0] ++
             [0x90; 13; 3; 1; 2; 0; 0; 0; 0; 0; 0; 0; 0; 0; 1] ++
             plaintext_header).
Proof.
  split; [discriminate | reflexivity].
Qed.

End ArmorFacts.

(** * Facts about the packet sequencer *)

Module MainprocFacts.
Import Mainproc.

Section SequencerFacts.

Context {X : Collaborators}.

(** ** What the tree processor leaves alone *)

Lemma same_core_refl (c : CTX) : same_core c c.
Proof. repeat split. Qed.

Lemma same_core_trans (c1 c2 c3 : CTX) :
  same_core c1 c2 -> same_core c2 c3 -> same_core c1 c3.
Proof.
  unfold same_core. intros (?&?&?&?&?&?&?) (?&?&?&?&?&?&?).
  repeat split; congruence.
Qed.

Lemma same_core_emit (e : event) (c : CTX) : same_core c (emit e c).
Proof. repeat split. Qed.

Lemma same_core_set_mfx_md (v : option MD_HANDLE) (c : CTX) :
  same_core c (set_mfx_md v c).
Proof. repeat split. Qed.

Lemma check_sig_and_print_core (c c' : CTX) (node : PACKET) :
  check_sig_and_print c node = Ok c' -> same_core c c'.
Proof.
  unfold check_sig_and_print.
  destruct (skip_verify opt).
  - intros H; inversion H; apply same_core_refl.
  - destruct (do_check_sig c node) as [[rc b]| |]; cbn [bind]; try discriminate.
    destruct node; try discriminate.
    destruct rc as [| |e].
    + destruct (batch opt && negb (rc_is_ok (check_signatures_trust sig)));
        [discriminate|].
      intros H; inversion H; apply same_core_emit.
    + intros H; inversion H.
      eapply same_core_trans; apply same_core_emit.
    + destruct e;
        try (intros H; inversion H;
             eapply same_core_trans; apply same_core_emit).
      destruct (batch opt); [discriminate|].
      intros H; inversion H; apply same_core_emit.
Qed.

Lemma check_all_core (nodes : list PACKET) : forall c c',
  check_all c nodes = Ok c' -> same_core c c'.
Proof.
  induction nodes as [|n nodes IH]; intros c c'; cbn [check_all].
  - intros H; inversion H; apply same_core_refl.
  - destruct (check_sig_and_print c n) as [c1| |] eqn:E; cbn [bind];
      try discriminate.
    intros H. eapply same_core_trans.
    + eapply check_sig_and_print_core; eassumption.
    + apply IH; assumption.
Qed.

Lemma hash_detached_core (c : CTX) (md : MD_HANDLE) (textmode : bool) :
  same_core c (snd (hash_detached c md textmode)).
Proof.
  unfold hash_detached. destruct (sigs_only c).
  - destruct (hash_datafiles md textmode). apply same_core_set_mfx_md.
  - destruct (ask_for_detached_datafile (Some md)). apply same_core_set_mfx_md.
Qed.

Lemma proc_tree_core (c c' : CTX) (node : list PACKET) :
  proc_tree c node = Ok c' -> same_core c c'.
Proof.
  unfold proc_tree.
  destruct (list_packets opt); [intros H; inversion H; apply same_core_refl|].
  destruct node as [|root node]; [discriminate|].
  destruct (pkttype root) eqn:Et;
    try (intros H; inversion H; first [apply same_core_refl | apply same_core_emit]).
  - (* a signature at the root *)
    destruct root; try discriminate.
    destruct (have_data c); cbn [negb].
    + apply check_sig_and_print_core.
    + assert (Hh := hash_detached_core c (md_open (sig_digest_algo sig) 0)
                      (sig_class sig =? 1)).
      destruct (hash_detached c (md_open (sig_digest_algo sig) 0)
                  (sig_class sig =? 1)) as [rc c1]. cbn [snd] in Hh.
      destruct (negb (rc_is_ok rc)).
      * intros H; inversion H.
        eapply same_core_trans; [exact Hh | apply same_core_emit].
      * intros H. eapply same_core_trans; [exact Hh|].
        eapply check_sig_and_print_core; eassumption.
  - (* a one-pass signature at the root *)
    destruct (have_data c); cbn [negb].
    + apply check_all_core.
    + set (md := fold_left _ _ _).
      assert (Hh := hash_detached_core c md false).
      destruct (hash_detached c md false) as [rc c1]. cbn [snd] in Hh.
      destruct (negb (rc_is_ok rc)).
      * intros H; inversion H.
        eapply same_core_trans; [exact Hh | apply same_core_emit].
      * intros H. eapply same_core_trans; [exact Hh|].
        eapply check_all_core; eassumption.
Qed.

(** [release_list] empties the list and leaves the keys alone. *)
Lemma release_list_effect (c c' : CTX) :
  release_list c = Ok c' ->
  kblist c' = []
  /\ sigs_only c' = sigs_only c /\ encrypt_only c' = encrypt_only c
  /\ dek c' = dek c /\ secmem c' = secmem c.
Proof.
  unfold release_list. destruct (kblist c) as [|root l] eqn:El.
  - intros H; inversion H; subst. repeat split; assumption.
  - destruct (proc_tree c (root :: l)) as [c1| |] eqn:Et; cbn [bind];
      try discriminate.
    apply proc_tree_core in Et. destruct Et as (Hs&He&Hd&Hm&_).
    intros Heq; inversion Heq; subst. cbn. repeat split; assumption.
Qed.

(** ** [do_check_sig] *)

(** Signatures over data (classes 0x00 and 0x01) are checked against a
    copy of the data digest, or against a fresh digest when there is
    none. *)
Lemma do_check_sig_data (c : CTX) (sig : PKT_signature) :
  sig_digest_algo sig <> 0 ->
  check_digest_algo (sig_digest_algo sig) = RC_OK ->
  sig_class sig = 0x00 \/ sig_class sig = 0x01 ->
  do_check_sig c (Pkt_signature sig) =
    Ok (signature_check sig
          (match mfx_md c with
           | Some md => md_copy md
           | None => md_open 0 0
           end), false).
Proof.
  intros Halgo Hcheck Hclass. unfold do_check_sig.
  destruct (Z.eqb_spec (sig_digest_algo sig) 0) as [E|_]; [contradiction|].
  rewrite Hcheck. destruct Hclass as [-> | ->]; reflexivity.
Qed.

(** Key signatures of the classes 0x10 to 0x13, 0x18, 0x20 and 0x30 go to
    [check_key_signature] when the root is a public key or subkey. *)
Lemma do_check_sig_key (c : CTX) (sig : PKT_signature) (root : PACKET)
  (l : list PACKET) :
  sig_digest_algo sig <> 0 ->
  check_digest_algo (sig_digest_algo sig) = RC_OK ->
  0x10 <= sig_class sig <= 0x13 \/ sig_class sig = 0x18
    \/ sig_class sig = 0x20 \/ sig_class sig = 0x30 ->
  kblist c = root :: l ->
  do_check_sig c (Pkt_signature sig) =
    if pkttype_eqb (pkttype root) PKT_PUBLIC_KEY
       || pkttype_eqb (pkttype root) PKT_PUBLIC_SUBKEY
    then Ok (check_key_signature (kblist c) (Pkt_signature sig))
    else Ok (RC_ERR G10ERR_SIG_CLASS, false).
Proof.
  intros Halgo Hcheck Hclass Hl. unfold do_check_sig.
  destruct (Z.eqb_spec (sig_digest_algo sig) 0) as [E|_]; [contradiction|].
  rewrite Hcheck, Hl. cbn [root_type].
  assert (Hc : sig_class sig = 0x10 \/ sig_class sig = 0x11
               \/ sig_class sig = 0x12 \/ sig_class sig = 0x13
               \/ sig_class sig = 0x18 \/ sig_class sig = 0x20
               \/ sig_class sig = 0x30) by lia.
  destruct Hc as [-> | [-> | [-> | [-> | [-> | [-> | ->]]]]]]; reflexivity.
Qed.

(** C5 on the code: a key signature of class 0x14, 0x15, 0x16 or 0x17 is
    refused with SigClass whatever the root of the list is; the test
    [(sig_class & ~3) == 0x10] covers the classes 0x10 to 0x13 only, while
    the comment next to it names the classes 0x10 to 0x17. *)
Theorem do_check_sig_class_0x14_refused (c : CTX) (sig : PKT_signature) :
  sig_digest_algo sig <> 0 ->
  check_digest_algo (sig_digest_algo sig) = RC_OK ->
  0x14 <= sig_class sig <= 0x17 ->
  do_check_sig c (Pkt_signature sig) = Ok (RC_ERR G10ERR_SIG_CLASS, false).
Proof.
  intros Halgo Hcheck Hclass. unfold do_check_sig.
  destruct (Z.eqb_spec (sig_digest_algo sig) 0) as [E|_]; [contradiction|].
  rewrite Hcheck.
  assert (Hc : sig_class sig = 0x14 \/ sig_class sig = 0x15
               \/ sig_class sig = 0x16 \/ sig_class sig = 0x17) by lia.
  destruct Hc as [-> | [-> | [-> | ->]]]; reflexivity.
Qed.

(** ** [proc_encrypted] *)

(** Whatever the context, the DEK is freed and the flag is reset. *)
Lemma proc_encrypted_clears (c : CTX) (ed : Z) :
  dek (proc_encrypted c ed) = None
  /\ last_was_session_key (proc_encrypted c ed) = 0
  /\ (dek_accounted c -> secmem (proc_encrypted c ed) = 0)
  /\ kblist (proc_encrypted c ed) = kblist c
  /\ sigs_only (proc_encrypted c ed) = sigs_only c
  /\ encrypt_only (proc_encrypted c ed) = encrypt_only c.
Proof.
  unfold proc_encrypted, dek_accounted.
  destruct (dek c) as [k|] eqn:Ed.
  - cbn [rc_is_ok]. rewrite Ed.
    destruct (decrypt_data ed (Some k)); cbn; rewrite ?Ed;
      repeat split; intros; lia.
  - destruct (last_was_session_key c =? 0).
    + cbn [rc_is_ok].
      set (algo := if negb (def_cipher_algo opt =? 0)
                   then def_cipher_algo opt else DEFAULT_CIPHER_ALGO).
      destruct (passphrase_to_dek algo None) as [k|] eqn:Ek;
        destruct (decrypt_data ed _); cbn;
        repeat split; intros; lia.
    + cbn. rewrite Ed. repeat split; intros; lia.
Qed.

(** C9: an Encrypted packet met without a DEK.  When the flag
    [last_was_session_key] is zero a DEK is derived from the passphrase
    (default cipher, no S2K) and [decrypt_data] is called with it; when the
    flag is set [decrypt_data] is not called and the failure NoSecretKey is
    reported.  In both cases the DEK is freed, nothing stays allocated and
    the flag is zero afterwards. *)
Theorem proc_encrypted_without_dek (c : CTX) (ed : Z) :
  dek c = None ->
  let c' := proc_encrypted c ed in
  let algo := if negb (def_cipher_algo opt =? 0)
              then def_cipher_algo opt else DEFAULT_CIPHER_ALGO in
  let key := passphrase_to_dek algo None in
  dek c' = None
  /\ last_was_session_key c' = 0
  /\ secmem c' = secmem c
  /\ trace c' =
       if last_was_session_key c =? 0 then
         match decrypt_data ed key with
         | RC_ERR e => [ev_log_error msg_decryption_failed (RC_ERR e)]
         | _ => []
         end ++ ev_decrypt_data ed key :: ev_passphrase_to_dek algo None :: trace c
       else
         ev_log_error msg_decryption_failed (RC_ERR G10ERR_NO_SECKEY) :: trace c.
Proof.
  intros Hdek c' algo key. subst c'. unfold proc_encrypted.
  rewrite Hdek. fold algo. fold key.
  destruct (last_was_session_key c =? 0).
  - cbn [rc_is_ok].
    destruct key as [k|]; destruct (decrypt_data ed _); cbn;
      repeat split; lia.
  - cbn. rewrite Hdek. repeat split.
Qed.

(** ** The effect of one dispatch *)

Lemma add_kbnode_ok (root : list PACKET) (node : PACKET) (l : list PACKET) :
  add_kbnode root node = Ok l -> root <> [] /\ l = root ++ [node].
Proof.
  destruct root; cbn; [discriminate|].
  intros H; inversion H. split; [discriminate | reflexivity].
Qed.

Lemma add_signature_step (c c' : CTX) (pkt : PACKET) (b : bool) :
  add_signature c pkt = Ok (c', b) -> list_step c c' pkt.
Proof.
  unfold add_signature, list_step.
  destruct (kblist c) as [|root l] eqn:El.
  - destruct (pkttype_eqb (pkttype pkt) PKT_SIGNATURE);
      intros H; inversion H; subst; cbn; rewrite ?El; auto 10.
  - destruct (add_kbnode (root :: l) pkt) as [l'| |] eqn:Ea; cbn [bind];
      try discriminate.
    apply add_kbnode_ok in Ea. destruct Ea as [Hne ->].
    intros H; inversion H; subst; cbn. rewrite ?El. auto 10.
Qed.

Lemma add_user_id_step (c c' : CTX) (pkt : PACKET) (b : bool) :
  add_user_id c pkt = Ok (c', b) -> list_step c c' pkt.
Proof.
  unfold add_user_id, list_step.
  destruct (kblist c) as [|root l] eqn:El.
  - intros H; inversion H; subst; cbn; rewrite ?El; auto 10.
  - destruct (add_kbnode (root :: l) pkt) as [l'| |] eqn:Ea; cbn [bind];
      try discriminate.
    apply add_kbnode_ok in Ea. destruct Ea as [Hne ->].
    intros H; inversion H; subst; cbn. rewrite ?El. auto 10.
Qed.

Lemma add_subkey_step (c c' : CTX) (pkt : PACKET) (b : bool) :
  add_subkey c pkt = Ok (c', b) -> list_step c c' pkt.
Proof.
  unfold add_subkey, list_step.
  destruct (kblist c) as [|root l] eqn:El.
  - intros H; inversion H; subst; cbn; rewrite ?El; auto 10.
  - destruct (add_kbnode (root :: l) pkt) as [l'| |] eqn:Ea; cbn [bind];
      try discriminate.
    apply add_kbnode_ok in Ea. destruct Ea as [Hne ->].
    intros H; inversion H; subst; cbn. rewrite ?El. auto 10.
Qed.

(** Behind a root that is not a one-pass signature the list is released
    first, and [add_kbnode] then meets the NULL root: the call does not
    return. *)
Lemma add_onepass_sig_step (c c' : CTX) (pkt : PACKET) (b : bool) :
  add_onepass_sig c pkt = Ok (c', b) -> list_step c c' pkt.
Proof.
  unfold add_onepass_sig, list_step.
  destruct (kblist c) as [|root l] eqn:El.
  - intros H; inversion H; subst; cbn; rewrite ?El; auto 10.
  - destruct (pkttype_eqb (pkttype root) PKT_ONEPASS_SIG); cbn [negb].
    + cbn [bind]. rewrite El.
      cbn [add_kbnode bind].
      intros H; inversion H; subst; cbn. rewrite ?El.
      repeat split. right; left. split; [discriminate | reflexivity].
    + destruct (release_list _) as [c1| |] eqn:Er; cbn [bind];
        try discriminate.
      apply release_list_effect in Er. destruct Er as (Hnil & _).
      rewrite Hnil. cbn. discriminate.
Qed.

Lemma proc_pubkey_enc_list (c : CTX) (enc : PKT_pubkey_enc) :
  kblist (proc_pubkey_enc c enc) = kblist c
  /\ sigs_only (proc_pubkey_enc c enc) = sigs_only c
  /\ encrypt_only (proc_pubkey_enc c enc) = encrypt_only c.
Proof.
  unfold proc_pubkey_enc.
  destruct (is_ELGAMAL _ || _ || is_RSA _).
  - destruct (get_session_key enc) as [[| |e] k]; cbn; auto.
  - cbn; auto.
Qed.

Lemma proc_symkey_enc_list (c : CTX) (enc : PKT_symkey_enc) :
  kblist (proc_symkey_enc c enc) = kblist c
  /\ sigs_only (proc_symkey_enc c enc) = sigs_only c
  /\ encrypt_only (proc_symkey_enc c enc) = encrypt_only c.
Proof.
  unfold proc_symkey_enc.
  destruct (negb (ske_seskeylen enc =? 0)); cbn; auto.
Qed.

Lemma proc_plaintext_keeps (c : CTX) (pt : Z) : keeps c (proc_plaintext c pt).
Proof.
  unfold proc_plaintext.
  set (md := fold_left md_enable _ _).
  set (cs := existsb is_clearsig_onepass (kblist c)).
  destruct (handle_plaintext pt (Some md) (sigs_only c) cs) as [rc md'].
  assert (Hk : forall r m,
    keeps c (set_last_was_session_key 0
               (if negb (rc_is_ok r)
                then emit (ev_log_error msg_handle_plaintext_failed r)
                          (set_mfx_md m c)
                else set_mfx_md m c))).
  { intros r m. destruct (negb (rc_is_ok r)); repeat split. }
  destruct rc as [| |e]; try apply Hk.
  destruct e; try apply Hk.
  destruct (negb (sigs_only c)); [|apply Hk].
  destruct (handle_plaintext pt md' true cs). apply Hk.
Qed.

Lemma proc_compressed_keeps (c : CTX) (zd : Z) : keeps c (proc_compressed c zd).
Proof.
  unfold proc_compressed.
  destruct (negb (rc_is_ok _)); repeat split.
Qed.

Lemma proc_pubkey_enc_dek (c : CTX) (enc : PKT_pubkey_enc) :
  dek_accounted c ->
  dek_accounted (proc_pubkey_enc c enc)
  /\ (dek (proc_pubkey_enc c enc) <> None -> dek c = None ->
      acquires (Pkt_pubkey_enc enc)).
Proof.
  unfold dek_accounted, proc_pubkey_enc, acquires. intros Hacc.
  destruct (is_ELGAMAL _ || _ || is_RSA _) eqn:Ealgo.
  - destruct (get_session_key enc) as [rc k] eqn:Eg.
    destruct rc as [| |e]; cbn; destruct (dek c); cbn;
      (split; [lia | intros; try congruence; auto]).
  - cbn. split; [assumption|]. intros Hd Hn. congruence.
Qed.

Lemma proc_symkey_enc_dek (c : CTX) (enc : PKT_symkey_enc) :
  dek_accounted c ->
  dek c = None ->
  dek_accounted (proc_symkey_enc c enc)
  /\ (dek (proc_symkey_enc c enc) <> None -> acquires (Pkt_symkey_enc enc)).
Proof.
  unfold dek_accounted, proc_symkey_enc, acquires. intros Hacc Hnone.
  rewrite Hnone in Hacc.
  destruct (Z.eqb_spec (ske_seskeylen enc) 0) as [E0|N0]; cbn [negb].
  - destruct (passphrase_to_dek _ _) as [k|] eqn:Ek; cbn.
    + split; [lia|]. intros _. split; [assumption | congruence].
    + split; [lia|]. intros H; contradiction.
  - cbn. rewrite Hnone. split; [assumption|]. intros H; contradiction.
Qed.

Lemma proc_pubkey_enc_same_list (c : CTX) (enc : PKT_pubkey_enc) :
  same_list c (proc_pubkey_enc c enc).
Proof.
  destruct (proc_pubkey_enc_list c enc) as (?&?&?). repeat split; assumption.
Qed.

Lemma proc_symkey_enc_same_list (c : CTX) (enc : PKT_symkey_enc) :
  same_list c (proc_symkey_enc c enc).
Proof.
  destruct (proc_symkey_enc_list c enc) as (?&?&?). repeat split; assumption.
Qed.

Lemma proc_encrypted_same_list (c : CTX) (ed : Z) :
  same_list c (proc_encrypted c ed).
Proof.
  destruct (proc_encrypted_clears c ed) as (_&_&_&?&?&?).
  repeat split; assumption.
Qed.

Lemma proc_plaintext_same_list (c : CTX) (pt : Z) :
  same_list c (proc_plaintext c pt).
Proof.
  destruct (proc_plaintext_keeps c pt) as (?&?&_&_&?). repeat split; assumption.
Qed.

Lemma proc_compressed_same_list (c : CTX) (zd : Z) :
  same_list c (proc_compressed c zd).
Proof.
  destruct (proc_compressed_keeps c zd) as (?&?&_&_&?).
  repeat split; assumption.
Qed.

Lemma done_move (c c1 c' : CTX) (pkt : PACKET) :
  same_list c c1 ->
  done c1 = Ok (Some c') -> list_move c c' pkt.
Proof.
  intros (H1 & H2 & H3) H. inversion H; subst. unfold list_move. auto.
Qed.

Lemma added_move (c c' : CTX) (pkt : PACKET) (r : outcome (CTX * bool)) :
  (forall c1 b, r = Ok (c1, b) -> list_step c c1 pkt) ->
  appendable (pkttype pkt) = true ->
  added r = Ok (Some c') -> list_move c c' pkt.
Proof.
  intros Hr Happ. unfold added.
  destruct r as [[c1 b]| |]; cbn [bind]; try discriminate.
  intros H; inversion H; subst.
  destruct (Hr c' b eq_refl) as (H1 & H2 & _ & _ & Hl).
  unfold list_move. split; [assumption|]. split; [assumption|].
  destruct Hl as [Hl | [[Hne Hl] | Hl]]; auto.
Qed.

Lemma dispatch_list (c c' : CTX) (pkt : PACKET) :
  dispatch c pkt = Ok (Some c') -> list_move c c' pkt.
Proof.
  unfold dispatch.
  destruct (list_packets opt); [|destruct (sigs_only c) eqn:Es;
                                  [|destruct (encrypt_only c) eqn:Ee]].
  all: destruct pkt;
    try discriminate;
    try (apply done_move; repeat split; reflexivity);
    try (apply done_move; apply proc_pubkey_enc_same_list);
    try (apply done_move; apply proc_symkey_enc_same_list);
    try (apply done_move; apply proc_encrypted_same_list);
    try (apply done_move; apply proc_plaintext_same_list);
    try (apply done_move; apply proc_compressed_same_list);
    try (apply added_move; [intros ? ?; apply add_signature_step | reflexivity]);
    try (apply added_move; [intros ? ?; apply add_onepass_sig_step | reflexivity]);
    try (apply added_move; [intros ? ?; apply add_subkey_step | reflexivity]);
    try (apply added_move; [intros ? ?; apply add_user_id_step | reflexivity]).
  (* a key at the root of a new list *)
  all: destruct (release_list c) as [c1| |] eqn:Er; cbn [bind];
    try discriminate;
    intros Heq; inversion Heq; subst; unfold list_move; cbn;
    apply release_list_effect in Er; destruct Er as (_ & Hs & He & _);
    auto.
Qed.

(** ** The DEK across one dispatch *)

Lemma dek_after_unchanged (c c1 : CTX) (pkt : PACKET) :
  dek_accounted c ->
  (dek c <> None -> pkttype pkt = PKT_ENCRYPTED) ->
  pkttype pkt <> PKT_ENCRYPTED ->
  dek c1 = dek c ->
  secmem c1 = secmem c ->
  dek_after c1 pkt.
Proof.
  unfold dek_after, dek_accounted. intros Hacc Hheld Hne Hd Hs.
  rewrite Hd, Hs. split; [assumption|]. split.
  - intros H. exfalso. auto.
  - intros H. contradiction.
Qed.

Lemma done_dek (c1 c' : CTX) (pkt : PACKET) :
  dek_after c1 pkt -> done c1 = Ok (Some c') -> dek_after c' pkt.
Proof. intros H Heq. inversion Heq; subst. assumption. Qed.

Lemma added_dek (c c' : CTX) (pkt : PACKET) (r : outcome (CTX * bool)) :
  dek_accounted c ->
  (dek c <> None -> pkttype pkt = PKT_ENCRYPTED) ->
  pkttype pkt <> PKT_ENCRYPTED ->
  (forall c1 b, r = Ok (c1, b) -> list_step c c1 pkt) ->
  added r = Ok (Some c') -> dek_after c' pkt.
Proof.
  intros Hacc Hheld Hne Hr. unfold added.
  destruct r as [[c1 b]| |]; cbn [bind]; try discriminate.
  intros H; inversion H; subst.
  destruct (Hr c' b eq_refl) as (_ & _ & Hd & Hs & _).
  eapply dek_after_unchanged; eassumption.
Qed.

Lemma dispatch_dek (c c' : CTX) (pkt : PACKET) :
  dek_accounted c ->
  (dek c <> None -> pkttype pkt = PKT_ENCRYPTED) ->
  dispatch c pkt = Ok (Some c') ->
  dek_after c' pkt.
Proof.
  intros Hacc Hheld.
  assert (Hsame : forall c1, pkttype pkt <> PKT_ENCRYPTED ->
            dek c1 = dek c -> secmem c1 = secmem c -> dek_after c1 pkt).
  { intros c1 Hne. now apply dek_after_unchanged. }
  assert (Hpub : forall enc, pkt = Pkt_pubkey_enc enc ->
            dek_after (proc_pubkey_enc c enc) pkt).
  { intros enc ->. destruct (proc_pubkey_enc_dek c enc Hacc) as [Ha Hq].
    split; [assumption|]. split; [|discriminate].
    intros Hd. apply Hq; [assumption|].
    destruct (dek c) eqn:Ed; [|reflexivity].
    assert (Habs : Some d <> None) by discriminate.
    apply Hheld in Habs. discriminate Habs. }
  assert (Hsym : forall enc, pkt = Pkt_symkey_enc enc ->
            dek_after (proc_symkey_enc c enc) pkt).
  { intros enc ->.
    assert (Hnone : dek c = None).
    { destruct (dek c) eqn:Ed; [|reflexivity].
      assert (Habs : Some d <> None) by discriminate.
      apply Hheld in Habs. discriminate Habs. }
    destruct (proc_symkey_enc_dek c enc Hacc Hnone) as [Ha Hq].
    split; [assumption|]. split; [assumption | discriminate]. }
  assert (Henc : forall ed, pkt = Pkt_encrypted ed ->
            dek_after (proc_encrypted c ed) pkt).
  { intros ed ->. destruct (proc_encrypted_clears c ed) as (Hd & _ & Hs & _).
    unfold dek_after, dek_accounted. rewrite Hd, (Hs Hacc).
    split; [reflexivity|]. split; [intros H; contradiction | reflexivity]. }
  unfold dispatch.
  destruct (list_packets opt); [|destruct (sigs_only c) eqn:Es;
                                  [|destruct (encrypt_only c) eqn:Ee]].
  all: destruct pkt;
    try discriminate;
    try (apply done_dek; apply Hsame; [discriminate | reflexivity | reflexivity]);
    try (apply done_dek; apply Hpub; reflexivity);
    try (apply done_dek; apply Hsym; reflexivity);
    try (apply done_dek; apply Henc; reflexivity);
    try (apply done_dek; apply Hsame; [discriminate | apply proc_plaintext_keeps
                                       | apply proc_plaintext_keeps]);
    try (apply done_dek; apply Hsame; [discriminate | apply proc_compressed_keeps
                                       | apply proc_compressed_keeps]);
    try (apply (added_dek c); try assumption;
         [discriminate | intros ? ?; apply add_signature_step]);
    try (apply (added_dek c); try assumption;
         [discriminate | intros ? ?; apply add_onepass_sig_step]);
    try (apply (added_dek c); try assumption;
         [discriminate | intros ? ?; apply add_subkey_step]);
    try (apply (added_dek c); try assumption;
         [discriminate | intros ? ?; apply add_user_id_step]).
  (* a key at the root of a new list *)
  all: destruct (release_list c) as [c1| |] eqn:Er; cbn [bind];
    try discriminate;
    apply done_dek; apply Hsame; try discriminate;
    apply release_list_effect in Er; destruct Er as (_ & _ & _ & Hd & Hs);
    assumption.
Qed.

(** ** One pass of the loop and runs *)

Lemma cleanup_keeps (c : CTX) (pkt : PACKET) :
  sigs_only (cleanup c pkt) = sigs_only c
  /\ encrypt_only (cleanup c pkt) = encrypt_only c
  /\ kblist (cleanup c pkt) = kblist c.
Proof.
  unfold cleanup. destruct (dek c); [|auto].
  destruct (negb _); auto.
Qed.

Lemma cleanup_dek (c : CTX) (pkt : PACKET) :
  dek_accounted c ->
  dek_accounted (cleanup c pkt)
  /\ (dek (cleanup c pkt) <> None ->
      pkttype pkt = PKT_ENCRYPTED /\ dek c <> None)
  /\ (pkttype pkt <> PKT_ENCRYPTED ->
      dek (cleanup c pkt) = None /\ secmem (cleanup c pkt) = 0).
Proof.
  unfold cleanup, dek_accounted. intros Hacc.
  destruct (dek c) as [k|] eqn:Ed.
  - destruct (pkttype pkt) eqn:Et; cbn; rewrite ?Ed;
      (split; [lia|]); split; intros H;
      try contradiction; try (split; [reflexivity | first [lia | discriminate]]).
  - rewrite Ed. split; [assumption|]. split; [intros H; contradiction|].
    intros _. split; [reflexivity | assumption].
Qed.

Lemma set_have_data_same (b : bool) (c : CTX) :
  sigs_only (set_have_data b c) = sigs_only c
  /\ encrypt_only (set_have_data b c) = encrypt_only c
  /\ kblist (set_have_data b c) = kblist c
  /\ dek (set_have_data b c) = dek c
  /\ secmem (set_have_data b c) = secmem c.
Proof. repeat split. Qed.

(** The shape of one pass. *)
Lemma proc_packet_cases (c : CTX) (p : parsed) (r : pass_result) :
  proc_packet c p = Ok r ->
  (fst p <> RC_OK /\ ctx_of r = cleanup c (snd p)
   /\ (r = Continue (cleanup c (snd p)) \/ r = Break (cleanup c (snd p))))
  \/ (fst p = RC_OK /\ dispatch (cleanup c (snd p)) (snd p) = Ok None
      /\ r = Leave (RC_ERR G10ERR_UNEXPECTED) (cleanup c (snd p)))
  \/ (fst p = RC_OK
      /\ exists c1, dispatch (cleanup c (snd p)) (snd p) = Ok (Some c1)
         /\ r = Continue
                  (if negb (pkttype_eqb (pkttype (snd p)) PKT_SIGNATURE)
                   then set_have_data
                          (pkttype_eqb (pkttype (snd p)) PKT_PLAINTEXT) c1
                   else c1)).
Proof.
  destruct p as [rc pkt]. unfold proc_packet. cbn [fst snd].
  destruct rc as [| |e].
  - destruct (dispatch (cleanup c pkt) pkt) as [[c1|]| |] eqn:Ed;
      cbn [bind]; try discriminate; intros H; inversion H; subst.
    + right; right. split; [reflexivity|]. exists c1. auto.
    + right; left. auto.
  - intros H; inversion H; subst. left.
    split; [discriminate|]. split; [reflexivity|]. now left.
  - destruct e; intros H; inversion H; subst; left;
      (split; [discriminate|]); (split; [reflexivity|]); auto.
Qed.

Lemma proc_packet_list (c : CTX) (p : parsed) (r : pass_result) :
  proc_packet c p = Ok r -> list_move c (ctx_of r) (snd p).
Proof.
  intros H. apply proc_packet_cases in H.
  destruct (cleanup_keeps c (snd p)) as (Hs & He & Hl).
  destruct H as [(_ & Hc & _) | [(_ & _ & ->) | (_ & c1 & Hd & ->)]].
  - rewrite Hc. unfold list_move. auto.
  - cbn [ctx_of]. unfold list_move. auto.
  - apply dispatch_list in Hd. cbn [ctx_of].
    assert (Hm : list_move (cleanup c (snd p)) c1 (snd p)) by exact Hd.
    unfold list_move in *. rewrite Hs, He, Hl in Hm.
    destruct (negb _); cbn; exact Hm.
Qed.

Lemma proc_packet_dek (c : CTX) (p : parsed) (r : pass_result) :
  dek_accounted c ->
  proc_packet c p = Ok r ->
  dek_accounted (ctx_of r)
  /\ (dek (ctx_of r) <> None ->
      (fst p = RC_OK /\ acquires (snd p))
      \/ (failed_encrypted p /\ dek c <> None)
      \/ (exists rc, r = Leave rc (ctx_of r))).
Proof.
  intros Hacc H. apply proc_packet_cases in H.
  destruct (cleanup_dek c (snd p) Hacc) as (Hca & Hch & _).
  destruct H as [(Hrc & Hc & _) | [(_ & _ & ->) | (Hrc & c1 & Hd & ->)]].
  - rewrite Hc. split; [assumption|]. intros Hne.
    right; left. destruct (Hch Hne). split; [split|]; assumption.
  - cbn [ctx_of]. split; [assumption|]. intros _. right; right. eauto.
  - apply dispatch_dek in Hd; [|assumption|intros Hne; apply Hch; assumption].
    destruct Hd as (Ha & Hq & _). cbn [ctx_of].
    destruct (negb _); cbn; (split; [exact Ha|]); intros Hne; left; auto.
Qed.

Lemma run_cons (c : CTX) (p : parsed) (a : list parsed) :
  run c (p :: a) =
    if rc_is_eof (fst p) then Ok (Break c)
    else r <- proc_packet c p ;;
         match r with
         | Continue c' => run c' a
         | other => Ok other
         end.
Proof. reflexivity. Qed.

Lemma run_continue_cons (c c' : CTX) (p : parsed) (a : list parsed) :
  run c (p :: a) = Ok (Continue c') ->
  rc_is_eof (fst p) = false
  /\ exists c1, proc_packet c p = Ok (Continue c1) /\ run c1 a = Ok (Continue c').
Proof.
  rewrite run_cons. destruct (rc_is_eof (fst p)); [discriminate|].
  destruct (proc_packet c p) as [[c1|c1|rc c1]| |]; cbn [bind];
    try discriminate.
  intros H. split; [reflexivity|]. exists c1. auto.
Qed.

Lemma proc_loop_after_run (pre : list parsed) : forall c c1 rest,
  run c pre = Ok (Continue c1) ->
  proc_loop c (pre ++ rest) = proc_loop c1 rest.
Proof.
  induction pre as [|p pre IH]; intros c c1 rest H.
  - cbn in H. inversion H; subst. reflexivity.
  - apply run_continue_cons in H. destruct H as (Heof & c2 & Hp & Hr).
    cbn [app proc_loop]. rewrite Heof, Hp. cbn [bind]. apply IH. assumption.
Qed.

Lemma run_modes (a : list parsed) : forall c r,
  run c a = Ok r ->
  sigs_only (ctx_of r) = sigs_only c /\ encrypt_only (ctx_of r) = encrypt_only c.
Proof.
  induction a as [|p a IH]; intros c r H.
  - cbn in H. inversion H; subst. auto.
  - rewrite run_cons in H. destruct (rc_is_eof (fst p)).
    + inversion H; subst. auto.
    + destruct (proc_packet c p) as [r1| |] eqn:Ep; cbn [bind] in H;
        try discriminate.
      apply proc_packet_list in Ep. destruct Ep as (Hs & He & _).
      destruct r1 as [c1|c1|rc c1]; cbn [ctx_of] in *.
      * apply IH in H. destruct H. split; congruence.
      * inversion H; subst. auto.
      * inversion H; subst. auto.
Qed.

(** ** The modes for signatures and for encryption *)

Lemma dispatch_rejected (c : CTX) (pkt : PACKET) :
  list_packets opt = false ->
  (sigs_only c || encrypt_only c) = true ->
  rejected (sigs_only c) (pkttype pkt) = true ->
  dispatch c pkt = Ok None.
Proof.
  intros Hlp Hmode Hrej. unfold dispatch. rewrite Hlp.
  destruct (sigs_only c); [|cbn in Hmode; rewrite Hmode];
    destruct pkt; try discriminate; reflexivity.
Qed.

Lemma dispatch_subkey (c : CTX) (pkt : PACKET) :
  list_packets opt = false ->
  (sigs_only c || encrypt_only c) = true ->
  is_subkey (pkttype pkt) = true ->
  dispatch c pkt = Ok (Some c).
Proof.
  intros Hlp Hmode Hsub. unfold dispatch. rewrite Hlp.
  destruct (sigs_only c); [|cbn in Hmode; rewrite Hmode];
    destruct pkt; try discriminate; reflexivity.
Qed.

(** C4, as the code has it: with [list_packets] off, in the mode for
    signatures the loop leaves with Unexpected on the first PublicKey,
    SecretKey, UserId, SymkeyEnc, PubkeyEnc or Encrypted packet, and in the
    mode for encryption on the first PublicKey, SecretKey or UserId packet;
    the packets after it are not read.  A PublicSubkey or SecretSubkey
    packet is dropped in both modes and the loop goes on. *)
Theorem unexpected_packet_stops
  (c c1 : CTX) (pre post : list parsed) (pkt : PACKET) :
  list_packets opt = false ->
  (sigs_only c || encrypt_only c) = true ->
  run c pre = Ok (Continue c1) ->
  (rejected (sigs_only c) (pkttype pkt) = true ->
   proc_loop c (pre ++ (RC_OK, pkt) :: post) =
     Ok (RC_ERR G10ERR_UNEXPECTED, cleanup c1 pkt, post))
  /\ (is_subkey (pkttype pkt) = true ->
      proc_loop c (pre ++ (RC_OK, pkt) :: post) =
        proc_loop (set_have_data false (cleanup c1 pkt)) post).
Proof.
  intros Hlp Hmode Hrun.
  rewrite (proc_loop_after_run pre c c1 _ Hrun).
  destruct (run_modes pre c _ Hrun) as [Hs He]. cbn [ctx_of] in Hs, He.
  destruct (cleanup_keeps c1 pkt) as (Hcs & Hce & _).
  assert (Hmode' : (sigs_only (cleanup c1 pkt) || encrypt_only (cleanup c1 pkt))
                   = true) by (rewrite Hcs, Hce, Hs, He; exact Hmode).
  cbn [proc_loop fst rc_is_eof proc_packet]. split; intros Ht.
  - rewrite dispatch_rejected; auto.
    rewrite Hcs, Hs. exact Ht.
  - rewrite dispatch_subkey; auto. cbn [bind].
    destruct pkt; try discriminate; reflexivity.
Qed.

(** ** The list under a one-pass signature *)

Lemma list_move_onepass_ok (c c' : CTX) (pkt : PACKET) :
  list_move c c' pkt ->
  onepass_list_ok (kblist c) -> onepass_list_ok (kblist c').
Proof.
  intros (_ & _ & Hl) Hok. unfold onepass_list_ok in *.
  destruct Hl as [-> | [(Hne & -> & Happ) | ->]].
  - assumption.
  - destruct (kblist c) as [|root l]; [contradiction|].
    cbn [app root_type tl] in *. intros Hroot.
    apply Forall_app. split; [apply Hok; assumption|].
    constructor; [assumption | constructor].
  - intros _. constructor.
Qed.

(** C7, as the code has it: in every mode and along every run, a list with
    a one-pass signature at its root holds after the root only OnePassSig,
    Signature, UserId, PublicSubkey and SecretSubkey packets: user ids and
    subkeys are appended to any open list, whatever its root. *)
Theorem onepass_list_kept (a : list parsed) : forall (c : CTX) (r : pass_result),
  onepass_list_ok (kblist c) ->
  run c a = Ok r ->
  onepass_list_ok (kblist (ctx_of r)).
Proof.
  induction a as [|p a IH]; intros c r Hok H.
  - cbn in H. inversion H; subst. assumption.
  - rewrite run_cons in H. destruct (rc_is_eof (fst p)).
    + inversion H; subst. assumption.
    + destruct (proc_packet c p) as [r1| |] eqn:Ep; cbn [bind] in H;
        try discriminate.
      apply proc_packet_list in Ep.
      apply (list_move_onepass_ok _ _ _ Ep) in Hok.
      destruct r1 as [c1|c1|rc c1]; cbn [ctx_of] in *.
      * eapply IH; eassumption.
      * inversion H; subst. assumption.
      * inversion H; subst. assumption.
Qed.

(** ** The life of the DEK *)

Lemma run_dek_accounted (a : list parsed) : forall (c : CTX) (r : pass_result),
  dek_accounted c -> run c a = Ok r -> dek_accounted (ctx_of r).
Proof.
  induction a as [|p a IH]; intros c r Hacc H.
  - cbn in H. inversion H; subst. assumption.
  - rewrite run_cons in H. destruct (rc_is_eof (fst p)).
    + inversion H; subst. assumption.
    + destruct (proc_packet c p) as [r1| |] eqn:Ep; cbn [bind] in H;
        try discriminate.
      apply (proc_packet_dek c p r1 Hacc) in Ep. destruct Ep as [Ha _].
      destruct r1 as [c1|c1|rc c1]; cbn [ctx_of] in *.
      * eapply IH; eassumption.
      * inversion H; subst. assumption.
      * inversion H; subst. assumption.
Qed.

Lemma run_dek_held (a : list parsed) : forall (c c' : CTX),
  dek_accounted c ->
  run c a = Ok (Continue c') ->
  dek c' <> None ->
  (exists pre p errs,
      a = pre ++ p :: errs /\ fst p = RC_OK /\ acquires (snd p)
      /\ Forall failed_encrypted errs)
  \/ (dek c <> None /\ Forall failed_encrypted a).
Proof.
  induction a as [|p a IH]; intros c c' Hacc H Hheld.
  - cbn in H. inversion H; subst. right. split; [assumption | constructor].
  - apply run_continue_cons in H. destruct H as (_ & c1 & Hp & Hr).
    destruct (proc_packet_dek c p _ Hacc Hp) as [Hacc1 Hwhy].
    cbn [ctx_of] in Hacc1, Hwhy.
    destruct (IH c1 c' Hacc1 Hr Hheld) as
      [(pre & q & errs & -> & Hq1 & Hq2 & Herrs) | [Hheld1 Hfailed]].
    + left. exists (p :: pre), q, errs. auto.
    + destruct (Hwhy Hheld1) as [[Hok Hacq] | [[Hfe Hc] | [rc Hleave]]].
      * left. exists [], p, a. auto.
      * right. split; [assumption|]. constructor; assumption.
      * discriminate Hleave.
Qed.

Lemma proc_loop_ctx (a : list parsed) : forall (c c1 : CTX) rc rest,
  proc_loop c a = Ok (rc, c1, rest) ->
  exists r, run c a = Ok r /\ ctx_of r = c1.
Proof.
  induction a as [|p a IH]; intros c c1 rc rest H.
  - cbn in H. inversion H; subst. exists (Continue c1). auto.
  - cbn [proc_loop] in H. rewrite run_cons.
    destruct (rc_is_eof (fst p)).
    + inversion H; subst. exists (Break c1). auto.
    + destruct (proc_packet c p) as [[c2|c2|rc2 c2]| |]; cbn [bind] in *;
        try discriminate.
      * eapply IH; eassumption.
      * inversion H; subst. eexists; split; reflexivity.
      * inversion H; subst. eexists; split; reflexivity.
Qed.

Lemma do_proc_packets_frees (c c' : CTX) (a rest : list parsed) (rc : rc_t) :
  dek_accounted c ->
  do_proc_packets c a = Ok (rc, c', rest) ->
  secmem c' = 0
  /\ exists c1, proc_loop c a = Ok (rc, c1, rest) /\ dek c' = dek c1.
Proof.
  intros Hacc. unfold do_proc_packets.
  destruct (proc_loop c a) as [[[rc1 c1] rest1]| |] eqn:El; cbn [bind];
    try discriminate.
  pose proof El as El'.
  apply proc_loop_ctx in El. destruct El as (r & Hr & <-).
  apply (run_dek_accounted a c r Hacc) in Hr.
  destruct (release_list (ctx_of r)) as [c2| |] eqn:Er; cbn [bind];
    try discriminate.
  apply release_list_effect in Er. destruct Er as (_ & _ & _ & Hd & Hs).
  intros H; inversion H; subst. cbn.
  unfold dek_accounted in Hr. rewrite Hd, Hs.
  split; [destruct (dek (ctx_of r)); lia|].
  exists (ctx_of r). split; reflexivity.
Qed.

(** C8: along every run that starts without a DEK, as many DEKs are
    allocated as the context holds (none is lost when one is replaced); a
    DEK is held at the head of the loop only if the last packet handled
    was a PubkeyEnc or SymkeyEnc packet from which the key was obtained,
    with nothing but failed parses of Encrypted packets since; before any
    packet that is not Encrypted is handled the DEK is freed; after an
    Encrypted packet is handled no DEK is held; and when
    [do_proc_packets] returns none is allocated: the label [leave] frees
    the DEK that the loop has left, and leaves the pointer to it in the
    context, which the callers free. *)
Theorem dek_lifetime (c c' : CTX) (a : list parsed) :
  dek c = None ->
  secmem c = 0 ->
  run c a = Ok (Continue c') ->
  dek_accounted c'
  /\ (dek c' <> None ->
      exists pre p errs,
        a = pre ++ p :: errs /\ fst p = RC_OK /\ acquires (snd p)
        /\ Forall failed_encrypted errs)
  /\ (forall pkt, pkttype pkt <> PKT_ENCRYPTED ->
        dek (cleanup c' pkt) = None /\ secmem (cleanup c' pkt) = 0)
  /\ (forall ed c'',
        proc_packet c' (RC_OK, Pkt_encrypted ed) = Ok (Continue c'') ->
        dek c'' = None /\ secmem c'' = 0)
  /\ (forall a0 rc c'' rest,
        do_proc_packets c a0 = Ok (rc, c'', rest) ->
        secmem c'' = 0
        /\ exists c1, proc_loop c a0 = Ok (rc, c1, rest) /\ dek c'' = dek c1).
Proof.
  intros Hdek Hmem Hrun.
  assert (Hacc : dek_accounted c).
  { unfold dek_accounted. now rewrite Hdek, Hmem. }
  assert (Hacc' : dek_accounted c').
  { exact (run_dek_accounted a c _ Hacc Hrun). }
  split; [assumption|]. split; [|split; [|split]].
  - intros Hheld.
    destruct (run_dek_held a c c' Hacc Hrun Hheld) as [H | [Habs _]];
      [assumption | congruence].
  - intros pkt Hne. destruct (cleanup_dek c' pkt Hacc') as (_ & _ & H). auto.
  - intros ed c'' Hp.
    apply proc_packet_cases in Hp. cbn [fst snd] in Hp.
    destruct Hp as [(Habs & _) | [(_ & _ & Habs) | (_ & c1 & Hd & Hc)]];
      [congruence | discriminate |].
    destruct (cleanup_dek c' (Pkt_encrypted ed) Hacc') as (Hca & Hch & _).
    apply dispatch_dek in Hd; [|assumption | intros H; apply Hch; assumption].
    destruct Hd as (Ha & _ & Hnone).
    inversion Hc; subst. cbn.
    unfold dek_accounted in Ha. rewrite Hnone in Ha by reflexivity.
    rewrite Hnone by reflexivity. auto.
  - intros a0 rc c'' rest H.
    exact (do_proc_packets_frees c c'' a0 rest rc Hacc H).
Qed.

End SequencerFacts.

(** ** The facts on sample streams *)

#[local] Existing Instance sample_collaborators.

Lemma do_check_sig_class_0x14_refused_witness :
  do_check_sig (X := sample_collaborators) ctx_with_key (sample_signature 0x14)
  = Ok (RC_ERR G10ERR_SIG_CLASS, false).
Proof.
  apply (do_check_sig_class_0x14_refused (X := sample_collaborators)
           ctx_with_key (mk_signature (0x1234, 0x5678) 0x14 2)).
  - discriminate.
  - reflexivity.
  - cbn. lia.
Defined.

Lemma proc_encrypted_without_dek_witness :
  let c := init_ctx (X := sample_collaborators) false false in
  let c' := proc_encrypted c 0 in
  dek c' = None
  /\ last_was_session_key c' = 0
  /\ secmem c' = secmem c
  /\ trace c' =
       [ev_decrypt_data 0 (Some 4); ev_passphrase_to_dek 4 None].
Proof.
  exact (proc_encrypted_without_dek (X := sample_collaborators)
           (init_ctx false false) 0 eq_refl).
Defined.

Lemma unexpected_packet_stops_witness :
  (rejected true (pkttype sample_public_key) = true ->
   proc_loop (X := sample_collaborators) (init_ctx true false)
     ([(RC_OK, sample_signature 0)] ++ (RC_OK, sample_public_key)
        :: [(RC_OK, sample_user_id)]) =
     Ok (RC_ERR G10ERR_UNEXPECTED, cleanup ctx_sigs_one sample_public_key,
         [(RC_OK, sample_user_id)]))
  /\ (is_subkey (pkttype sample_public_key) = true ->
      proc_loop (X := sample_collaborators) (init_ctx true false)
        ([(RC_OK, sample_signature 0)] ++ (RC_OK, sample_public_key)
           :: [(RC_OK, sample_user_id)]) =
        proc_loop (set_have_data false (cleanup ctx_sigs_one sample_public_key))
          [(RC_OK, sample_user_id)]).
Proof.
  apply (unexpected_packet_stops (X := sample_collaborators)
           (init_ctx true false) ctx_sigs_one
           [(RC_OK, sample_signature 0)] [(RC_OK, sample_user_id)]
           sample_public_key); reflexivity.
Defined.

(** C4 as stated fails: in the mode for signatures and in the mode for
    encryption a PublicSubkey packet does not stop the loop; it is dropped
    and the packets after it are read, here up to the end of the stream. *)
Lemma subkey_not_rejected :
  (exists c,
      proc_loop (X := sample_collaborators) (init_ctx true false)
        [(RC_OK, Pkt_public_subkey 0); (RC_OK, sample_signature 0)]
      = Ok (RC_OK, c, []))
  /\ (exists c,
        proc_loop (X := sample_collaborators) (init_ctx false true)
          [(RC_OK, Pkt_secret_subkey 0); (RC_OK, sample_signature 0)]
        = Ok (RC_OK, c, [])).
Proof. split; eexists; reflexivity. Qed.

Lemma onepass_list_kept_witness :
  onepass_list_ok [sample_onepass; sample_user_id; sample_signature 1].
Proof.
  apply (onepass_list_kept (X := sample_collaborators)
           [(RC_OK, sample_onepass); (RC_OK, sample_user_id);
            (RC_OK, sample_signature 1)]
           (init_ctx false false)
           (Continue (mk_ctx None false false None 0
                        [sample_onepass; sample_user_id; sample_signature 1]
                        false 0 []))).
  - intros H. discriminate H.
  - reflexivity.
Defined.

(** C7 as stated fails: in the full mode a UserId packet that follows a
    OnePassSig packet is appended to the list that the OnePassSig packet
    has opened. *)
Lemma user_id_joins_onepass_list :
  exists c,
    run (X := sample_collaborators) (init_ctx false false)
      [(RC_OK, sample_onepass); (RC_OK, sample_user_id)] = Ok (Continue c)
    /\ kblist c = [sample_onepass; sample_user_id]
    /\ root_type (kblist c) = Some PKT_ONEPASS_SIG
    /\ pkttype sample_user_id = PKT_USER_ID.
Proof. eexists. repeat split. Qed.

Lemma dek_lifetime_witness :
  dek_accounted ctx_with_dek
  /\ (dek ctx_with_dek <> None ->
      exists pre p errs,
        [(RC_OK, sample_pubkey_enc)] = pre ++ p :: errs
        /\ fst p = RC_OK /\ acquires (X := sample_collaborators) (snd p)
        /\ Forall failed_encrypted errs)
  /\ (forall pkt, pkttype pkt <> PKT_ENCRYPTED ->
        dek (cleanup ctx_with_dek pkt) = None
        /\ secmem (cleanup ctx_with_dek pkt) = 0)
  /\ (forall ed c'',
        proc_packet ctx_with_dek (RC_OK, Pkt_encrypted ed) = Ok (Continue c'') ->
        dek c'' = None /\ secmem c'' = 0)
  /\ (forall a0 rc c'' rest,
        do_proc_packets (X := sample_collaborators) (init_ctx false false) a0
        = Ok (rc, c'', rest) ->
        secmem c'' = 0
        /\ exists c1,
             proc_loop (X := sample_collaborators) (init_ctx false false) a0
             = Ok (rc, c1, rest)
             /\ dek c'' = dek c1).
Proof.
  exact (dek_lifetime (X := sample_collaborators) (init_ctx false false)
           ctx_with_dek [(RC_OK, sample_pubkey_enc)] eq_refl eq_refl eq_refl).
Defined.

End MainprocFacts.

(** * Facts about the list of qualified certificates *)

Module QualifiedFacts.
Import Qualified.

(** ** Lines *)

Lemma fgets_take_split (n : nat) : forall s l r,
  fgets_take n s = (l, r) -> s = l ++ r.
Proof.
  induction n as [|n IH]; intros s l r H.
  - cbn in H. inversion H; reflexivity.
  - destruct s as [|c s]; cbn in H.
    + inversion H; reflexivity.
    + destruct (c =? LF).
      * inversion H; reflexivity.
      * destruct (fgets_take n s) as [l1 r1] eqn:E.
        inversion H; subst. cbn. f_equal. now apply IH.
Qed.

Lemma fgets_take_progress (n : nat) (c : Z) (s l r : list Z) :
  fgets_take (S n) (c :: s) = (l, r) -> (length r < length (c :: s))%nat.
Proof.
  intros H. assert (Hs := fgets_take_split _ _ _ _ H).
  cbn [fgets_take] in H. destruct (c =? LF).
  - inversion H; subst. cbn. lia.
  - destruct (fgets_take n s) as [l1 r1]. inversion H; subst.
    rewrite Hs. cbn. rewrite length_app. lia.
Qed.

Lemma fgets_shrinks (s l s' : list Z) :
  fgets 255 s = Some (l, s') -> (length s' < length s)%nat.
Proof.
  unfold fgets. destruct s as [|c s]; [discriminate|].
  intros H. inversion H as [H1]. clear H.
  exact (fgets_take_progress 253 c s l s' H1).
Qed.

Lemma chunks_fuel (fuel1 : nat) : forall fuel2 s,
  (length s <= fuel1)%nat -> (length s <= fuel2)%nat ->
  chunks fuel1 s = chunks fuel2 s.
Proof.
  induction fuel1 as [|fuel1 IH]; intros fuel2 s H1 H2.
  - destruct s; [|cbn in H1; lia]. destruct fuel2; reflexivity.
  - destruct fuel2 as [|fuel2].
    + destruct s; [reflexivity | cbn in H2; lia].
    + cbn [chunks]. destruct (fgets 255 s) as [[l s']|] eqn:E; [|reflexivity].
      apply fgets_shrinks in E. f_equal. apply IH; lia.
Qed.

Lemma file_lines_step (s l s' : list Z) :
  fgets 255 s = Some (l, s') -> file_lines s = l :: file_lines s'.
Proof.
  intros H. unfold file_lines.
  destruct s as [|c s]; [discriminate|].
  cbn [length chunks]. rewrite H. f_equal.
  apply fgets_shrinks in H. cbn [length] in H. apply chunks_fuel; lia.
Qed.

Lemma file_lines_end (s : list Z) : fgets 255 s = None -> file_lines s = [].
Proof. destruct s; [reflexivity | discriminate]. Qed.

(** The errors that a line can give. *)
Lemma parse_line_bad (l : list Z) (e : gpg_err_code_t) :
  parse_line l = Bad e ->
  e = GPG_ERR_LINE_TOO_LONG \/ e = GPG_ERR_INCOMPLETE_LINE \/ e = GPG_ERR_BAD_DATA.
Proof.
  unfold parse_line.
  destruct (_ || _).
  - destruct (cstr l); intros H; inversion H; auto.
  - destruct (match skip_spaces (cstr l) with [] => true | _ => _ end);
      [discriminate|].
    unfold parse_entry.
    destruct (scan_fingerprint _ _ _) as [[key j] rest].
    destruct (_ || _); [intros H; inversion H; auto|].
    destruct (_ && _); [discriminate | intros H; inversion H; auto].
Qed.

(** ** The search *)

Lemma search_skipped (fpr : list Z) (pre rest : list (list Z)) :
  Forall skipped pre -> search fpr (pre ++ rest) = search fpr rest.
Proof.
  induction 1 as [|l pre Hl _ IH]; [reflexivity|].
  cbn [app search]. unfold skipped in Hl. now rewrite Hl.
Qed.

Lemma search_passes (fpr : list Z) (pre rest : list (list Z)) :
  Forall (passes fpr) pre -> search fpr (pre ++ rest) = search fpr rest.
Proof.
  induction 1 as [|l pre Hl _ IH]; [reflexivity|].
  cbn [app search]. unfold passes in Hl.
  destruct (parse_line l) as [|key country|e]; [assumption | | contradiction].
  destruct (list_eqb key fpr) eqn:E; [|assumption].
  apply list_eqb_eq in E. contradiction.
Qed.

(** The search succeeds exactly when an entry matches behind lines that
    all pass. *)
Lemma search_found (fpr : list Z) (lines : list (list Z)) :
  search fpr lines = GPG_ERR_NO_ERROR <->
  exists pre l post,
    lines = pre ++ l :: post /\ Forall (passes fpr) pre /\ matches fpr l.
Proof.
  split.
  - induction lines as [|l lines IH]; [discriminate|].
    cbn [search]. destruct (parse_line l) as [|key country|e] eqn:El.
    + intros H. destruct (IH H) as (pre & m & post & -> & Hpre & Hm).
      exists (l :: pre), m, post. repeat split; auto.
      constructor; [|assumption]. unfold passes. now rewrite El.
    + destruct (list_eqb key fpr) eqn:E.
      * intros _. apply list_eqb_eq in E. subst key.
        exists [], l, lines. repeat split; auto. now exists country.
      * intros H. destruct (IH H) as (pre & m & post & -> & Hpre & Hm).
        exists (l :: pre), m, post. repeat split; auto.
        constructor; [|assumption]. unfold passes. rewrite El.
        intros ->. assert (Hr : list_eqb fpr fpr = true) by now apply list_eqb_eq.
        congruence.
    + intros ->. apply parse_line_bad in El.
      destruct El as [El | [El | El]]; discriminate El.
  - intros (pre & l & post & -> & Hpre & [country Hm]).
    rewrite search_passes by assumption. cbn [search]. rewrite Hm.
    assert (Hr : list_eqb fpr fpr = true) by now apply list_eqb_eq.
    now rewrite Hr.
Qed.

Lemma search_bad (fpr : list Z) (pre post : list (list Z)) (l : list Z)
  (e : gpg_err_code_t) :
  Forall (passes fpr) pre -> parse_line l = Bad e ->
  search fpr (pre ++ l :: post) = e.
Proof.
  intros Hpre Hl. rewrite search_passes by assumption.
  cbn [search]. now rewrite Hl.
Qed.

Lemma search_exhausted (fpr : list Z) (lines : list (list Z)) :
  Forall (passes fpr) lines -> search fpr lines = GPG_ERR_NOT_FOUND.
Proof.
  intros H. rewrite <- (app_nil_r lines). now rewrite search_passes.
Qed.

(** ** [read_list] and the loop over it *)

Lemma read_outcome_later (s s' : list Z) (l : list Z) (r : read_result) :
  file_lines s = l :: file_lines s' ->
  (length s' < length s)%nat ->
  skipped l ->
  read_outcome s' r -> read_outcome s r.
Proof.
  intros Hs Hlen Hl. unfold read_outcome.
  destruct (rd_err r).
  - intros (Hlt & pre & m & country & Hf & Hpre & Hm).
    split; [lia|]. exists (l :: pre), m, country.
    rewrite Hs, Hf. repeat split; auto.
  - intros (pre & m & post & Hf & Hpre & Hm).
    exists (l :: pre), m, post. rewrite Hs, Hf. repeat split; auto.
  - intros H. rewrite Hs. constructor; assumption.
  - intros (pre & m & post & Hf & Hpre & Hm).
    exists (l :: pre), m, post. rewrite Hs, Hf. repeat split; auto.
  - intros (pre & m & post & Hf & Hpre & Hm).
    exists (l :: pre), m, post. rewrite Hs, Hf. repeat split; auto.
  - intros (pre & m & post & Hf & Hpre & Hm).
    exists (l :: pre), m, post. rewrite Hs, Hf. repeat split; auto.
  - intros (pre & m & post & Hf & Hpre & Hm).
    exists (l :: pre), m, post. rewrite Hs, Hf. repeat split; auto.
  - intros (pre & m & post & Hf & Hpre & Hm).
    exists (l :: pre), m, post. rewrite Hs, Hf. repeat split; auto.
Qed.

(** The inner loop returns, with enough fuel. *)
Lemma read_lines_spec (fuel : nat) : forall s lnr,
  (length s < fuel)%nat ->
  exists r, read_lines fuel s lnr = Some r /\ read_outcome s r.
Proof.
  induction fuel as [|fuel IH]; intros s lnr Hfuel; [lia|].
  cbn [read_lines].
  destruct (fgets 255 s) as [[chunk s']|] eqn:Eg.
  - assert (Hlen := fgets_shrinks _ _ _ Eg).
    assert (Hstep := file_lines_step _ _ _ Eg).
    destruct (parse_line chunk) as [|key country|e] eqn:Ep.
    + destruct (IH s' (lnr + 1)) as (r & Hr & Ho); [lia|].
      exists r. split; [assumption|].
      eapply read_outcome_later; eassumption.
    + eexists. split; [reflexivity|].
      unfold read_outcome. cbn [rd_err rd_rest rd_key].
      split; [assumption|]. exists [], chunk, country. auto.
    + assert (Hbad := parse_line_bad _ _ Ep).
      destruct Hbad as [-> | [-> | ->]];
        (eexists; split; [reflexivity|]);
        unfold read_outcome; cbn [rd_err];
        exists [], chunk, (file_lines s'); auto.
  - eexists. split; [reflexivity|].
    unfold read_outcome. cbn [rd_err].
    rewrite (file_lines_end _ Eg). constructor.
Qed.

(** ** Whole lines *)

Lemma fgets_take_line (body rest : list Z) :
  forall n : nat,
  Forall (fun c => c <> LF) body -> (length body < n)%nat ->
  fgets_take n (body ++ LF :: rest) = (body ++ [LF], rest).
Proof.
  induction body as [|c body IH]; intros n Hb Hn.
  - destruct n; [cbn in Hn; lia|]. reflexivity.
  - destruct n; [cbn in Hn; lia|]. inversion Hb as [|? ? Hc Hb']; subst.
    cbn [app fgets_take].
    replace (c =? LF) with false by (symmetry; apply Z.eqb_neq; exact Hc).
    rewrite IH by (try assumption; cbn in Hn; lia). reflexivity.
Qed.

Lemma fgets_whole_line (l rest : list Z) :
  whole_line l -> fgets 255 (l ++ rest) = Some (l, rest).
Proof.
  intros (body & -> & Hb & Hn). rewrite <- app_assoc. cbn [app].
  unfold fgets. destruct (body ++ LF :: rest) eqn:E.
  - destruct body; discriminate.
  - rewrite <- E. rewrite fgets_take_line by (try assumption; lia).
    reflexivity.
Qed.

Lemma file_lines_whole (ls : list (list Z)) (rest : list Z) :
  Forall whole_line ls -> file_lines (concat ls ++ rest) = ls ++ file_lines rest.
Proof.
  induction 1 as [|l ls Hl _ IH]; [reflexivity|].
  cbn [concat]. rewrite <- app_assoc.
  rewrite (file_lines_step _ l (concat ls ++ rest)) by now apply fgets_whole_line.
  rewrite IH. reflexivity.
Qed.

(** ** A well-formed entry is an entry for [read_list] *)

Lemma hexdigit_stored (c : Z) :
  hexdigitp c = true ->
  (if ch "a" <=? c then Z.land c 0xdf else c) = upcase c
  /\ c <> NUL /\ c <> LF /\ c <> ch "#" /\ spacep c = false.
Proof.
  unfold hexdigitp, upcase, lower, spacep. change (ch "0") with 48.
  change (ch "9") with 57. change (ch "A") with 65. change (ch "F") with 70.
  change (ch "a") with 97. change (ch "f") with 102. change (ch "z") with 122.
  change (ch "#") with 35. change (ch " ") with 32. unfold NUL, LF, TAB.
  intros H.
  repeat rewrite orb_true_iff in H. repeat rewrite andb_true_iff in H.
  repeat rewrite Z.leb_le in H.
  destruct (Z.leb_spec 97 c) as [Ha|Ha].
  - assert (Hv : c = 97 \/ c = 98 \/ c = 99 \/ c = 100 \/ c = 101 \/ c = 102)
      by lia.
    destruct Hv as [-> | [-> | [-> | [-> | [-> | ->]]]]];
      repeat split; try reflexivity; discriminate.
  - replace (c <=? 122) with true by (symmetry; apply Z.leb_le; lia).
    cbn [andb].
    replace (c =? 32) with false by (symmetry; apply Z.eqb_neq; lia).
    replace (c =? 9) with false by (symmetry; apply Z.eqb_neq; lia).
    repeat split; try reflexivity; lia.
Qed.

Lemma fingerprint_char (c : Z) :
  (c =? ch ":") || hexdigitp c = true -> c <> NUL /\ c <> LF.
Proof.
  destruct (Z.eqb_spec c (ch ":")) as [Heq|Hne].
  - intros _. rewrite Heq. split; discriminate.
  - cbn [orb]. intros H. apply hexdigit_stored in H. tauto.
Qed.

Lemma fingerprint_chars (text : list Z) :
  forallb (fun c => (c =? ch ":") || hexdigitp c) text = true ->
  Forall (fun c => c <> NUL /\ c <> LF) text.
Proof.
  intros H. apply Forall_forall. intros c Hin.
  apply fingerprint_char. rewrite forallb_forall in H. exact (H c Hin).
Qed.

Lemma fingerprint_digit (text : list Z) :
  text <> [] -> hexdigitp (last text NUL) = true ->
  (0 < length (fingerprint_of text))%nat.
Proof.
  induction text as [|c text IH]; [contradiction|]. intros _ Hl.
  destruct text as [|d text].
  - cbn [last] in Hl. cbn [fingerprint_of].
    destruct (Z.eqb_spec c (ch ":")) as [->|_]; [discriminate Hl|].
    cbn. lia.
  - change (last (c :: d :: text) NUL) with (last (d :: text) NUL) in Hl.
    assert (H := IH ltac:(discriminate) Hl).
    cbn [fingerprint_of]. destruct (c =? ch ":"); [exact H | cbn; lia].
Qed.

Lemma scan_fingerprint_text (text rest : list Z) :
  forall (j : nat) (key : list Z),
  forallb (fun c => (c =? ch ":") || hexdigitp c) text = true ->
  (j + length (fingerprint_of text) <= 40)%nat ->
  text = [] \/ hexdigitp (last text NUL) = true ->
  match rest with
  | [] => True
  | c :: _ => (c =? ch ":") || hexdigitp c = false
  end ->
  scan_fingerprint (text ++ rest) j key
  = (key ++ fingerprint_of text, (j + length (fingerprint_of text))%nat, rest).
Proof.
  induction text as [|c text IH]; intros j key Hall Hlen Hlast Hrest.
  - cbn [app fingerprint_of length]. rewrite app_nil_r, Nat.add_0_r.
    destruct rest as [|r rest]; [reflexivity|].
    cbn [scan_fingerprint]. rewrite Hrest. reflexivity.
  - cbn [forallb] in Hall. apply andb_true_iff in Hall.
    destruct Hall as [Hc Hall].
    destruct Hlast as [Hlast|Hlast]; [discriminate|].
    assert (Hlast' : text = [] \/ hexdigitp (last text NUL) = true).
    { destruct text as [|d text]; [left; reflexivity | right; exact Hlast]. }
    cbn [app scan_fingerprint fingerprint_of]. rewrite Hc.
    destruct (c =? ch ":") eqn:Ec; cbn [negb andb].
    + cbn [fingerprint_of] in Hlen. rewrite Ec in Hlen.
      assert (Hj : (j < 40)%nat).
      { destruct text as [|d text].
        - apply Z.eqb_eq in Ec. subst c. discriminate Hlast.
        - pose proof (fingerprint_digit (d :: text) ltac:(discriminate) Hlast).
          lia. }
      replace (j <? 40)%nat with true by (symmetry; apply Nat.ltb_lt; exact Hj).
      apply IH; assumption.
    + cbn [fingerprint_of] in Hlen. rewrite Ec in Hlen. cbn [length] in Hlen.
      replace (j <? 40)%nat with true by (symmetry; apply Nat.ltb_lt; lia).
      cbn [orb] in Hc. destruct (hexdigit_stored c Hc) as (Hs & _).
      rewrite Hs, IH by (try assumption; lia).
      rewrite <- app_assoc. cbn [app length]. f_equal. f_equal. lia.
Qed.

Lemma skip_spaces_indent (n : nat) (l : list Z) :
  skip_spaces (repeat SP n ++ l) = skip_spaces l.
Proof. induction n as [|n IH]; [reflexivity | exact IH]. Qed.

Lemma cstr_no_nul (l : list Z) :
  Forall (fun c => c <> NUL) l -> cstr l = l.
Proof.
  induction 1 as [|c l Hc _ IH]; [reflexivity|].
  cbn [cstr]. replace (c =? NUL) with false
    by (symmetry; apply Z.eqb_neq; exact Hc).
  rewrite IH. reflexivity.
Qed.

Lemma last_app_single (l : list Z) (c d : Z) : last (l ++ [c]) d = c.
Proof.
  induction l as [|x l IH]; [reflexivity|].
  cbn [app]. destruct (l ++ [c]) eqn:E; [destruct l; discriminate|].
  cbn [last]. exact IH.
Qed.

(** The lines that the claim calls well-formed entries are entries for
    the code, with the fingerprint of the claim. *)
Lemma parse_entry_line (indent : nat) (text country : list Z) :
  fingerprint_text text = true -> country_code country = true ->
  parse_line (entry_line indent text country)
  = Entry (fingerprint_of text) country.
Proof.
  unfold fingerprint_text, country_code. intros Hf Hc.
  apply andb_true_iff in Hf. destruct Hf as [Hf Hlast].
  apply andb_true_iff in Hf. destruct Hf as [Hall Hlen].
  apply Nat.eqb_eq in Hlen.
  destruct country as [|a [|b [|x country]]]; try discriminate Hc.
  apply andb_true_iff in Hc. destruct Hc as [Ha Hb].
  assert (Hlow : forall x, lower x = true ->
            x <> NUL /\ spacep x = false /\ x <> LF).
  { unfold lower, spacep. change (ch "a") with 97. change (ch "z") with 122.
    change (ch " ") with 32. unfold NUL, LF, TAB. intros x Hx.
    apply andb_true_iff in Hx. destruct Hx as [H1 H2].
    apply Z.leb_le in H1, H2.
    replace (x =? 32) with false by (symmetry; apply Z.eqb_neq; lia).
    replace (x =? 9) with false by (symmetry; apply Z.eqb_neq; lia).
    repeat split; try reflexivity; lia. }
  destruct (Hlow a Ha) as (Ha0 & Has & _). destruct (Hlow b Hb) as (Hb0 & _).
  destruct text as [|t0 text]; [discriminate Hlen|].
  assert (Hnn : Forall (fun c => c <> NUL) (t0 :: text)).
  { eapply Forall_impl; [|exact (fingerprint_chars _ Hall)].
    cbn. intros c Hc. tauto. }
  assert (Hline : cstr (entry_line indent (t0 :: text) [a; b])
                  = entry_line indent (t0 :: text) [a; b]).
  { apply cstr_no_nul. unfold entry_line.
    apply Forall_app. split.
    - clear. induction indent; constructor; [discriminate | assumption].
    - apply Forall_app. split; [exact Hnn|].
      repeat constructor; try assumption; discriminate. }
  unfold parse_line. rewrite Hline.
  assert (Hlastline : last (entry_line indent (t0 :: text) [a; b]) NUL = LF).
  { unfold entry_line.
    change ([SP] ++ [a; b] ++ [LF]) with ([SP; a; b] ++ [LF]).
    rewrite !app_assoc. apply last_app_single. }
  rewrite Hlastline, Z.eqb_refl. cbn [negb].
  assert (Hne : match entry_line indent (t0 :: text) [a; b] with
                | [] => true
                | _ :: _ => false
                end = false).
  { unfold entry_line. destruct indent; reflexivity. }
  rewrite Hne. cbn [orb].
  assert (Ht0 : (t0 =? ch ":") || hexdigitp t0 = true).
  { pose proof Hall as Hall'. cbn [forallb] in Hall'.
    apply andb_true_iff in Hall'. tauto. }
  assert (Ht0' : spacep t0 = false /\ (t0 =? LF) = false
                 /\ (t0 =? ch "#") = false).
  { destruct (Z.eqb_spec t0 (ch ":")) as [Heq|_];
      [rewrite Heq; repeat split|].
    cbn [orb] in Ht0. apply hexdigit_stored in Ht0.
    destruct Ht0 as (_ & _ & H1 & H2 & H3).
    repeat split; try assumption; apply Z.eqb_neq; assumption. }
  destruct Ht0' as (Hsp & Hlf & Hhash).
  assert (Hskip : skip_spaces (entry_line indent (t0 :: text) [a; b])
                  = (t0 :: text) ++ SP :: a :: b :: [LF]).
  { unfold entry_line. rewrite skip_spaces_indent.
    cbn [app skip_spaces]. rewrite Hsp. reflexivity. }
  rewrite Hskip. cbn [app]. rewrite Hlf, Hhash. cbn [orb].
  unfold parse_entry.
  change (t0 :: text ++ SP :: a :: b :: [LF])
    with ((t0 :: text) ++ SP :: a :: b :: [LF]).
  rewrite (scan_fingerprint_text (t0 :: text) (SP :: a :: b :: [LF]) 0 []);
    [| exact Hall | rewrite Hlen; cbn; lia | right; exact Hlast | reflexivity].
  rewrite Hlen. cbn [app Nat.add Nat.eqb negb orb tl at_ nth].
  change (spacep SP) with true. cbn [orb negb skip_spaces].
  rewrite Has. cbn [at_ nth]. rewrite Ha, Hb, Z.eqb_refl, orb_true_r.
  reflexivity.
Qed.

Lemma entry_line_whole (indent : nat) (text country : list Z) :
  fingerprint_text text = true -> country_code country = true ->
  (indent + length text <= 250)%nat ->
  whole_line (entry_line indent text country).
Proof.
  unfold fingerprint_text, country_code. intros Hf Hc Hn.
  apply andb_true_iff in Hf. destruct Hf as [Hf _].
  apply andb_true_iff in Hf. destruct Hf as [Hall _].
  destruct country as [|a [|b [|x country]]]; try discriminate Hc.
  apply andb_true_iff in Hc. destruct Hc as [Ha Hb].
  exists (repeat SP indent ++ text ++ [SP; a; b]). unfold entry_line.
  split; [rewrite <- !app_assoc; reflexivity|]. split.
  - assert (Hlow : forall x, lower x = true -> x <> LF).
    { unfold lower. change (ch "a") with 97. unfold LF. intros x Hx.
      apply andb_true_iff in Hx. destruct Hx as [H1 _].
      apply Z.leb_le in H1. lia. }
    apply Forall_app. split.
    + clear. induction indent; constructor; [discriminate | assumption].
    + apply Forall_app. split.
      * eapply Forall_impl; [|exact (fingerprint_chars _ Hall)].
        cbn. intros c Hc. tauto.
      * repeat constructor; auto. discriminate.
  - rewrite !length_app, repeat_length. cbn [length]. lia.
Qed.

(** ** [read_list] and the loop over it with the caller's buffers *)

Lemma lookup_outcome_skipped (pre rest : list (list Z)) :
  Forall skipped pre -> lookup_outcome (pre ++ rest) = lookup_outcome rest.
Proof.
  induction 1 as [|l pre Hl _ IH]; [reflexivity|].
  cbn [app lookup_outcome]. unfold skipped in Hl. now rewrite Hl.
Qed.

(** A line that is an entry in the claim's sense and all the lines that
    the search passes: the first of them that is not skipped is an
    entry. *)
Lemma lookup_outcome_entry (fpr : list Z) (pre post : list (list Z))
  (l : list Z) :
  Forall (passes fpr) pre -> matches fpr l ->
  lookup_outcome (pre ++ l :: post) = Undefined.
Proof.
  intros Hpre [country Hl]. induction Hpre as [|x pre Hx _ IH].
  - cbn [app lookup_outcome]. rewrite Hl. reflexivity.
  - cbn [app lookup_outcome]. unfold passes in Hx.
    destruct (parse_line x); [exact IH | reflexivity | contradiction].
Qed.

(** One pass of the loop decides: with two bytes for the country code
    the loop never sees an entry. *)
Lemma lookup_loop_spec (content fpr : list Z) (fuel : nat) (s : list Z)
  (lnr : Z) :
  exists st',
    lookup_loop (S fuel) (file_present content) (mk_state true (Some s)) lnr fpr
    = Some (match lookup_outcome (file_lines s) with
            | Undefined => Undefined
            | Returns GPG_ERR_NOT_FOUND => Returns (GPG_ERR_EOF, st')
            | Returns e => Returns (e, st')
            end)
    /\ listname st' = true /\ exists s', listfp st' = Some s'.
Proof.
  cbn [lookup_loop]. unfold read_list. cbn [Nat.ltb Nat.leb listname listfp].
  destruct (read_lines_spec (S (length s)) s lnr) as (r & Hr & Ho); [lia|].
  rewrite Hr. unfold read_outcome in Ho.
  exists (mk_state true (Some (rd_rest r))).
  split; [|split; [reflexivity | eexists; reflexivity]].
  destruct (rd_err r) eqn:Ee; cbn beta iota; rewrite ?Ee.
  - destruct Ho as (Hlt & pre & l & country & Hf & Hpre & Hl).
    rewrite Hf, lookup_outcome_skipped by assumption.
    cbn [lookup_outcome]. rewrite Hl. reflexivity.
  - destruct Ho as (pre & l & post & Hf & Hpre & Hl).
    apply parse_line_bad in Hl. destruct Hl as [Hl | [Hl | Hl]]; discriminate Hl.
  - rewrite <- (app_nil_r (file_lines s)), lookup_outcome_skipped by assumption.
    reflexivity.
  - destruct Ho as (pre & l & post & Hf & Hpre & Hl).
    apply parse_line_bad in Hl. destruct Hl as [Hl | [Hl | Hl]]; discriminate Hl.
  - destruct Ho as (pre & l & post & Hf & Hpre & Hl).
    rewrite Hf, lookup_outcome_skipped by assumption.
    cbn [lookup_outcome]. now rewrite Hl.
  - destruct Ho as (pre & l & post & Hf & Hpre & Hl).
    rewrite Hf, lookup_outcome_skipped by assumption.
    cbn [lookup_outcome]. now rewrite Hl.
  - destruct Ho as (pre & l & post & Hf & Hpre & Hl).
    rewrite Hf, lookup_outcome_skipped by assumption.
    cbn [lookup_outcome]. now rewrite Hl.
  - destruct Ho as (pre & l & post & Hf & Hpre & Hl).
    apply parse_line_bad in Hl. destruct Hl as [Hl | [Hl | Hl]]; discriminate Hl.
Qed.

(** The first call opens the list; a later call rewinds it. *)
Lemma lookup_opens (content fpr : list Z) (fuel : nat) (lnr : Z) :
  lookup_loop fuel (file_present content) fresh_state lnr fpr =
  lookup_loop fuel (file_present content) (mk_state true (Some content)) lnr fpr.
Proof. destruct fuel; reflexivity. Qed.

Lemma lookup_result (content fpr : list Z) (st : module_state) :
  list_usable st ->
  exists st',
    gpgsm_is_in_qualified_list (file_present content) st (Some fpr)
    = Some (match lookup_outcome (file_lines content) with
            | Undefined => Undefined
            | Returns e => Returns (e, st')
            end)
    /\ list_usable st'.
Proof.
  intros Hst. unfold gpgsm_is_in_qualified_list.
  assert (Hloop : exists st',
    lookup_loop (S (S (length content))) (file_present content)
      (match listfp st with
       | Some _ => mk_state (listname st) (Some content)
       | None => st
       end) 0 fpr
    = Some (match lookup_outcome (file_lines content) with
            | Undefined => Undefined
            | Returns GPG_ERR_NOT_FOUND => Returns (GPG_ERR_EOF, st')
            | Returns e => Returns (e, st')
            end)
    /\ listname st' = true /\ exists s', listfp st' = Some s').
  { destruct Hst as [-> | [Hn [s0 Hfp]]].
    - cbn [listfp fresh_state]. fold fresh_state. rewrite lookup_opens.
      apply lookup_loop_spec.
    - rewrite Hfp, Hn. apply lookup_loop_spec. }
  destruct Hloop as (st' & Hl & Hopen). rewrite Hl.
  exists st'. split; [|right; exact Hopen].
  assert (Hcodes : forall l e, parse_line l = Bad e ->
            e <> GPG_ERR_EOF /\ e <> GPG_ERR_NOT_FOUND).
  { intros l e H. apply parse_line_bad in H.
    destruct H as [-> | [-> | ->]]; split; discriminate. }
  assert (Hout : forall e, lookup_outcome (file_lines content) = Returns e ->
            e <> GPG_ERR_EOF).
  { generalize (file_lines content). intros lines.
    induction lines as [|l lines IH]; intros e; cbn [lookup_outcome].
    - intros H; inversion H; discriminate.
    - destruct (parse_line l) eqn:El; [apply IH | discriminate |].
      intros H; inversion H; subst. apply (Hcodes l); assumption. }
  destruct (lookup_outcome (file_lines content)) as [e|] eqn:Eo;
    [|reflexivity].
  specialize (Hout e eq_refl). destruct e; try reflexivity. contradiction.
Qed.

(** C10, against the code.  The claim has the lookup return 0 at a
    matching entry; the code never does.  [read_list] stores three bytes
    through [country] for every valid entry, and
    [gpgsm_is_in_qualified_list] passes it [char country[2]]: the store
    [country[2] = 0] is behind the end of that array, against the comment
    of [read_list] that asks for a buffer of at least 3 characters.  So
    with the list file present the first line that is not a comment or
    empty decides: at a valid entry (every well-formed entry of the claim
    is one, whether its fingerprint is the certificate's or not) the call
    has no defined result; at a malformed line the result is its error,
    LineTooLong for a line with no newline within its bytes (the last line
    of a file without a final newline included), IncompleteLine for a line
    that starts with a NUL byte, BadData for a malformed fingerprint or
    country code; NotFound when every line is a comment or empty.  With no
    list file the result is NotFound, without a fingerprint General. *)
Theorem qualified_list_lookup_overflow (content fpr : list Z)
  (st : module_state) :
  list_usable st ->
  let lines := file_lines content in
  let call :=
    gpgsm_is_in_qualified_list (file_present content) st (Some fpr) in
  (forall pre l post key country,
      lines = pre ++ l :: post -> Forall skipped pre ->
      parse_line l = Entry key country -> call = Some Undefined)
  /\ (forall before indent text country after,
        content = concat before ++ entry_line indent text country ++ after ->
        Forall whole_line before -> Forall skipped before ->
        fingerprint_text text = true -> country_code country = true ->
        (indent + length text <= 250)%nat ->
        call = Some Undefined)
  /\ (search (cstr fpr) lines = GPG_ERR_NO_ERROR -> call = Some Undefined)
  /\ (forall st', call <> Some (Returns (GPG_ERR_NO_ERROR, st')))
  /\ (Forall skipped lines ->
      exists st', call = Some (Returns (GPG_ERR_NOT_FOUND, st')))
  /\ (forall pre l post e,
        lines = pre ++ l :: post -> Forall skipped pre ->
        parse_line l = Bad e ->
        (exists st', call = Some (Returns (e, st')))
        /\ (e = GPG_ERR_LINE_TOO_LONG \/ e = GPG_ERR_INCOMPLETE_LINE
            \/ e = GPG_ERR_BAD_DATA)
        /\ (e = GPG_ERR_INCOMPLETE_LINE <-> cstr l = [])
        /\ (e = GPG_ERR_LINE_TOO_LONG <->
            cstr l <> [] /\ last (cstr l) NUL <> LF))
  /\ gpgsm_is_in_qualified_list file_missing fresh_state (Some fpr)
     = Some (Returns (GPG_ERR_NOT_FOUND, mk_state true None))
  /\ gpgsm_is_in_qualified_list (file_present content) st None
     = Some (Returns (GPG_ERR_GENERAL, st)).
Proof.
  intros Hst lines call.
  destruct (lookup_result content fpr st Hst) as (st1 & Hcall & _).
  fold lines in Hcall. fold call in Hcall.
  assert (Hentry : forall pre l post key country,
            lines = pre ++ l :: post -> Forall skipped pre ->
            parse_line l = Entry key country -> call = Some Undefined).
  { intros pre l post key country Hl Hpre He. rewrite Hcall, Hl.
    rewrite lookup_outcome_skipped by assumption.
    cbn [lookup_outcome]. rewrite He. reflexivity. }
  split; [exact Hentry|]. split; [|split; [|split; [|split; [|split; [|split]]]]].
  - intros before indent text country after Hc Hw Hs Hf Hcc Hn.
    apply (Hentry before (entry_line indent text country) (file_lines after)
             (fingerprint_of text) country).
    + unfold lines. rewrite Hc, file_lines_whole by assumption. f_equal.
      apply file_lines_step. apply fgets_whole_line.
      apply entry_line_whole; assumption.
    + exact Hs.
    + apply parse_entry_line; assumption.
  - intros Hs. apply search_found in Hs.
    destruct Hs as (pre & l & post & Hl & Hpre & Hm).
    rewrite Hcall, Hl, (lookup_outcome_entry (cstr fpr)) by assumption.
    reflexivity.
  - intros st' H. rewrite Hcall in H.
    assert (Hno : forall ls, lookup_outcome ls <> Returns GPG_ERR_NO_ERROR).
    { induction ls as [|l ls IH]; cbn [lookup_outcome]; [discriminate|].
      destruct (parse_line l) eqn:El; [exact IH | discriminate |].
      intros Heq. inversion Heq; subst.
      apply parse_line_bad in El. destruct El as [El | [El | El]];
        discriminate El. }
    destruct (lookup_outcome lines) as [e|] eqn:Eo; [|discriminate].
    inversion H; subst. exact (Hno lines Eo).
  - intros Hs. exists st1. rewrite Hcall.
    rewrite <- (app_nil_r lines), lookup_outcome_skipped by assumption.
    reflexivity.
  - intros pre l post e Hlines Hpre Hl. split; [|split].
    + exists st1. rewrite Hcall, Hlines.
      rewrite lookup_outcome_skipped by assumption.
      cbn [lookup_outcome]. rewrite Hl. reflexivity.
    + eapply parse_line_bad; eassumption.
    + clear - Hl. unfold parse_line in Hl.
      destruct (cstr l) as [|c line] eqn:Ec.
      * cbn in Hl. inversion Hl; subst. split; split; try reflexivity;
          try discriminate; intros [H _]; contradiction.
      * cbn [orb] in Hl.
        destruct (Z.eqb_spec (last (c :: line) NUL) LF) as [El|Nl];
          cbn [negb] in Hl.
        -- assert (Hbd : e = GPG_ERR_BAD_DATA).
           { destruct (match skip_spaces (c :: line) with [] => true | _ => _ end);
               [discriminate|].
             unfold parse_entry in Hl.
             destruct (scan_fingerprint _ _ _) as [[key j] rest].
             destruct (_ || _); [inversion Hl; reflexivity|].
             destruct (_ && _); [discriminate | inversion Hl; reflexivity]. }
           subst e. split; split; try discriminate.
           intros [_ H]. contradiction.
        -- inversion Hl; subst. split; split; try discriminate; auto.
           intros _. split; [discriminate | assumption].
  - reflexivity.
  - reflexivity.
Qed.

Lemma qualified_list_lookup_overflow_witness :
  search (cstr sample_fingerprint) (file_lines sample_list) = GPG_ERR_NO_ERROR
  /\ gpgsm_is_in_qualified_list (file_present sample_list) fresh_state
       (Some sample_fingerprint) = Some Undefined.
Proof.
  destruct (qualified_list_lookup_overflow sample_list sample_fingerprint
              fresh_state (or_introl eq_refl)) as (_ & _ & H & _).
  split; [reflexivity | exact (H eq_refl)].
Defined.

(** A line without a newline, the last line of a file without a final
    newline included, gives LineTooLong; and a malformed line ends the
    lookup with BadData, whatever comes behind it. *)
Lemma line_without_newline_is_too_long :
  (exists st,
      gpgsm_is_in_qualified_list
        (file_present (bytes "0123456789ABCDEF0123456789ABCDEF01234567 de"))
        fresh_state (Some sample_fingerprint)
      = Some (Returns (GPG_ERR_LINE_TOO_LONG, st)))
  /\ (exists st,
        gpgsm_is_in_qualified_list
          (file_present (bytes "not a fingerprint" ++ [LF] ++ sample_list))
          fresh_state (Some sample_fingerprint)
        = Some (Returns (GPG_ERR_BAD_DATA, st))).
Proof. split; eexists; reflexivity. Qed.

End QualifiedFacts.

Module ArmorCodec.
Import Armor ArmorFacts ArmorWriter.

(** ** The CRC over several buffers *)

Lemma crc_step_masked (x b : Z) : crc_step (Z.land x 0x00ffffff) b = crc_step x b.
Proof.
  unfold crc_step, to_u32.
  change 0x00ffffff with (Z.ones 24). rewrite Z.land_ones by lia.
  rewrite !Z.shiftl_mul_pow2, !Z.shiftr_div_pow2 by lia.
  change 0xff with (Z.ones 8). rewrite !Z.land_ones by lia.
  f_equal.
  - change (2 ^ 32) with (2 ^ 24 * 2 ^ 8).
    rewrite !Z.mul_mod_distr_r by lia. rewrite Z.mod_mod by lia. reflexivity.
  - do 3 f_equal.
    change (2 ^ 24) with 16777216. change (2 ^ 16) with 65536.
    change (2 ^ 8) with 256.
    Z.div_mod_to_equations. lia.
Qed.

Lemma fold_crc_step_masked (buf : list Z) (x : Z) :
  Z.land (fold_left crc_step buf (Z.land x 0x00ffffff)) 0x00ffffff
  = Z.land (fold_left crc_step buf x) 0x00ffffff.
Proof.
  destruct buf as [|b buf]; cbn [fold_left].
  - rewrite <- Z.land_assoc. reflexivity.
  - rewrite crc_step_masked. reflexivity.
Qed.

Lemma crc_update_app (c : Z) (a b : list Z) :
  crc_update (crc_update c a) b = crc_update c (a ++ b).
Proof.
  unfold crc_update. rewrite fold_left_app. apply fold_crc_step_masked.
Qed.

Lemma crc_update_range (c : Z) (buf : list Z) :
  0 <= crc_update c buf < 16777216.
Proof.
  unfold crc_update. change 0x00ffffff with (Z.ones 24).
  rewrite Z.land_ones by lia. apply Z.mod_pos_bound. lia.
Qed.

(** ** The flush over several buffers *)

Lemma encode_loop_app (a b : list Z) : forall rb i2,
  encode_loop (a ++ b) rb i2 =
  let '(o1, rb1, i1) := encode_loop a rb i2 in
  let '(o2, rb2, i2') := encode_loop b rb1 i1 in
  (o1 ++ o2, rb2, i2').
Proof.
  induction a as [|x a IH]; intros rb i2; cbn [app encode_loop].
  - destruct (encode_loop b rb i2) as [[o2 rb2] i2']. reflexivity.
  - destruct (2 <? zlen (rb ++ [x])).
    + destruct (end_group i2) as [nl j].
      rewrite IH.
      destruct (encode_loop a [] j) as [[o1 rb1] i1].
      destruct (encode_loop b rb1 i1) as [[o2 rb2] i2'].
      rewrite <- !app_assoc. reflexivity.
    + apply IH.
Qed.

Lemma armor_flush_chunks_aux (V P : list Z) (cs : option (list Z))
  (afx : ArmorWriter.armor_filter_context_t) (a b : list Z) :
  armor_flush V P cs afx (a ++ b) =
  ('(afx1, o1) <- armor_flush V P cs afx a ;;
   '(afx2, o2) <- armor_flush V P cs afx1 b ;;
   Ok (afx2, o1 ++ o2)).
Proof.
  unfold armor_flush.
  destruct (status afx =? 0) eqn:Es.
  - destruct (write_header V P cs afx) as [hdr| |]; cbn [bind]; try reflexivity.
    cbn [what hdrlines status radbuf idx2 ArmorWriter.crc].
    rewrite encode_loop_app.
    destruct (encode_loop a [] 0) as [[o1 rb1] i1]. cbn [bind].
    cbn [what hdrlines status radbuf idx2 ArmorWriter.crc].
    apply Z.eqb_eq in Es. rewrite Es. cbn [Z.add Z.eqb bind].
    cbn [what hdrlines status radbuf idx2 ArmorWriter.crc].
    destruct (encode_loop b rb1 i1) as [[o2 rb2] i2'].
    cbn [bind app]. rewrite crc_update_app, <- app_assoc. reflexivity.
  - cbn [bind]. rewrite encode_loop_app.
    destruct (encode_loop a (radbuf afx) (idx2 afx)) as [[o1 rb1] i1].
    cbn [bind what hdrlines status radbuf idx2 ArmorWriter.crc].
    rewrite Es. cbn [bind].
    cbn [what hdrlines status radbuf idx2 ArmorWriter.crc].
    destruct (encode_loop b rb1 i1) as [[o2 rb2] i2'].
    cbn [bind app]. rewrite crc_update_app. reflexivity.
Qed.

(** ** The characters of the alphabet in the decoder *)

Lemma land_63_range (x : Z) : 0 <= Z.land x 0x3f < 64.
Proof.
  change 0x3f with (Z.ones 6). rewrite Z.land_ones by lia.
  apply Z.mod_pos_bound. lia.
Qed.

Lemma bintoasc_char (s : Z) :
  0 <= s < 64 ->
  is_radix_space (bintoasc_at s) = false
  /\ (bintoasc_at s =? ch "=") = false
  /\ asctobin (bintoasc_at s) = s.
Proof.
  intros Hs.
  assert (H : (negb (is_radix_space (bintoasc_at s))
               && negb (bintoasc_at s =? ch "=")
               && (asctobin (bintoasc_at s) =? s)) = true).
  { apply (range_forallb 64
             (fun s => negb (is_radix_space (bintoasc_at s))
                       && negb (bintoasc_at s =? ch "=")
                       && (asctobin (bintoasc_at s) =? s)));
      [vm_compute; reflexivity | lia]. }
  apply andb_true_iff in H. destruct H as [H H3].
  apply andb_true_iff in H. destruct H as [H1 H2].
  apply negb_true_iff in H1, H2. apply Z.eqb_eq in H3. auto.
Qed.

Lemma radix_loop_char (size s : Z) (a buf : list Z) (idx val : Z) :
  zlen buf < size -> 0 <= s < 64 ->
  radix_loop size (bintoasc_at s :: a) buf idx val =
  radix_loop size a
    (match fst (radix_switch idx val s) with
     | Some v => buf ++ [v]
     | None => buf
     end)
    (Z.rem (idx + 1) 4) (snd (radix_switch idx val s)).
Proof.
  intros Hn Hs. destruct (bintoasc_char s Hs) as (H1 & H2 & H3).
  cbn [radix_loop].
  replace (zlen buf <? size) with true by (symmetry; apply Z.ltb_lt; lia).
  cbn [negb]. rewrite H1, H2, H3.
  replace (s =? 255) with false by (symmetry; apply Z.eqb_neq; lia).
  destruct (radix_switch idx val s) as [stored val']. reflexivity.
Qed.

Lemma radix_loop_space (size c : Z) (a buf : list Z) (idx val : Z) :
  zlen buf < size -> is_radix_space c = true ->
  radix_loop size (c :: a) buf idx val = radix_loop size a buf idx val.
Proof.
  intros Hn Hc. cbn [radix_loop].
  replace (zlen buf <? size) with true by (symmetry; apply Z.ltb_lt; lia).
  cbn [negb]. rewrite Hc. reflexivity.
Qed.

Lemma radix_loop_pad (size : Z) (a buf : list Z) (idx val : Z) :
  zlen buf < size ->
  radix_loop size (ch "=" :: a) buf idx val =
  mk_radix_body (if idx =? 1 then buf ++ [val] else buf) idx val true a.
Proof.
  intros Hn. cbn [radix_loop].
  replace (zlen buf <? size) with true by (symmetry; apply Z.ltb_lt; lia).
  reflexivity.
Qed.

(** ** Three bytes through the encoder and the decoder *)

Lemma byte_pairs (f : Z -> Z -> bool) (x y : Z) :
  forallb (fun x => forallb (f x) (map Z.of_nat (seq 0 256)))
          (map Z.of_nat (seq 0 256)) = true ->
  0 <= x < 256 -> 0 <= y < 256 -> f x y = true.
Proof.
  intros H Hx Hy.
  apply (range_forallb 256 (f x)); [|lia].
  apply (range_forallb 256
           (fun x => forallb (f x) (map Z.of_nat (seq 0 256)))); [exact H | lia].
Qed.

Lemma group_byte0 (r0 r1 : Z) :
  0 <= r0 < 256 -> 0 <= r1 < 256 ->
  Z.lor (to_byte (Z.shiftl (Z.land (Z.shiftr r0 2) 0x3f) 2))
        (Z.land (Z.shiftr (Z.land (Z.lor (Z.land (Z.shiftl r0 4) 0x30)
                                         (Z.land (Z.shiftr r1 4) 0x0f)) 0x3f) 4) 3)
  = r0.
Proof.
  intros H0 H1. apply Z.eqb_eq.
  apply (byte_pairs (fun r0 r1 =>
    Z.lor (to_byte (Z.shiftl (Z.land (Z.shiftr r0 2) 0x3f) 2))
        (Z.land (Z.shiftr (Z.land (Z.lor (Z.land (Z.shiftl r0 4) 0x30)
                                         (Z.land (Z.shiftr r1 4) 0x0f)) 0x3f) 4) 3)
    =? r0)); [vm_compute; reflexivity | lia | lia].
Qed.

Lemma group_byte1_high (r0 r1 : Z) :
  0 <= r0 < 256 -> 0 <= r1 < 256 ->
  Z.land (Z.shiftl (Z.land (Z.lor (Z.land (Z.shiftl r0 4) 0x30)
                                  (Z.land (Z.shiftr r1 4) 0x0f)) 0x3f) 4) 0xf0
  = Z.land r1 0xf0.
Proof.
  intros H0 H1. apply Z.eqb_eq.
  apply (byte_pairs (fun r0 r1 =>
    Z.land (Z.shiftl (Z.land (Z.lor (Z.land (Z.shiftl r0 4) 0x30)
                                  (Z.land (Z.shiftr r1 4) 0x0f)) 0x3f) 4) 0xf0
    =? Z.land r1 0xf0)); [vm_compute; reflexivity | lia | lia].
Qed.

Lemma group_byte1_low (r1 r2 : Z) :
  0 <= r1 < 256 -> 0 <= r2 < 256 ->
  Z.land (Z.shiftr (Z.land (Z.lor (Z.land (Z.shiftl r1 2) 0x3c)
                                  (Z.land (Z.shiftr r2 6) 0x03)) 0x3f) 2) 15
  = Z.land r1 15.
Proof.
  intros H0 H1. apply Z.eqb_eq.
  apply (byte_pairs (fun r1 r2 =>
    Z.land (Z.shiftr (Z.land (Z.lor (Z.land (Z.shiftl r1 2) 0x3c)
                                  (Z.land (Z.shiftr r2 6) 0x03)) 0x3f) 2) 15
    =? Z.land r1 15)); [vm_compute; reflexivity | lia | lia].
Qed.

Lemma group_byte2_high (r1 r2 : Z) :
  0 <= r1 < 256 -> 0 <= r2 < 256 ->
  Z.land (Z.shiftl (Z.land (Z.lor (Z.land (Z.shiftl r1 2) 0x3c)
                                  (Z.land (Z.shiftr r2 6) 0x03)) 0x3f) 6) 0xc0
  = Z.land r2 0xc0.
Proof.
  intros H0 H1. apply Z.eqb_eq.
  apply (byte_pairs (fun r1 r2 =>
    Z.land (Z.shiftl (Z.land (Z.lor (Z.land (Z.shiftl r1 2) 0x3c)
                                  (Z.land (Z.shiftr r2 6) 0x03)) 0x3f) 6) 0xc0
    =? Z.land r2 0xc0)); [vm_compute; reflexivity | lia | lia].
Qed.

Lemma byte_halves (r : Z) :
  0 <= r < 256 ->
  Z.lor (Z.land r 0xf0) (Z.land r 15) = r
  /\ Z.lor (Z.land r 0xc0) (Z.land (Z.land r 0x3f) 0x3f) = r.
Proof.
  intros Hr.
  assert (H : ((Z.lor (Z.land r 0xf0) (Z.land r 15) =? r)
               && (Z.lor (Z.land r 0xc0) (Z.land (Z.land r 0x3f) 0x3f) =? r))
              = true).
  { apply (range_forallb 256
             (fun r => (Z.lor (Z.land r 0xf0) (Z.land r 15) =? r)
               && (Z.lor (Z.land r 0xc0) (Z.land (Z.land r 0x3f) 0x3f) =? r)));
      [vm_compute; reflexivity | lia]. }
  apply andb_true_iff in H. destruct H as [H1 H2].
  apply Z.eqb_eq in H1, H2. auto.
Qed.

(** The four characters of a group give the three bytes back. *)
Lemma radix_loop_group (size r0 r1 r2 : Z) (a buf : list Z) (val : Z) :
  is_byte r0 -> is_byte r1 -> is_byte r2 ->
  zlen buf + 2 < size ->
  radix_loop size (encode_group r0 r1 r2 ++ a) buf 0 val =
  radix_loop size a (buf ++ [r0; r1; r2]) 0 r2.
Proof.
  unfold is_byte. intros H0 H1 H2 Hn.
  assert (Hl := zlen_nonneg buf).
  unfold encode_group. cbn [app].
  rewrite radix_loop_char by (try apply land_63_range; lia).
  cbn [radix_switch Z.eqb fst snd]. change (Z.rem (0 + 1) 4) with 1.
  rewrite radix_loop_char by (try apply land_63_range; lia).
  cbn [radix_switch Z.eqb Pos.eqb fst snd]. change (Z.rem (1 + 1) 4) with 2.
  rewrite group_byte0, group_byte1_high by assumption.
  rewrite radix_loop_char
    by (try apply land_63_range; rewrite zlen_app; cbn; lia).
  cbn [radix_switch Z.eqb Pos.eqb fst snd]. change (Z.rem (2 + 1) 4) with 3.
  rewrite group_byte1_low, group_byte2_high by assumption.
  rewrite (proj1 (byte_halves r1 H1)).
  rewrite radix_loop_char
    by (try apply land_63_range; rewrite !zlen_app; cbn; lia).
  cbn [radix_switch Z.eqb Pos.eqb fst snd]. change (Z.rem (3 + 1) 4) with 0.
  rewrite (proj2 (byte_halves r2 H2)).
  rewrite <- !app_assoc. reflexivity.
Qed.

Lemma list_ind3 {A} (P : list A -> Prop) :
  P [] -> (forall a, P [a]) -> (forall a b, P [a; b]) ->
  (forall a b c l, P l -> P (a :: b :: c :: l)) ->
  forall l, P l.
Proof.
  intros H0 H1 H2 H3.
  assert (H : forall n l, (length l <= n)%nat -> P l).
  { induction n as [|n IH]; intros l Hl.
    - destruct l; [exact H0 | cbn in Hl; lia].
    - destruct l as [|a [|b [|c l]]]; auto.
      apply H3. apply IH. cbn in Hl. lia. }
  intros l. apply (H (length l)). lia.
Qed.

Lemma encode_loop_group (r0 r1 r2 : Z) (rest : list Z) (i2 : Z) :
  encode_loop (r0 :: r1 :: r2 :: rest) [] i2 =
  let '(nl, j) := end_group i2 in
  let '(out, rb, i') := encode_loop rest [] j in
  (encode_group r0 r1 r2 ++ nl ++ out, rb, i').
Proof. reflexivity. Qed.

Lemma end_group_spaces (i2 : Z) :
  Forall (fun c => is_radix_space c = true) (fst (end_group i2)).
Proof.
  unfold end_group. destruct (16 <=? i2 + 1); cbn; repeat constructor.
Qed.

Lemma radix_loop_spaces (size : Z) (sp a buf : list Z) (idx val : Z) :
  zlen buf < size -> Forall (fun c => is_radix_space c = true) sp ->
  radix_loop size (sp ++ a) buf idx val = radix_loop size a buf idx val.
Proof.
  intros Hn Hsp. induction Hsp as [|c sp Hc _ IH]; [reflexivity|].
  cbn [app]. rewrite radix_loop_space by assumption. exact IH.
Qed.

(** The decoder on what the flush has written for [data]: the bytes of the
    complete groups are back in the buffer, and the decoder is at the start
    of a group. *)
Lemma radix_loop_body (size : Z) (data : list Z) :
  forall (buf : list Z) (i2 : Z) (tail : list Z) (val : Z),
  Forall is_byte data ->
  zlen buf + zlen data < size ->
  exists done val',
    data = done ++ snd (fst (encode_loop data [] i2))
    /\ (length (snd (fst (encode_loop data [] i2))) < 3)%nat
    /\ radix_loop size (fst (fst (encode_loop data [] i2)) ++ tail) buf 0 val
       = radix_loop size tail (buf ++ done) 0 val'.
Proof.
  induction data as [| a | a b | r0 r1 r2 data IH] using list_ind3;
    intros buf i2 tail val Hb Hn.
  - exists [], val. cbn. rewrite app_nil_r. repeat split; lia.
  - exists [], val. cbn. rewrite app_nil_r. repeat split; lia.
  - exists [], val. cbn. rewrite app_nil_r. repeat split; lia.
  - rewrite encode_loop_group.
    pose proof (end_group_spaces i2) as Hsp.
    destruct (end_group i2) as [nl j]. cbn [fst] in Hsp.
    inversion Hb as [|? ? H0 Hb1]; subst.
    inversion Hb1 as [|? ? H1 Hb2]; subst.
    inversion Hb2 as [|? ? H2 Hb3]; subst.
    assert (Hl := zlen_nonneg buf). assert (Hd := zlen_nonneg data).
    assert (Hlen : zlen (r0 :: r1 :: r2 :: data) = 3 + zlen data)
      by (unfold zlen; cbn [length]; lia).
    destruct (IH (buf ++ [r0; r1; r2]) j tail r2 Hb3) as (done & val' & Hd1 & Hd2 & Hd3).
    { rewrite zlen_app. change (zlen [r0; r1; r2]) with 3. lia. }
    destruct (encode_loop data [] j) as [[out rb] i'].
    cbn [fst snd] in *.
    exists (r0 :: r1 :: r2 :: done), val'. split; [|split].
    + cbn [app]. congruence.
    + assumption.
    + rewrite <- !app_assoc.
      rewrite radix_loop_group by (assumption || lia).
      rewrite radix_loop_spaces
        by (try assumption; rewrite zlen_app; change (zlen [r0; r1; r2]) with 3; lia).
      rewrite Hd3. rewrite <- app_assoc. reflexivity.
Qed.

(** ** The pad group *)

Lemma pad_bytes (r : Z) :
  0 <= r < 256 ->
  Z.lor (to_byte (Z.shiftl (Z.land (Z.shiftr r 2) 0x3f) 2))
        (Z.land (Z.shiftr (Z.land (Z.land (Z.shiftl r 4) 0x30) 0x3f) 4) 3) = r
  /\ Z.land (Z.shiftr (Z.land (Z.land (Z.shiftl r 2) 0x3c) 0x3f) 2) 15
     = Z.land r 15.
Proof.
  intros Hr.
  assert (H : ((Z.lor (to_byte (Z.shiftl (Z.land (Z.shiftr r 2) 0x3f) 2))
        (Z.land (Z.shiftr (Z.land (Z.land (Z.shiftl r 4) 0x30) 0x3f) 4) 3) =? r)
     && (Z.land (Z.shiftr (Z.land (Z.land (Z.shiftl r 2) 0x3c) 0x3f) 2) 15
         =? Z.land r 15)) = true).
  { apply (range_forallb 256 (fun r =>
      (Z.lor (to_byte (Z.shiftl (Z.land (Z.shiftr r 2) 0x3f) 2))
        (Z.land (Z.shiftr (Z.land (Z.land (Z.shiftl r 4) 0x30) 0x3f) 4) 3) =? r)
     && (Z.land (Z.shiftr (Z.land (Z.land (Z.shiftl r 2) 0x3c) 0x3f) 2) 15
         =? Z.land r 15))); [vm_compute; reflexivity | lia]. }
  apply andb_true_iff in H. destruct H as [H1 H2].
  apply Z.eqb_eq in H1, H2. auto.
Qed.

Lemma skip_pad_skips (l : list Z) (s : Z) (rest : list Z) :
  Forall (fun c => is_radix_space c = true \/ c = ch "=") l ->
  0 <= s < 64 ->
  skip_pad (l ++ bintoasc_at s :: rest) = (Some (bintoasc_at s), rest).
Proof.
  intros Hl Hs. destruct (bintoasc_char s Hs) as (H1 & H2 & _).
  induction Hl as [|c l Hc _ IH]; cbn [app skip_pad].
  - rewrite H1, H2. reflexivity.
  - destruct Hc as [Hc | ->].
    + rewrite Hc. exact IH.
    + rewrite Z.eqb_refl, orb_true_r. exact IH.
Qed.

(** The decoder on the pad group, the line end and the [=] of the checksum
    line: the bytes that were waiting are in the buffer, the loop has seen
    the pad character, and the skip loop stops at the first character of
    the checksum. *)
Lemma radix_loop_pad_tail (size : Z) (rb buf sp : list Z) (val j s : Z)
  (rest' : list Z) :
  Forall is_byte rb -> (length rb < 3)%nat ->
  zlen buf + zlen rb < size ->
  Forall (fun c => is_radix_space c = true) sp ->
  0 <= s < 64 ->
  exists idx' val' rest,
    radix_loop size
      ((match rb with
        | [] => []
        | _ :: _ => encode_pad rb ++ fst (end_group j)
        end) ++ sp ++ ch "=" :: bintoasc_at s :: rest') buf 0 val
    = mk_radix_body (buf ++ rb) idx' val' true rest
    /\ skip_pad rest = (Some (bintoasc_at s), rest').
Proof.
  intros Hb Hlen Hn Hsp Hs. assert (Hl := zlen_nonneg buf).
  assert (Hsp' : Forall (fun c => is_radix_space c = true \/ c = ch "=") sp).
  { eapply Forall_impl; [|exact Hsp]. cbn. auto. }
  assert (Hnl : Forall (fun c => is_radix_space c = true \/ c = ch "=")
                  (fst (end_group j))).
  { eapply Forall_impl; [|apply end_group_spaces]. cbn. auto. }
  destruct rb as [|r0 [|r1 [|r2 rb]]]; [| | |cbn in Hlen; lia].
  - cbn [app]. rewrite radix_loop_spaces by (assumption || (unfold zlen in *; cbn in *; lia)).
    rewrite radix_loop_pad by (unfold zlen in *; cbn in *; lia).
    cbn [Z.eqb]. rewrite app_nil_r.
    do 3 eexists. split; [reflexivity|].
    apply (skip_pad_skips [] s rest'); [constructor | assumption].
  - inversion Hb as [|? ? H0 _]; subst. unfold is_byte in H0.
    change (zlen [r0]) with 1 in Hn.
    cbn [encode_pad app].
    rewrite radix_loop_char by (try apply land_63_range; lia).
    cbn [radix_switch Z.eqb fst snd]. change (Z.rem (0 + 1) 4) with 1.
    rewrite radix_loop_char by (try apply land_63_range; lia).
    cbn [radix_switch Z.eqb Pos.eqb fst snd]. change (Z.rem (1 + 1) 4) with 2.
    rewrite (proj1 (pad_bytes r0 H0)).
    rewrite radix_loop_pad by (rewrite zlen_app; change (zlen [r0]) with 1; lia).
    cbn [Z.eqb Pos.eqb].
    do 3 eexists. split; [reflexivity|].
    change (ch "=" :: fst (end_group j) ++ sp ++ ch "=" :: bintoasc_at s :: rest')
      with ([ch "="] ++ fst (end_group j) ++ sp ++ [ch "="]
            ++ bintoasc_at s :: rest').
    rewrite !app_assoc. apply skip_pad_skips; [|assumption].
    repeat (apply Forall_app; split); auto.
  - inversion Hb as [|? ? H0 Hb1]; subst. inversion Hb1 as [|? ? H1 _]; subst.
    unfold is_byte in H0, H1.
    change (zlen [r0; r1]) with 2 in Hn.
    cbn [encode_pad app].
    rewrite radix_loop_char by (try apply land_63_range; lia).
    cbn [radix_switch Z.eqb fst snd]. change (Z.rem (0 + 1) 4) with 1.
    rewrite radix_loop_char by (try apply land_63_range; lia).
    cbn [radix_switch Z.eqb Pos.eqb fst snd]. change (Z.rem (1 + 1) 4) with 2.
    rewrite group_byte0, group_byte1_high by assumption.
    rewrite radix_loop_char
      by (try apply land_63_range; rewrite zlen_app; change (zlen [r0]) with 1; lia).
    cbn [radix_switch Z.eqb Pos.eqb fst snd]. change (Z.rem (2 + 1) 4) with 3.
    rewrite (proj2 (pad_bytes r1 H1)), (proj1 (byte_halves r1 H1)).
    rewrite radix_loop_pad
      by (rewrite !zlen_app; change (zlen [r0]) with 1;
          change (zlen [r1]) with 1; lia).
    cbn [Z.eqb Pos.eqb]. rewrite <- app_assoc.
    do 3 eexists. split; [reflexivity|].
    change (fst (end_group j) ++ sp ++ ch "=" :: bintoasc_at s :: rest')
      with (fst (end_group j) ++ sp ++ [ch "="] ++ bintoasc_at s :: rest').
    rewrite !app_assoc. apply skip_pad_skips; [|assumption].
    repeat (apply Forall_app; split); auto.
Qed.

(** ** The checksum line *)

Lemma radix64_digit_char (s : Z) :
  0 <= s < 64 -> radix64_digit (bintoasc_at s) = Some s.
Proof.
  intros Hs. destruct (bintoasc_char s Hs) as (_ & _ & H).
  rewrite asctobin_digit in H.
  destruct (radix64_digit (bintoasc_at s)) as [s'|]; [congruence | lia].
Qed.

Lemma crc_digits (b0 b1 b2 : Z) :
  0 <= b0 < 256 -> 0 <= b1 < 256 -> 0 <= b2 < 256 ->
  262144 * Z.land (Z.shiftr b0 2) 0x3f
  + 4096 * Z.land (Z.lor (Z.land (Z.shiftl b0 4) 0x30)
                         (Z.land (Z.shiftr b1 4) 0x0f)) 0x3f
  + 64 * Z.land (Z.lor (Z.land (Z.shiftl b1 2) 0x3c)
                       (Z.land (Z.shiftr b2 6) 0x03)) 0x3f
  + Z.land b2 0x3f
  = 65536 * b0 + 256 * b1 + b2.
Proof.
  intros H0 H1 H2.
  assert (E1 : Z.land (Z.lor (Z.land (Z.shiftl b0 4) 0x30)
                             (Z.land (Z.shiftr b1 4) 0x0f)) 0x3f
               = 16 * (b0 mod 4) + b1 / 16).
  { apply Z.eqb_eq.
    apply (byte_pairs (fun b0 b1 =>
      Z.land (Z.lor (Z.land (Z.shiftl b0 4) 0x30)
                    (Z.land (Z.shiftr b1 4) 0x0f)) 0x3f
      =? 16 * (b0 mod 4) + b1 / 16)); [vm_compute; reflexivity | lia | lia]. }
  assert (E2 : Z.land (Z.lor (Z.land (Z.shiftl b1 2) 0x3c)
                             (Z.land (Z.shiftr b2 6) 0x03)) 0x3f
               = 4 * (b1 mod 16) + b2 / 64).
  { apply Z.eqb_eq.
    apply (byte_pairs (fun b1 b2 =>
      Z.land (Z.lor (Z.land (Z.shiftl b1 2) 0x3c)
                    (Z.land (Z.shiftr b2 6) 0x03)) 0x3f
      =? 4 * (b1 mod 16) + b2 / 64)); [vm_compute; reflexivity | lia | lia]. }
  rewrite E1, E2.
  change 0x3f with (Z.ones 6). rewrite !Z.land_ones by lia.
  rewrite Z.shiftr_div_pow2 by lia.
  change (2 ^ 6) with 64. change (2 ^ 2) with 4.
  rewrite (Z.mod_small (b0 / 4) 64) by (Z.div_mod_to_equations; lia).
  Z.div_mod_to_equations. lia.
Qed.

Lemma crc_split (crc : Z) :
  0 <= crc < 16777216 ->
  65536 * to_byte (Z.shiftr crc 16) + 256 * to_byte (Z.shiftr crc 8)
  + to_byte crc = crc.
Proof.
  intros Hc. unfold to_byte. rewrite !Z.shiftr_div_pow2 by lia.
  change (2 ^ 16) with 65536. change (2 ^ 8) with 256.
  Z.div_mod_to_equations. lia.
Qed.

Lemma to_byte_range (x : Z) : 0 <= to_byte x < 256.
Proof. unfold to_byte. apply Z.mod_pos_bound. lia. Qed.

(** The four characters of the checksum line encode the checksum. *)
Lemma encode_crc_value (crc c : Z) (rest : list Z) :
  0 <= crc < 16777216 ->
  crc_trailer_ok crc
    (encode_group (to_byte (Z.shiftr crc 16)) (to_byte (Z.shiftr crc 8))
                  (to_byte crc) ++ c :: rest) = true.
Proof.
  intros Hc. unfold encode_group. cbn [app crc_trailer_ok].
  unfold crc_of_chars.
  rewrite !radix64_digit_char by apply land_63_range.
  rewrite crc_digits by apply to_byte_range.
  rewrite crc_split by assumption. apply Z.eqb_refl.
Qed.

(** The CRC loop on a checksum that is accepted: it reads the four
    characters and one more byte. *)
Lemma crc_loop_accept (crc c1 c2 c3 c4 x val : Z) (rest : list Z) :
  trailer_accepted crc (c1 :: c2 :: c3 :: c4 :: x :: rest) = true ->
  crc_loop 4 0 c1 (c2 :: c3 :: c4 :: x :: rest) val 0 = (Some x, 4, crc, rest).
Proof.
  unfold trailer_accepted, crc_chain. cbn [crc_loop].
  destruct (asctobin c1 =? 255); [discriminate|].
  destruct (asctobin c2 =? 255); [discriminate|].
  destruct (asctobin c3 =? 255); [discriminate|].
  destruct (asctobin c4 =? 255); [discriminate|].
  cbn [negb andb]. rewrite !crc_switch_first.
  change (0 + 1) with 1.
  destruct (crc_switch 1 (to_byte (Z.shiftl (asctobin c1) 2)) 0 (asctobin c2))
    as [v1 m1].
  change (1 + 1) with 2.
  destruct (crc_switch 2 v1 m1 (asctobin c3)) as [v2 m2].
  change (2 + 1) with 3.
  destruct (crc_switch 3 v2 m2 (asctobin c4)) as [v3 m3].
  cbn [snd]. intros H. apply Z.eqb_eq in H. subst m3. reflexivity.
Qed.

(** [radix64_read] once the loop has met the pad character with bytes in
    the buffer and a checksum that is accepted behind it. *)
Lemma radix64_read_accept (afx : Armor.armor_filter_context_t)
  (a : list Z) (size : Z) (buf : list Z) (idx' val' : Z) (rest : list Z)
  (c1 c2 c3 c4 x : Z) (rest' : list Z) :
  radix_loop size a [] (Armor.idx afx) (radbuf0 afx)
    = mk_radix_body buf idx' val' true rest ->
  buf <> [] ->
  skip_pad rest = (Some c1, c2 :: c3 :: c4 :: x :: rest') ->
  crc_trailer_ok (crc_update (Armor.crc afx) buf)
                 (c1 :: c2 :: c3 :: c4 :: x :: rest') = true ->
  radix64_read afx a size =
  mk_radix_result RC_OK buf
    (set_faked 0 (set_inp_checked 0 (set_any_data 1
       (set_radbuf0 val' (set_idx idx'
          (set_crc (crc_update (Armor.crc afx) buf) afx))))))
    rest'.
Proof.
  intros Hloop Hbuf Hskip Hok.
  rewrite <- trailer_accepted_spec in Hok.
  unfold radix64_read. rewrite Hloop.
  cbn [rb_buf rb_idx rb_val rb_checkcrc rb_rest]. rewrite Hskip.
  rewrite (crc_loop_accept _ _ _ _ _ _ val' _ Hok).
  cbn [Z.eqb Pos.eqb negb].
  cbn [set_faked set_inp_checked set_any_data set_radbuf0 set_idx set_crc
       Armor.crc].
  rewrite Z.eqb_refl. cbn [negb].
  destruct buf; [contradiction | reflexivity].
Qed.

(** ** Writing in several buffers *)

Lemma armor_write_concat (V P : list Z) (cs : option (list Z))
  (chunks : list (list Z)) :
  forall afx : ArmorWriter.armor_filter_context_t,
  chunks <> [] ->
  armor_write V P cs afx chunks = armor_flush V P cs afx (concat chunks).
Proof.
  induction chunks as [|buf chunks IH]; intros afx Hne; [contradiction|].
  cbn [armor_write concat].
  destruct chunks as [|buf' chunks].
  - cbn [armor_write concat]. rewrite app_nil_r.
    destruct (armor_flush V P cs afx buf) as [[afx1 o1]| |]; cbn [bind];
      [rewrite app_nil_r|..]; reflexivity.
  - rewrite armor_flush_chunks_aux.
    destruct (armor_flush V P cs afx buf) as [[afx1 o1]| |]; cbn [bind];
      [|reflexivity..].
    rewrite IH by discriminate. reflexivity.
Qed.

Lemma table_entry (table : list (list Z)) (w : Z) :
  length table = 7%nat -> 0 <= w < 7 ->
  nth_error table (Z.to_nat w) = Some (nth (Z.to_nat w) table []).
Proof.
  intros Hl Hw. apply nth_error_nth'. lia.
Qed.

Lemma write_header_ok (V P : list Z) (cs h : option (list Z)) (w : Z) :
  0 <= w < 7 ->
  exists header, write_header V P cs (afx_new w h) = Ok header.
Proof.
  intros Hw. unfold write_header. cbn [what afx_new].
  replace (w <? 0) with false by (symmetry; apply Z.ltb_ge; lia).
  replace (8 <=? w) with false by (symmetry; apply Z.leb_gt; lia).
  cbn [orb]. rewrite (table_entry head_strings w eq_refl Hw).
  eexists. reflexivity.
Qed.

Lemma armor_free_form (afx : ArmorWriter.armor_filter_context_t)
  (any_data inp_bypass : Z) :
  status afx <> 0 -> 0 <= what afx < 7 ->
  exists sp,
    Forall (fun c => is_radix_space c = true) sp
    /\ armor_free afx any_data inp_bypass =
       Ok (match radbuf afx with
           | [] => []
           | _ :: _ => encode_pad (radbuf afx) ++ fst (end_group (idx2 afx))
           end
           ++ sp ++ encode_crc (ArmorWriter.crc afx)
           ++ bytes "-----" ++ nth (Z.to_nat (what afx)) tail_strings []
           ++ bytes "-----" ++ [LF], false).
Proof.
  intros Hs Hw. unfold armor_free.
  replace (status afx =? 0) with false by (symmetry; apply Z.eqb_neq; lia).
  cbn [negb].
  replace (what afx <? 0) with false by (symmetry; apply Z.ltb_ge; lia).
  replace (8 <=? what afx) with false by (symmetry; apply Z.leb_gt; lia).
  cbn [orb]. rewrite (table_entry tail_strings (what afx) eq_refl Hw).
  destruct (radbuf afx) as [|r rb].
  - exists (if negb (idx2 afx =? 0) then [LF] else []). split.
    + destruct (negb (idx2 afx =? 0)); repeat constructor.
    + reflexivity.
  - destruct (end_group (idx2 afx)) as [nl i]. cbn [fst].
    exists (if negb (i =? 0) then [LF] else []). split.
    + destruct (negb (i =? 0)); repeat constructor.
    + rewrite <- !app_assoc. reflexivity.
Qed.

(** X1: armoring and de-armoring are inverse.  For a message type among the
    seven known ones and a non-empty sequence of bytes handed to the writer
    in any number of buffers, the armor filter writes the header lines, the
    radix-64 body and, when it is freed, the pad, the CRC line and the END
    line; [radix64_read] on that body and trailer, with a buffer larger than
    the data, succeeds, delivers exactly the bytes written and stops in
    front of the END line. *)
Theorem armor_roundtrip (V P : list Z) (cs h : option (list Z)) (w : Z)
  (chunks : list (list Z)) (size any_data inp_bypass : Z) :
  0 <= w < 7 ->
  Forall (Forall is_byte) chunks ->
  concat chunks <> [] ->
  zlen (concat chunks) < size ->
  exists afx1 header body tail,
    write_header V P cs (afx_new w h) = Ok header
    /\ armor_write V P cs (afx_new w h) chunks = Ok (afx1, header ++ body)
    /\ armor_free afx1 any_data inp_bypass = Ok (tail, false)
    /\ rr_rc (radix64_read afx_radix (body ++ tail) size) = RC_OK
    /\ rr_out (radix64_read afx_radix (body ++ tail) size) = concat chunks
    /\ rr_rest (radix64_read afx_radix (body ++ tail) size)
       = bytes "-----" ++ nth (Z.to_nat w) tail_strings [] ++ bytes "-----"
         ++ [LF].
Proof.
  intros Hw Hbytes Hne Hsize.
  assert (Hchunks : chunks <> []) by (intros ->; apply Hne; reflexivity).
  assert (Hdata : Forall is_byte (concat chunks)).
  { clear - Hbytes. induction Hbytes; cbn [concat]; [constructor|].
    apply Forall_app. auto. }
  set (data := concat chunks) in *.
  destruct (write_header_ok V P cs h w Hw) as [header Hh].
  rewrite (armor_write_concat V P cs chunks _ Hchunks). fold data.
  unfold armor_flush. cbn [status afx_new Z.eqb]. rewrite Hh. cbn [bind].
  cbn [what hdrlines status radbuf idx2 ArmorWriter.crc].
  destruct (encode_loop data [] 0) as [[body rb] j] eqn:Ee.
  set (afx1 := ArmorWriter.mk_afx w h (0 + 1) rb j (crc_update CRCINIT data)).
  destruct (armor_free_form afx1 any_data inp_bypass) as (sp & Hsp & Hfree);
    [discriminate | exact Hw |].
  cbn [afx1 what hdrlines status radbuf idx2 ArmorWriter.crc] in Hfree.
  exists afx1, header, body. eexists.
  split; [reflexivity|]. split; [reflexivity|]. split; [exact Hfree|].
  set (trailer := bytes "-----" ++ nth (Z.to_nat w) tail_strings []
                  ++ bytes "-----" ++ [LF]).
  set (crc := crc_update CRCINIT data).
  destruct (radix_loop_body size data [] 0
              (match rb with
               | [] => []
               | _ :: _ => encode_pad rb ++ fst (end_group j)
               end ++ sp ++ encode_crc crc ++ trailer) 0 Hdata)
    as (done & val' & Hsplit & Hrb & Hbody).
  { change (zlen []) with 0. lia. }
  rewrite Ee in Hsplit, Hrb, Hbody. cbn [fst snd app] in Hsplit, Hrb, Hbody.
  assert (Hrbb : Forall is_byte rb).
  { rewrite Hsplit in Hdata. apply Forall_app in Hdata. tauto. }
  destruct (radix_loop_pad_tail size rb done sp val' j
              (Z.land (Z.shiftr (to_byte (Z.shiftr crc 16)) 2) 0x3f)
              (tl (encode_group (to_byte (Z.shiftr crc 16))
                                (to_byte (Z.shiftr crc 8)) (to_byte crc))
               ++ [LF] ++ trailer) Hrbb Hrb)
    as (idx' & val'' & rest & Hpad & Hskip).
  { rewrite <- zlen_app, <- Hsplit. exact Hsize. }
  { exact Hsp. }
  { apply land_63_range. }
  assert (Hread : radix64_read afx_radix
            (body ++ match rb with
                     | [] => []
                     | _ :: _ => encode_pad rb ++ fst (end_group j)
                     end ++ sp ++ encode_crc crc ++ trailer) size
          = mk_radix_result RC_OK data
              (set_faked 0 (set_inp_checked 0 (set_any_data 1
                 (set_radbuf0 val'' (set_idx idx'
                    (set_crc (crc_update (Armor.crc afx_radix) data)
                             afx_radix))))))
              trailer).
  { eapply radix64_read_accept.
    - cbn [afx_radix Armor.idx radbuf0]. rewrite Hbody.
      rewrite <- Hsplit in Hpad. exact Hpad.
    - exact Hne.
    - cbn [encode_group tl app] in Hskip. exact Hskip.
    - cbn [afx_radix Armor.crc]. fold crc.
      apply (encode_crc_value crc LF trailer). apply crc_update_range. }
  rewrite Hread. cbn [rr_rc rr_out rr_rest]. auto.
Qed.

Lemma armor_roundtrip_witness :
  exists afx1 header body tail,
    write_header (bytes "1.0") (bytes "GNU/Linux") None (afx_new 0 None)
      = Ok header
    /\ armor_write (bytes "1.0") (bytes "GNU/Linux") None (afx_new 0 None)
         [bytes "hel"; bytes "lo"] = Ok (afx1, header ++ body)
    /\ armor_free afx1 0 0 = Ok (tail, false)
    /\ rr_rc (radix64_read afx_radix (body ++ tail) 8192) = RC_OK
    /\ rr_out (radix64_read afx_radix (body ++ tail) 8192)
       = concat [bytes "hel"; bytes "lo"]
    /\ rr_rest (radix64_read afx_radix (body ++ tail) 8192)
       = bytes "-----" ++ nth (Z.to_nat 0) tail_strings [] ++ bytes "-----"
         ++ [LF].
Proof.
  apply (armor_roundtrip (bytes "1.0") (bytes "GNU/Linux") None None 0
           [bytes "hel"; bytes "lo"] 8192 0 0).
  - lia.
  - repeat (constructor; [repeat (constructor; [unfold is_byte; cbn; lia|]);
                          constructor|]).
    constructor.
  - discriminate.
  - reflexivity.
Defined.

(** X2: what the armor writer emits depends on the bytes only, not on how
    they are cut into the buffers of the successive flush calls (at least
    one call on each side, since the first call writes the header). *)
Theorem armor_write_chunking (V P : list Z) (cs : option (list Z))
  (afx : ArmorWriter.armor_filter_context_t) (chunks1 chunks2 : list (list Z)) :
  chunks1 <> [] -> chunks2 <> [] ->
  concat chunks1 = concat chunks2 ->
  armor_write V P cs afx chunks1 = armor_write V P cs afx chunks2.
Proof.
  intros H1 H2 Hc.
  rewrite !armor_write_concat by assumption. rewrite Hc. reflexivity.
Qed.

Lemma armor_write_chunking_witness :
  armor_write (bytes "1.0") (bytes "GNU/Linux") None (afx_new 0 None)
    [bytes "hel"; bytes "lo"]
  = armor_write (bytes "1.0") (bytes "GNU/Linux") None (afx_new 0 None)
      [bytes "h"; bytes "ello"].
Proof.
  apply (armor_write_chunking (bytes "1.0") (bytes "GNU/Linux") None
           (afx_new 0 None) [bytes "hel"; bytes "lo"] [bytes "h"; bytes "ello"]).
  - discriminate.
  - discriminate.
  - reflexivity.
Defined.

(** X3: the comment string of the armor header stays on one line: a line
    feed, carriage return or vertical tab is written as a backslash and a
    letter, so no LF or CR is emitted, and a comment without these three
    characters is written as it is. *)
Theorem write_comment_one_line (s : list Z) :
  Forall (fun c => c <> LF /\ c <> CR) (write_comment s)
  /\ (Forall (fun c => c <> LF /\ c <> CR /\ c <> 11) s -> write_comment s = s).
Proof.
  split.
  - induction s as [|c s IH]; cbn [write_comment]; [constructor|].
    apply Forall_app. split; [|exact IH].
    destruct (Z.eqb_spec c LF); [repeat constructor; discriminate|].
    destruct (Z.eqb_spec c CR); [repeat constructor; discriminate|].
    destruct (Z.eqb_spec c 11); [repeat constructor; discriminate|].
    repeat constructor; assumption.
  - induction 1 as [|c s (H1 & H2 & H3) _ IH]; cbn [write_comment];
      [reflexivity|].
    destruct (Z.eqb_spec c LF); [contradiction|].
    destruct (Z.eqb_spec c CR); [contradiction|].
    destruct (Z.eqb_spec c 11); [contradiction|].
    cbn [app]. rewrite IH. reflexivity.
Qed.

(** X4: the first line the writer emits for a message type is five dashes,
    the BEGIN text of that type, five dashes and a line feed, and the reader's
    [is_armor_header] recognises that line as the same type. *)
Theorem write_header_recognised (V P : list Z) (cs h : option (list Z)) (w : Z) :
  0 <= w < 7 ->
  exists rest,
    write_header V P cs (afx_new w h)
      = Ok ((bytes "-----" ++ nth (Z.to_nat w) head_strings [] ++ bytes "-----"
             ++ [LF]) ++ rest)
    /\ is_armor_header (bytes "-----" ++ nth (Z.to_nat w) head_strings []
                        ++ bytes "-----" ++ [LF]) = w.
Proof.
  intros Hw. unfold write_header. cbn [what afx_new hdrlines].
  replace (w <? 0) with false by (symmetry; apply Z.ltb_ge; lia).
  replace (8 <=? w) with false by (symmetry; apply Z.leb_gt; lia).
  cbn [orb]. rewrite (table_entry head_strings w eq_refl Hw).
  eexists. split.
  - rewrite <- !app_assoc. reflexivity.
  - assert (Hc : w = 0 \/ w = 1 \/ w = 2 \/ w = 3 \/ w = 4 \/ w = 5 \/ w = 6)
      by lia.
    destruct Hc as [-> | [-> | [-> | [-> | [-> | [-> | ->]]]]]];
      vm_compute; reflexivity.
Qed.

Lemma write_header_recognised_witness :
  exists rest,
    write_header (bytes "1.0") (bytes "GNU/Linux") None (afx_new 1 None)
      = Ok ((bytes "-----" ++ nth (Z.to_nat 1) head_strings [] ++ bytes "-----"
             ++ [LF]) ++ rest)
    /\ is_armor_header (bytes "-----" ++ nth (Z.to_nat 1) head_strings []
                        ++ bytes "-----" ++ [LF]) = 1.
Proof.
  apply (write_header_recognised (bytes "1.0") (bytes "GNU/Linux") None None 1).
  lia.
Defined.

(** ** The decoding loop *)

Lemma radix_loop_bound (size : Z) (a : list Z) :
  forall (buf : list Z) (idx val : Z),
  zlen buf <= size ->
  zlen (rb_buf (radix_loop size a buf idx val)) <= size.
Proof.
  induction a as [|c a IH]; intros buf idx val Hn; cbn [radix_loop].
  - destruct (negb (zlen buf <? size)); exact Hn.
  - destruct (Z.ltb_spec (zlen buf) size) as [Hlt|Hge]; cbn [negb];
      [|exact Hn].
    assert (Hone : forall v, zlen (buf ++ [v]) <= size).
    { intros v. rewrite zlen_app. change (zlen [v]) with 1. lia. }
    destruct (is_radix_space c); [apply IH; exact Hn|].
    destruct (c =? ch "=").
    + cbn [rb_buf]. destruct (idx =? 1); [apply Hone | exact Hn].
    + destruct (asctobin c =? 255); [apply IH; exact Hn|].
      destruct (radix_switch idx val (asctobin c)) as [[v|] val'];
        apply IH; [apply Hone | exact Hn].
Qed.

(** X5: [radix64_read] never delivers more than [size] bytes, whatever the
    input and the state are. *)
Theorem radix64_read_bound (afx : Armor.armor_filter_context_t) (a : list Z)
  (size : Z) :
  0 <= size -> zlen (rr_out (radix64_read afx a size)) <= size.
Proof.
  intros Hs. unfold radix64_read.
  pose proof (radix_loop_bound size a [] (Armor.idx afx) (radbuf0 afx) Hs) as Hb.
  destruct (radix_loop size a [] (Armor.idx afx) (radbuf0 afx))
    as [buf idx' val' check rest].
  cbn [rb_buf rb_idx rb_val rb_checkcrc rb_rest] in *.
  destruct check.
  - destruct (skip_pad rest) as [[c|] a2].
    + destruct (crc_loop 4 0 c a2 val' 0) as [[[c' i] m] a3].
      destruct c' as [c'|]; [|exact Hb].
      destruct (negb (i =? 4)); [exact Hb|].
      destruct (negb (m =? _)); exact Hb.
    + exact Hb.
  - exact Hb.
Qed.

Lemma radix64_read_bound_witness :
  zlen (rr_out (radix64_read afx_radix (bytes "AAAAAAAA") 3)) <= 3.
Proof. apply (radix64_read_bound afx_radix (bytes "AAAAAAAA") 3). lia. Defined.

Lemma radix_loop_full (size : Z) (a buf : list Z) (idx val : Z) :
  negb (zlen buf <? size) = true ->
  radix_loop size a buf idx val = mk_radix_body buf idx val false a.
Proof.
  intros H. destruct a; cbn [radix_loop]; rewrite H; reflexivity.
Qed.

(** X6: what the decoding loop of [radix64_read] decodes (the bytes, the
    position in the group, the pending value and whether the pad was met)
    is the same when line ends, blanks and the other bytes the loop skips
    are removed from the input. *)
Theorem radix_loop_skips (size : Z) (a : list Z) :
  forall (buf : list Z) (idx val : Z),
  let b := radix_loop size a buf idx val in
  let b' := radix_loop size (filter (fun c => negb (radix_skipped c)) a)
                       buf idx val in
  rb_buf b' = rb_buf b /\ rb_idx b' = rb_idx b /\ rb_val b' = rb_val b
  /\ rb_checkcrc b' = rb_checkcrc b.
Proof.
  induction a as [|c a IH]; intros buf idx val; cbn zeta.
  - cbn. auto.
  - destruct (negb (zlen buf <? size)) eqn:En.
    + rewrite !radix_loop_full by assumption. cbn. auto.
    + cbn [filter]. destruct (radix_skipped c) eqn:Esk; cbn [negb].
      * replace (radix_loop size (c :: a) buf idx val)
          with (radix_loop size a buf idx val); [exact (IH buf idx val)|].
        cbn [radix_loop]. rewrite En. unfold radix_skipped in Esk.
        destruct (is_radix_space c); [reflexivity|].
        destruct (c =? ch "="); [discriminate|].
        cbn [negb andb orb] in Esk. rewrite Esk. reflexivity.
      * cbn [radix_loop]. rewrite En. unfold radix_skipped in Esk.
        destruct (is_radix_space c); [discriminate|].
        destruct (c =? ch "="); [cbn; auto|].
        cbn [negb andb orb] in Esk. rewrite Esk.
        destruct (radix_switch idx val (asctobin c)) as [stored val'].
        apply IH.
Qed.

(** ** Decoding in several calls *)

Lemma radix_loop_after (n : Z) (a : list Z) :
  forall (pre buf : list Z) (idx val : Z),
  radix_loop (zlen pre + n) a (pre ++ buf) idx val
  = radix_after pre (radix_loop n a buf idx val).
Proof.
  induction a as [|c a IH]; intros pre buf idx val; cbn [radix_loop];
    rewrite zlen_app;
    replace (zlen pre + zlen buf <? zlen pre + n) with (zlen buf <? n)
      by (destruct (Z.ltb_spec (zlen buf) n);
          symmetry; [apply Z.ltb_lt | apply Z.ltb_ge]; lia).
  - destruct (negb (zlen buf <? n)); reflexivity.
  - destruct (negb (zlen buf <? n)); [reflexivity|].
    destruct (is_radix_space c); [apply IH|].
    destruct (c =? ch "=").
    + unfold radix_after. cbn [rb_buf rb_idx rb_val rb_checkcrc rb_rest].
      destruct (idx =? 1); [rewrite app_assoc|]; reflexivity.
    + destruct (asctobin c =? 255); [apply IH|].
      destruct (radix_switch idx val (asctobin c)) as [[v|] val'];
        [rewrite <- app_assoc|]; apply IH.
Qed.

Lemma radix_loop_split (n1 n2 : Z) (a : list Z) :
  0 <= n2 ->
  forall (buf : list Z) (idx val : Z),
  zlen buf <= n1 ->
  rb_checkcrc (radix_loop n1 a buf idx val) = false ->
  radix_loop (n1 + n2) a buf idx val
  = radix_after (rb_buf (radix_loop n1 a buf idx val))
      (radix_loop n2 (rb_rest (radix_loop n1 a buf idx val)) []
                  (rb_idx (radix_loop n1 a buf idx val))
                  (rb_val (radix_loop n1 a buf idx val))).
Proof.
  intros H2.
  induction a as [|c a IH]; intros buf idx val Hn Hc.
  - assert (E1 : radix_loop n1 [] buf idx val = mk_radix_body buf idx val false [])
      by (cbn [radix_loop]; destruct (negb (zlen buf <? n1)); reflexivity).
    rewrite E1. cbn [rb_buf rb_idx rb_val rb_rest].
    assert (E2 : radix_loop n2 [] [] idx val = mk_radix_body [] idx val false [])
      by (cbn [radix_loop]; destruct (negb (_ <? n2)); reflexivity).
    rewrite E2. unfold radix_after. cbn [rb_buf rb_idx rb_val rb_checkcrc rb_rest].
    rewrite app_nil_r.
    cbn [radix_loop]; destruct (negb (zlen buf <? n1 + n2)); reflexivity.
  - destruct (Z.ltb_spec (zlen buf) n1) as [Hlt|Hge].
    + revert Hc. cbn [radix_loop].
      replace (zlen buf <? n1) with true by (symmetry; apply Z.ltb_lt; lia).
      replace (zlen buf <? n1 + n2) with true
        by (symmetry; apply Z.ltb_lt; lia).
      cbn [negb].
      destruct (is_radix_space c); [apply IH; lia|].
      destruct (c =? ch "="); [discriminate|].
      destruct (asctobin c =? 255); [apply IH; lia|].
      destruct (radix_switch idx val (asctobin c)) as [[v|] val'];
        apply IH; [rewrite zlen_app; change (zlen [v]) with 1|]; lia.
    + assert (E1 : radix_loop n1 (c :: a) buf idx val
                   = mk_radix_body buf idx val false (c :: a)).
      { cbn [radix_loop].
        replace (zlen buf <? n1) with false by (symmetry; apply Z.ltb_ge; lia).
        reflexivity. }
      rewrite E1. cbn [rb_buf rb_idx rb_val rb_rest].
      replace n1 with (zlen buf) by lia.
      rewrite <- (app_nil_r buf) at 2. apply radix_loop_after.
Qed.

Lemma radix64_read_finish (afx : Armor.armor_filter_context_t) (a : list Z)
  (size : Z) :
  radix64_read afx a size =
  radix_finish
    (set_radbuf0 (rb_val (radix_loop size a [] (Armor.idx afx) (radbuf0 afx)))
       (set_idx (rb_idx (radix_loop size a [] (Armor.idx afx) (radbuf0 afx)))
          (set_crc
             (crc_update (Armor.crc afx)
                (rb_buf (radix_loop size a [] (Armor.idx afx) (radbuf0 afx))))
             afx)))
    (radix_loop size a [] (Armor.idx afx) (radbuf0 afx)).
Proof. reflexivity. Qed.

Lemma radix_finish_after (afx : Armor.armor_filter_context_t) (pre : list Z)
  (b : radix_body) :
  rr_out (radix_finish afx (radix_after pre b))
    = pre ++ rr_out (radix_finish afx b)
  /\ rr_afx (radix_finish afx (radix_after pre b)) = rr_afx (radix_finish afx b)
  /\ rr_rest (radix_finish afx (radix_after pre b))
     = rr_rest (radix_finish afx b)
  /\ (rb_buf b <> [] ->
      rr_rc (radix_finish afx (radix_after pre b))
      = rr_rc (radix_finish afx b)).
Proof.
  unfold radix_finish.
  change (radix_verdict afx (radix_after pre b)) with (radix_verdict afx b).
  destruct (radix_verdict afx b) as [[rc afx0] a0].
  cbn [rr_out rr_afx rr_rest rr_rc radix_after rb_buf].
  repeat split.
  intros Hne. destruct (rb_buf b); [contradiction|]. destruct pre; reflexivity.
Qed.

Lemma radix_finish_out (afx : Armor.armor_filter_context_t) (b : radix_body) :
  rr_out (radix_finish afx b) = rb_buf b.
Proof.
  unfold radix_finish. destruct (radix_verdict afx b) as [[rc afx0] a0].
  reflexivity.
Qed.

(** X7: decoding in two calls gives what one call gives.  When the first
    call, for [n1] bytes, does not reach the pad character, a second call on
    the remaining input for [n2] bytes delivers the rest of what a single
    call for [n1 + n2] bytes delivers, leaves the same state and the same
    remaining input, and returns the same code if it decoded anything. *)
Theorem radix64_read_split (afx : Armor.armor_filter_context_t) (a : list Z)
  (n1 n2 : Z) :
  0 <= n1 -> 0 <= n2 ->
  rb_checkcrc (radix_loop n1 a [] (Armor.idx afx) (radbuf0 afx)) = false ->
  let r1 := radix64_read afx a n1 in
  let r2 := radix64_read (rr_afx r1) (rr_rest r1) n2 in
  let r := radix64_read afx a (n1 + n2) in
  rr_out r = rr_out r1 ++ rr_out r2
  /\ rr_afx r = rr_afx r2
  /\ rr_rest r = rr_rest r2
  /\ (rr_out r2 <> [] -> rr_rc r = rr_rc r2).
Proof.
  intros H1 H2 Hc. cbn zeta.
  pose proof (radix_loop_split n1 n2 a H2 [] (Armor.idx afx) (radbuf0 afx) H1 Hc)
    as Hsplit.
  rewrite (radix64_read_finish afx a (n1 + n2)), Hsplit.
  rewrite (radix64_read_finish afx a n1).
  destruct (radix_loop n1 a [] (Armor.idx afx) (radbuf0 afx))
    as [buf1 i1 v1 check1 rest1].
  cbn [rb_checkcrc] in Hc. subst check1.
  cbn [rb_buf rb_idx rb_val rb_checkcrc rb_rest].
  assert (E1 : forall afx0,
    radix_finish afx0 (mk_radix_body buf1 i1 v1 false rest1)
    = mk_radix_result (match buf1 with [] => RC_EOF | _ :: _ => RC_OK end)
                      buf1 afx0 rest1) by reflexivity.
  rewrite E1. cbn [rr_out rr_afx rr_rest].
  rewrite radix64_read_finish.
  cbn [Armor.idx radbuf0 Armor.crc set_radbuf0 set_idx set_crc].
  set (b2 := radix_loop n2 rest1 [] i1 v1).
  cbn [radix_after rb_buf rb_idx rb_val].
  rewrite <- crc_update_app.
  pose proof (radix_finish_after
    (Armor.mk_afx (only_keyblocks afx) (inp_checked afx) (inp_bypass afx)
       (in_cleartext afx) (not_dash_escaped afx) (hashes afx) (faked afx)
       (truncated afx) (buffer afx) (buffer_pos afx) (rb_val b2) (rb_idx b2)
       (crc_update (crc_update (Armor.crc afx) buf1) (rb_buf b2))
       (any_data afx) (empty afx)) buf1 b2) as (Ho & Ha & Hr & Hrc).
  repeat split; try assumption.
  intros Hne. apply Hrc. rewrite radix_finish_out in Hne. exact Hne.
Qed.

Lemma radix64_read_split_witness :
  let r1 := radix64_read afx_radix (bytes "aGVsbG8h") 3 in
  let r2 := radix64_read (rr_afx r1) (rr_rest r1) 3 in
  let r := radix64_read afx_radix (bytes "aGVsbG8h") (3 + 3) in
  rr_out r = rr_out r1 ++ rr_out r2
  /\ rr_afx r = rr_afx r2
  /\ rr_rest r = rr_rest r2
  /\ (rr_out r2 <> [] -> rr_rc r = rr_rc r2).
Proof.
  apply (radix64_read_split afx_radix (bytes "aGVsbG8h") 3 3).
  - lia.
  - lia.
  - reflexivity.
Defined.

End ArmorCodec.

Module ArmorInputFacts.
Import Armor ArmorFacts ArmorInput.

(** ** The header lines *)

Lemma parse_header_line_verdict (afx : armor_filter_context_t) (line : list Z) :
  fst (parse_header_line (set_buffer line afx))
  = header_verdict (in_cleartext afx) line
  /\ in_cleartext (snd (parse_header_line (set_buffer line afx)))
     = in_cleartext afx
  /\ only_keyblocks (snd (parse_header_line (set_buffer line afx)))
     = only_keyblocks afx.
Proof.
  unfold header_verdict, parse_header_line.
  cbn [buffer set_buffer in_cleartext only_keyblocks].
  destruct (_ || _); [cbn; auto|].
  cbn [buffer set_buffer in_cleartext only_keyblocks].
  destruct (negb (colon_with_text _)); [cbn; auto|].
  destruct (negb (in_cleartext afx =? 0)); [|cbn; auto].
  destruct (negb (parse_hash_header _ =? 0)); [cbn; auto|].
  destruct (_ && _); cbn; auto.
Qed.

Lemma empty_line_verdict (cleartext : Z) (line : list Z) :
  empty_line line = true -> header_verdict cleartext line = 0 /\ line <> [].
Proof.
  unfold header_verdict, parse_header_line, empty_line.
  cbn [buffer]. intros H. rewrite H. split; [reflexivity|].
  intros ->. discriminate H.
Qed.

Lemma parse_header_line_clearsig (afx : armor_filter_context_t) (line : list Z) :
  in_cleartext afx <> 0 ->
  header_verdict (in_cleartext afx) line = 1 ->
  hashes (snd (parse_header_line (set_buffer line afx)))
  = Z.lor (hashes afx) (parse_hash_header (cstr (trim_written line))).
Proof.
  intros Hc. unfold header_verdict, parse_header_line.
  cbn [buffer set_buffer in_cleartext hashes].
  destruct (_ || _); [discriminate|].
  cbn [buffer set_buffer in_cleartext hashes].
  destruct (negb (colon_with_text _)); [discriminate|].
  replace (in_cleartext afx =? 0) with false
    by (symmetry; apply Z.eqb_neq; exact Hc).
  cbn [negb].
  destruct (Z.eqb_spec (parse_hash_header (cstr (trim_written line))) 0)
    as [E|E]; cbn [negb].
  - destruct (_ && _); [|discriminate]. intros _. cbn. rewrite E.
    rewrite Z.lor_0_r. reflexivity.
  - intros _. reflexivity.
Qed.

Lemma parse_header_line_empty (afx : armor_filter_context_t) (line : list Z) :
  header_verdict (in_cleartext afx) line = 0 ->
  parse_header_line (set_buffer line afx) = (0, set_buffer line afx).
Proof.
  unfold header_verdict, parse_header_line.
  cbn [buffer set_buffer in_cleartext].
  destruct (_ || _); [reflexivity|].
  cbn [buffer set_buffer in_cleartext].
  destruct (negb (colon_with_text _)); [discriminate|].
  destruct (negb (in_cleartext afx =? 0)); [|discriminate].
  destruct (negb (parse_hash_header _ =? 0)); [discriminate|].
  destruct (_ && _); discriminate.
Qed.

(** The loop over the header lines on lines that it passes, up to a line
    that it does not. *)
Lemma read_header_lines_passed (hdrs : list rline) (l : rline)
  (rest : list rline) :
  forall afx : armor_filter_context_t,
  Forall (header_passed (in_cleartext afx)) hdrs ->
  rl_truncated l = false ->
  header_verdict (in_cleartext afx) (rl_bytes l) <= 0 ->
  exists afx',
    read_header_lines (hdrs ++ l :: rest) afx
    = (header_verdict (in_cleartext afx) (rl_bytes l), afx', rest)
    /\ in_cleartext afx' = in_cleartext afx
    /\ (header_verdict (in_cleartext afx) (rl_bytes l) = 0 ->
        buffer afx' = rl_bytes l)
    /\ (in_cleartext afx <> 0 ->
        header_verdict (in_cleartext afx) (rl_bytes l) = 0 ->
        hashes afx' = fold_left header_hashes hdrs (hashes afx)).
Proof.
  induction hdrs as [|h hdrs IH]; intros afx Hp Ht Hv; cbn [app read_header_lines].
  - rewrite Ht.
    destruct (parse_header_line_verdict afx (rl_bytes l)) as (V & C & _).
    pose proof (parse_header_line_empty afx (rl_bytes l)) as He.
    destruct (parse_header_line (set_buffer (rl_bytes l) afx)) as [i afx1].
    cbn [fst snd] in V, C. subst i.
    replace (header_verdict (in_cleartext afx) (rl_bytes l) <=? 0) with true
      by (symmetry; apply Z.leb_le; exact Hv).
    cbn [orb]. exists afx1. split; [reflexivity|]. split; [exact C|].
    split.
    + intros H0. apply He in H0. inversion H0; subst. reflexivity.
    + intros Hc H0. apply He in H0. inversion H0; subst. reflexivity.
  - inversion Hp as [|? ? Hh Hp']; subst.
    destruct (rl_truncated h) eqn:Htr.
    + destruct (IH afx Hp' Ht Hv) as (afx' & E & C & Hbuf & Hh').
      exists afx'. split; [exact E|]. split; [exact C|].
      split; [exact Hbuf|].
      intros Hc H0. cbn [fold_left]. unfold header_hashes at 2. rewrite Htr.
      exact (Hh' Hc H0).
    + destruct Hh as [Hf | [Hne Hv1]]; [congruence|].
      destruct (parse_header_line_verdict afx (rl_bytes h)) as (V & C & _).
      pose proof (parse_header_line_clearsig afx (rl_bytes h)) as Hhash.
      destruct (parse_header_line (set_buffer (rl_bytes h) afx)) as [i afx1].
      cbn [fst snd] in V, C, Hhash. subst i. rewrite Hv1.
      cbn [Z.leb Z.compare orb].
      destruct (rl_bytes h) as [|b bs] eqn:Eb; [contradiction|].
      rewrite <- C in Hp', Hv.
      destruct (IH afx1 Hp' Ht Hv) as (afx' & E & C' & Hbuf & Hh').
      rewrite C in *.
      exists afx'. split; [exact E|]. split; [congruence|].
      split; [exact Hbuf|].
      intros Hc H0. cbn [fold_left]. unfold header_hashes at 2.
      rewrite Htr, Eb. rewrite <- Hhash by assumption. exact (Hh' Hc H0).
Qed.

(** ** [check_input] *)

Lemma header_wanted_nonneg (okb i : Z) : header_wanted okb i = true -> 0 <= i.
Proof.
  unfold header_wanted. intros H. apply andb_true_iff in H.
  destruct H as [H _]. apply Z.leb_le in H. exact H.
Qed.

Lemma is_armor_header_dashes (line : list Z) :
  0 <= is_armor_header line -> has_prefix dashes line = true.
Proof.
  unfold is_armor_header. destruct (_ <? _)%nat; [lia|].
  destruct (has_prefix dashes line); [reflexivity | cbn; lia].
Qed.

Lemma find_armor_header_skips (okb : Z) (junk : list (list Z)) (hdr : list Z)
  (rest : list rline) :
  Forall (fun l => l <> [] /\ header_wanted okb (is_armor_header l) = false)
         junk ->
  header_wanted okb (is_armor_header hdr) = true ->
  find_armor_header okb (map whole junk ++ whole hdr :: rest)
  = (Some (is_armor_header hdr), hdr, rest).
Proof.
  intros Hj Hh. induction Hj as [|l junk [Hne Hw] _ IH];
    cbn [map app find_armor_header whole rl_truncated rl_bytes].
  - destruct hdr as [|b bs] eqn:E.
    + apply header_wanted_nonneg in Hh. cbn in Hh. lia.
    + rewrite Hh. reflexivity.
  - destruct l as [|b bs]; [contradiction|]. rewrite Hw. exact IH.
Qed.

(** ** [is_armor_header] *)

Lemma has_prefix_firstn (pre l : list Z) :
  has_prefix pre l = true <-> firstn (length pre) l = pre.
Proof.
  revert l. induction pre as [|a pre IH]; intros l.
  - split; reflexivity.
  - destruct l as [|b l]; cbn [has_prefix length firstn].
    + split; discriminate.
    + rewrite andb_true_iff, Z.eqb_eq, IH. split.
      * intros [-> ->]. reflexivity.
      * intros H. injection H as -> H. split; [reflexivity | exact H].
Qed.

Lemma strstr_split (pat l : list Z) (k : nat) :
  strstr pat l = Some k ->
  l = firstn k l ++ pat ++ skipn (k + length pat) l.
Proof.
  revert k. induction l as [|c l IH]; intros k; cbn [strstr].
  - destruct (has_prefix pat []) eqn:E.
    + intros H. injection H as <-. destruct pat; [reflexivity | discriminate].
    + discriminate.
  - destruct (has_prefix pat (c :: l)) eqn:E.
    + intros H. injection H as <-. cbn [firstn app Nat.add].
      apply has_prefix_firstn in E.
      pose proof (firstn_skipn (length pat) (c :: l)) as F.
      rewrite E in F. symmetry. exact F.
    + destruct (strstr pat l) as [k'|]; [|discriminate].
      intros H. injection H as <-. cbn [firstn app Nat.add skipn].
      f_equal. apply IH. reflexivity.
Qed.

Lemma find_string_nth (p : list Z) (table : list (list Z)) (i0 i : Z) :
  find_string p table i0 = Some i ->
  i0 <= i /\ nth_error table (Z.to_nat (i - i0)) = Some p.
Proof.
  revert i0. induction table as [|s table IH]; intros i0; cbn [find_string].
  - discriminate.
  - destruct (list_eqb s p) eqn:E.
    + intros H. injection H as <-. apply list_eqb_eq in E. subst s.
      rewrite Z.sub_diag. split; [lia | reflexivity].
    + intros H. destruct (IH _ H) as [Hle Hn]. split; [lia|].
      replace (Z.to_nat (i - i0)) with (S (Z.to_nat (i - (i0 + 1)))) by lia.
      exact Hn.
Qed.

Lemma cstr_length (l : list Z) : (length (cstr l) <= length l)%nat.
Proof.
  induction l as [|c l IH]; [cbn; lia|].
  cbn [cstr]. destruct (c =? NUL); cbn [length]; lia.
Qed.

(** X8: what [is_armor_header] accepts.  A line gets the index [i] exactly
    when it starts with five dashes and the rest, up to the first NUL, is
    the [i]-th BEGIN text, five dashes and then nothing, CR, LF or CR LF;
    anything else is not an armor header. *)
Theorem is_armor_header_shape (line : list Z) (i : Z) :
  0 <= i ->
  (is_armor_header line = i
   <-> exists hs eol,
         nth_error head_strings (Z.to_nat i) = Some hs
         /\ In eol line_ends
         /\ firstn 5 line = dashes
         /\ cstr (skipn 5 line) = hs ++ dashes ++ eol).
Proof.
  intros Hi. split.
  - unfold is_armor_header. intros H.
    destruct (length line <? 15)%nat; [lia|].
    destruct (has_prefix dashes line) eqn:Hp; cbn [negb] in H; [|lia].
    destruct (strstr dashes (cstr (skipn 5 line))) as [k|] eqn:Hs; [|lia].
    set (s := cstr (skipn 5 line)) in *.
    pose proof (strstr_split _ _ _ Hs) as Hsplit.
    change (length dashes) with 5%nat in Hsplit.
    set (p := skipn (k + 5) s) in *.
    destruct (find_string (firstn k s) head_strings 0) as [j|] eqn:Hf.
    + destruct (find_string_nth _ _ _ _ Hf) as [_ Hn].
      rewrite Z.sub_0_r in Hn.
      assert (Hend : In p line_ends /\ j = i).
      { destruct p as [|c p']; [split; [left; reflexivity | exact H]|].
        destruct (c =? CR) eqn:Ec.
        - apply Z.eqb_eq in Ec. subst c.
          destruct p' as [|d p'']; [split; [right; left; reflexivity | exact H]|].
          destruct (d =? LF) eqn:Ed.
          + apply Z.eqb_eq in Ed. subst d.
            destruct p''; [|lia].
            split; [right; right; right; left; reflexivity | exact H].
          + lia.
        - destruct (c =? LF) eqn:Ed.
          + apply Z.eqb_eq in Ed. subst c.
            destruct p'; [|lia].
            split; [right; right; left; reflexivity | exact H].
          + lia. }
      destruct Hend as [Hp' ->].
      exists (firstn k s), p. split; [exact Hn|]. split; [exact Hp'|].
      split; [apply (has_prefix_firstn dashes line); exact Hp | exact Hsplit].
    + destruct p as [|c p']; [lia|].
      destruct (c =? CR); [destruct p' as [|d p'']; [lia|];
                           destruct (d =? LF); [destruct p''; lia | lia]|].
      destruct (c =? LF); [destruct p'; lia | lia].
  - intros (hs & eol & Hn & He & Hd & Hs).
    unfold is_armor_header.
    assert (Hp : has_prefix dashes line = true)
      by (apply has_prefix_firstn; exact Hd).
    assert (Hlen : (17 <= length hs)%nat -> (length line <? 15)%nat = false).
    { intros Hh. apply Nat.ltb_ge.
      pose proof (cstr_length (skipn 5 line)) as Hc. rewrite Hs in Hc.
      rewrite length_skipn, !length_app in Hc. lia. }
    rewrite Hp, Hs. cbn [negb].
    assert (Hi' : i = Z.of_nat (Z.to_nat i)) by lia.
    destruct (Z.to_nat i) as [|[|[|[|[|[|[|n]]]]]]];
      cbn [nth_error head_strings] in Hn;
      try (destruct n; discriminate Hn);
      injection Hn as <-; rewrite Hi';
      (rewrite Hlen by (vm_compute; lia));
      (destruct He as [<-|[<-|[<-|[<-|[]]]]]; vm_compute; reflexivity).
Qed.

Lemma is_armor_header_shape_witness :
  is_armor_header (bytes "-----BEGIN PGP SIGNATURE-----" ++ [CR; LF]) = 2
  <-> exists hs eol,
        nth_error head_strings (Z.to_nat 2) = Some hs
        /\ In eol line_ends
        /\ firstn 5 (bytes "-----BEGIN PGP SIGNATURE-----" ++ [CR; LF]) = dashes
        /\ cstr (skipn 5 (bytes "-----BEGIN PGP SIGNATURE-----" ++ [CR; LF]))
           = hs ++ dashes ++ eol.
Proof.
  apply (is_armor_header_shape
           (bytes "-----BEGIN PGP SIGNATURE-----" ++ [CR; LF]) 2).
  lia.
Defined.

(** ** [parse_hash_header] *)

Lemma strncmp_eq_prefix (w rest name : list Z) :
  forallb (fun c => negb (c =? NUL)) w = true ->
  strncmp_eq (w ++ rest) name (length w) = has_prefix w name.
Proof.
  revert name. induction w as [|c w IH]; intros name Hw; [reflexivity|].
  cbn [forallb] in Hw. apply andb_true_iff in Hw. destruct Hw as [Hc Hw].
  apply negb_true_iff in Hc.
  destruct name as [|d name]; cbn [app length strncmp_eq hd tl has_prefix].
  - change (c =? NUL) with (c =? 0) in Hc.
    unfold NUL. rewrite Hc. reflexivity.
  - destruct (c =? d); [|reflexivity].
    rewrite Hc. cbn [andb]. apply IH. exact Hw.
Qed.

Lemma is_word_cons (w : list Z) :
  is_word w = true ->
  exists c w', w = c :: w' /\ is_blank c = false
    /\ forallb (fun c => negb (c =? NUL)) w = true
    /\ forallb (fun c => negb (is_blank c || (c =? ch ","))) w' = true.
Proof.
  unfold is_word. intros H. apply andb_true_iff in H. destruct H as [Hn Hf].
  destruct w as [|c w']; [discriminate|].
  exists c, w'. split; [reflexivity|].
  assert (Hall : forall l,
    forallb (fun c => negb ((c =? NUL) || is_blank c || (c =? ch ","))) l = true ->
    forallb (fun c => negb (c =? NUL)) l = true
    /\ forallb (fun c => negb (is_blank c || (c =? ch ","))) l = true).
  { induction l as [|x l IHl]; [split; reflexivity|].
    cbn [forallb]. intros Hx. apply andb_true_iff in Hx. destruct Hx as [Hx Hl].
    destruct (IHl Hl) as [H1 H2]. rewrite H1, H2.
    destruct (x =? NUL), (is_blank x), (x =? ch ","); try discriminate.
    split; reflexivity. }
  pose proof (Hall _ Hf) as [H1 _].
  cbn [forallb] in Hf. apply andb_true_iff in Hf. destruct Hf as [Hc Hw'].
  destruct (Hall _ Hw') as [_ H2].
  repeat split; auto.
  destruct (c =? NUL), (is_blank c); try discriminate; reflexivity.
Qed.

Lemma token_end_word (w rest : list Z) :
  forallb (fun c => negb (is_blank c || (c =? ch ","))) w = true ->
  match rest with [] => True | c :: _ => c = ch "," end ->
  token_end (w ++ rest) = length w.
Proof.
  intros Hw Hr. induction w as [|c w IH].
  - destruct rest as [|r rest]; [reflexivity|]. subst r.
    cbn [app token_end length]. rewrite Z.eqb_refl, orb_true_r. reflexivity.
  - cbn [forallb] in Hw. apply andb_true_iff in Hw. destruct Hw as [Hc Hw].
    apply negb_true_iff in Hc. cbn [app token_end length].
    rewrite Hc, (IH Hw). reflexivity.
Qed.

Lemma skipn_app_length {A} (l r : list A) : skipn (length l) (l ++ r) = r.
Proof. induction l as [|x l IH]; [reflexivity | exact IH]. Qed.

Lemma hash_names_list (words : list (list Z)) :
  forall (fuel : nat) (found : Z),
    (length words < fuel)%nat ->
    forallb is_word words = true ->
    hash_names fuel (hash_list words) found = hash_found words found.
Proof.
  induction words as [|w ws IH]; intros fuel found Hf Hw.
  - destruct fuel as [|fuel]; [cbn in Hf; lia | reflexivity].
  - destruct fuel as [|fuel]; [cbn in Hf; lia|].
    cbn [forallb] in Hw. apply andb_true_iff in Hw. destruct Hw as [Hw Hws].
    destruct (is_word_cons w Hw) as (c & w' & Ew & Hc & Hnul & Hw').
    set (rest := match ws with [] => [] | _ :: _ => ch "," :: hash_list ws end).
    assert (Hrest : match rest with [] => True | x :: _ => x = ch "," end)
      by (subst rest; destruct ws; [exact I | reflexivity]).
    change (hash_list (w :: ws)) with (SP :: w ++ rest).
    cbn [hash_names]. change (skip_blanks (SP :: w ++ rest))
      with (skip_blanks (w ++ rest)).
    rewrite Ew. cbn [app skip_blanks]. rewrite Hc.
    rewrite (token_end_word w' rest Hw' Hrest).
    change (c :: w' ++ rest) with ((c :: w') ++ rest).
    change (S (length w')) with (length (c :: w')).
    rewrite <- Ew.
    rewrite !(strncmp_eq_prefix w rest _ Hnul).
    rewrite skipn_app_length.
    cbn [hash_found]. unfold hash_bit, hash_table. cbn [hash_bit_in].
    assert (Htail : forall b,
      match skip_blanks rest with
      | [] => hash_names fuel [] (Z.lor found b)
      | c2 :: s2 =>
          if c2 =? ch "," then hash_names fuel s2 (Z.lor found b) else None
      end = hash_found ws (Z.lor found b)).
    { intros b. subst rest. destruct ws as [|w2 ws'].
      - cbn [skip_blanks]. destruct fuel as [|fuel]; [cbn in Hf; lia|].
        reflexivity.
      - cbn [skip_blanks]. change (is_blank (ch ",")) with false.
        cbn iota. rewrite Z.eqb_refl. apply IH; [cbn in Hf |- *; lia | exact Hws]. }
    destruct (has_prefix w (bytes "RIPEMD160")); [apply Htail|].
    destruct (has_prefix w (bytes "SHA1")); [apply Htail|].
    destruct (has_prefix w (bytes "MD5")); [apply Htail|].
    destruct (has_prefix w (bytes "TIGER")); [apply Htail|].
    reflexivity.
Qed.

Lemma hash_list_length (words : list (list Z)) :
  forallb is_word words = true ->
  (length words <= length (hash_list words))%nat.
Proof.
  induction words as [|w ws IH]; intros Hw; [cbn; lia|].
  cbn [forallb] in Hw. apply andb_true_iff in Hw. destruct Hw as [Hw Hws].
  destruct (is_word_cons w Hw) as (c & w' & Ew & _).
  specialize (IH Hws). subst w.
  cbn [hash_list length]. rewrite length_app.
  destruct ws; cbn [length] in *; lia.
Qed.

Lemma hash_list_cstr (words : list (list Z)) :
  forallb is_word words = true -> cstr (hash_list words) = hash_list words.
Proof.
  induction words as [|w ws IH]; intros Hw; [reflexivity|].
  cbn [forallb] in Hw. apply andb_true_iff in Hw. destruct Hw as [Hw Hws].
  destruct (is_word_cons w Hw) as (c & w' & Ew & _ & Hnul & _).
  specialize (IH Hws).
  set (rest := match ws with [] => [] | _ :: _ => ch "," :: hash_list ws end).
  assert (Hrest : cstr rest = rest).
  { subst rest. destruct ws; [reflexivity|].
    cbn [cstr]. change (ch "," =? NUL) with false. cbn iota.
    rewrite IH. reflexivity. }
  change (hash_list (w :: ws)) with (SP :: w ++ rest).
  cbn [cstr]. change (SP =? NUL) with false. cbn iota. f_equal.
  clear Ew Hw. induction w as [|x w IHw]; [exact Hrest|].
  cbn [forallb] in Hnul. apply andb_true_iff in Hnul. destruct Hnul as [Hx Hnul].
  apply negb_true_iff in Hx. cbn [app cstr]. rewrite Hx, (IHw Hnul). reflexivity.
Qed.

(** X9: [parse_hash_header] on the argument [Hash:] followed by words, each
    after a blank and separated by commas, of at most 60 bytes: the result
    is the union of the bits of the words when every word is a prefix of a
    digest name (it selects the first such name in the order RIPEMD160,
    SHA1, MD5, TIGER, so [M] counts as MD5), and 0 when some word is not. *)
Theorem parse_hash_header_names (words : list (list Z)) :
  forallb is_word words = true ->
  (length (bytes "Hash:" ++ hash_list words) <= 60)%nat ->
  parse_hash_header (bytes "Hash:" ++ hash_list words)
  = match hash_found words 0 with Some found => found | None => 0 end.
Proof.
  intros Hw Hlen.
  unfold parse_hash_header.
  assert (Hc : cstr (bytes "Hash:" ++ hash_list words)
               = bytes "Hash:" ++ hash_list words).
  { change (bytes "Hash:" ++ hash_list words)
      with (ch "H" :: ch "a" :: ch "s" :: ch "h" :: ch ":" :: hash_list words).
    cbn [cstr].
    change (ch "H" =? NUL) with false. change (ch "a" =? NUL) with false.
    change (ch "s" =? NUL) with false. change (ch "h" =? NUL) with false.
    change (ch ":" =? NUL) with false. cbn iota.
    rewrite (hash_list_cstr words Hw). reflexivity. }
  rewrite Hc.
  destruct words as [|w ws]; [reflexivity|].
  pose proof (hash_list_length (w :: ws) Hw) as Hl.
  assert (H6 : (length (bytes "Hash:" ++ hash_list (w :: ws)) <? 6)%nat = false).
  { apply Nat.ltb_ge. rewrite length_app. cbn [length] in Hl |- *.
    change (length (bytes "Hash:")) with 5%nat. lia. }
  assert (H60 : (60 <? length (bytes "Hash:" ++ hash_list (w :: ws)))%nat = false)
    by (apply Nat.ltb_ge; exact Hlen).
  rewrite H6, H60. cbn [orb].
  change (has_prefix (bytes "Hash:") (bytes "Hash:" ++ hash_list (w :: ws)))
    with true.
  cbn [negb].
  change (skipn 5 (bytes "Hash:" ++ hash_list (w :: ws)))
    with (hash_list (w :: ws)).
  rewrite hash_names_list; [reflexivity | | exact Hw].
  rewrite length_app. change (length (bytes "Hash:")) with 5%nat. lia.
Qed.

Lemma parse_hash_header_names_witness :
  parse_hash_header (bytes "Hash:" ++ hash_list [bytes "SHA1"; bytes "M"])
  = match hash_found [bytes "SHA1"; bytes "M"] 0 with
    | Some found => found
    | None => 0
    end.
Proof.
  apply (parse_hash_header_names [bytes "SHA1"; bytes "M"]).
  - reflexivity.
  - cbn. lia.
Defined.


Section DetectFacts.

Variables PKT_MARKER PKT_SYMKEY_ENC PKT_PUBLIC_KEY PKT_SECRET_KEY
          PKT_PUBKEY_ENC PKT_SIGNATURE PKT_COMMENT PKT_OLD_COMMENT
          PKT_PLAINTEXT PKT_COMPRESSED PKT_ENCRYPTED : Z.

Local Abbreviation is_armored :=
  (is_armored PKT_MARKER PKT_SYMKEY_ENC PKT_PUBLIC_KEY PKT_SECRET_KEY
     PKT_PUBKEY_ENC PKT_SIGNATURE PKT_COMMENT PKT_OLD_COMMENT
     PKT_PLAINTEXT PKT_COMPRESSED PKT_ENCRYPTED).
Local Abbreviation check_input :=
  (check_input PKT_MARKER PKT_SYMKEY_ENC PKT_PUBLIC_KEY PKT_SECRET_KEY
     PKT_PUBKEY_ENC PKT_SIGNATURE PKT_COMMENT PKT_OLD_COMMENT
     PKT_PLAINTEXT PKT_COMPRESSED PKT_ENCRYPTED).

Lemma dash_line_armored (line : list Z) :
  has_prefix dashes line = true -> is_armored line = true /\ line <> [].
Proof.
  destruct line as [|b bs]; [discriminate|].
  cbn [has_prefix dashes bytes]. intros H. apply andb_true_iff in H.
  destruct H as [H _]. apply Z.eqb_eq in H. subst b.
  split; [reflexivity | discriminate].
Qed.

Lemma check_input_armor (afx : armor_filter_context_t) (first : list Z)
  (a' : list rline) (hdr : list Z) (hdrs : list rline) (blank : list Z)
  (body : list rline) :
  in_cleartext afx = 0 ->
  first <> [] ->
  empty_line first = true \/ is_armored first = true ->
  (if header_wanted (only_keyblocks afx) (is_armor_header first)
   then (Some (is_armor_header first), first, a')
   else find_armor_header (only_keyblocks afx) a')
  = (Some (is_armor_header hdr), hdr, hdrs ++ whole blank :: body) ->
  hdr <> [] ->
  is_armor_header hdr <> BEGIN_SIGNED_MSG_IDX ->
  Forall (header_passed 0) hdrs ->
  empty_line blank = true ->
  exists afx',
    check_input afx (whole first :: a') = Ok (RC_OK, afx', body)
    /\ inp_checked afx' = 1 /\ crc afx' = CRCINIT /\ idx afx' = 0
    /\ radbuf0 afx' = 0 /\ buffer afx' = blank.
Proof.
  intros Hc Hne Harm Hfind Hhne Hns Hp Hb.
  unfold ArmorInput.check_input. cbn [whole rl_truncated rl_bytes].
  destruct first as [|b bs] eqn:Ef; [contradiction|].
  replace (negb (empty_line (b :: bs)) && negb (is_armored (b :: bs)))
    with false
    by (destruct Harm as [-> | ->]; cbn [negb andb];
        [reflexivity | destruct (negb _); reflexivity]).
  cbn [only_keyblocks set_buffer]. rewrite Hfind.
  replace (is_armor_header hdr =? BEGIN_SIGNED_MSG_IDX) with false
    by (symmetry; apply Z.eqb_neq; exact Hns).
  destruct hdr as [|hb hbs] eqn:Eh; [contradiction|].
  destruct (empty_line_verdict 0 blank Hb) as [Hv0 Hbne].
  destruct (read_header_lines_passed hdrs (whole blank) body
              (set_buffer (hb :: hbs) (set_buffer (b :: bs) afx)))
    as (afx' & Er & Hc' & Hbuf & _).
  { cbn [in_cleartext set_buffer]. rewrite Hc. exact Hp. }
  { reflexivity. }
  { cbn [in_cleartext set_buffer whole rl_bytes]. rewrite Hc, Hv0. lia. }
  cbn [in_cleartext set_buffer whole rl_bytes] in Er, Hc', Hbuf.
  rewrite Hc in Er, Hbuf. rewrite Hv0 in Er. specialize (Hbuf Hv0).
  rewrite Er.
  cbn [Z.ltb Z.compare rc_is_ok negb].
  rewrite Hc', Hc. cbn [Z.eqb negb].
  eexists. split; [reflexivity|]. cbn. auto.
Qed.

(** X10: [check_input] looks for the armor outside of a clearsigned text.
    When the first line is empty or starts like armor, the lines that are
    not a wanted BEGIN line are passed over, the header lines up to the
    empty line are consumed, and the reader is left at the body with the
    input marked as checked, the CRC at its initial value and the decoder
    at the start of a group. *)
Theorem check_input_finds_header (afx : armor_filter_context_t)
  (junk : list (list Z)) (hdr : list Z) (hdrs : list rline) (blank : list Z)
  (body : list rline) :
  in_cleartext afx = 0 ->
  Forall (fun l => l <> []
                   /\ header_wanted (only_keyblocks afx) (is_armor_header l)
                      = false) junk ->
  match junk with
  | [] => True
  | l :: _ => empty_line l = true \/ is_armored l = true
  end ->
  header_wanted (only_keyblocks afx) (is_armor_header hdr) = true ->
  is_armor_header hdr <> BEGIN_SIGNED_MSG_IDX ->
  Forall (header_passed 0) hdrs ->
  empty_line blank = true ->
  exists afx',
    check_input afx (map whole junk ++ whole hdr :: hdrs ++ whole blank :: body)
    = Ok (RC_OK, afx', body)
    /\ inp_checked afx' = 1 /\ crc afx' = CRCINIT /\ idx afx' = 0
    /\ radbuf0 afx' = 0 /\ buffer afx' = blank.
Proof.
  intros Hc Hj Hfirst Hw Hns Hp Hb.
  assert (Hhne : hdr <> []).
  { intros ->. apply header_wanted_nonneg in Hw. cbn in Hw. lia. }
  destruct junk as [|j junk]; cbn [map app].
  - destruct (dash_line_armored hdr
                (is_armor_header_dashes hdr (header_wanted_nonneg _ _ Hw)))
      as [Ha _].
    apply check_input_armor with (hdr := hdr) (hdrs := hdrs); auto.
    rewrite Hw. reflexivity.
  - inversion Hj as [|? ? [Hne Hwj] Hj']; subst.
    apply check_input_armor with (hdr := hdr) (hdrs := hdrs); auto.
    rewrite Hwj. apply find_armor_header_skips; assumption.
Qed.

Lemma check_input_signed (afx : armor_filter_context_t) (hdr : list Z)
  (a' : list rline) :
  only_keyblocks afx = 0 ->
  is_armor_header hdr = BEGIN_SIGNED_MSG_IDX ->
  exists b bs,
    hdr = b :: bs
    /\ check_input afx (whole hdr :: a')
       = (let '(i, afx1, a) :=
            read_header_lines a'
              (set_in_cleartext 1 (set_buffer hdr (set_buffer hdr afx))) in
          let rc := if i <? 0 then RC_ERR G10ERR_INVALID_ARMOR
                    else if negb (in_cleartext afx =? 0)
                         then RC_ERR G10ERR_INVALID_ARMOR else RC_OK in
          if negb (rc_is_ok rc) then Exit 1
          else if negb (in_cleartext afx1 =? 0)
               then Ok (rc, set_faked 1 afx1, a)
               else Ok (rc,
                        set_radbuf0 0
                          (set_idx 0 (set_crc CRCINIT (set_inp_checked 1 afx1))),
                        a)).
Proof.
  intros Hk Hh.
  assert (H0 : 0 <= is_armor_header hdr) by (rewrite Hh; unfold BEGIN_SIGNED_MSG_IDX; lia).
  destruct (dash_line_armored hdr (is_armor_header_dashes hdr H0)) as [Ha Hne].
  destruct hdr as [|b bs] eqn:Eh; [contradiction|].
  exists b, bs. split; [reflexivity|].
  unfold ArmorInput.check_input. cbn [whole rl_truncated rl_bytes].
  rewrite Ha. rewrite andb_false_r.
  cbn [only_keyblocks set_buffer]. rewrite Hk, Hh.
  cbn [header_wanted Z.leb Z.compare Z.eqb negb andb BEGIN_SIGNED_MSG_IDX Pos.eqb].
  cbn [in_cleartext set_buffer set_in_cleartext].
  destruct (read_header_lines a' _) as [[i afx1] a2].
  destruct (i <? 0); reflexivity.
Qed.

(** X11: a clearsigned message is recognised.  On a BEGIN PGP SIGNED
    MESSAGE line followed by [Hash:] (or [NotDashEscaped:]) header lines and
    an empty line, [check_input] succeeds, switches to cleartext mode with
    [faked] set, leaves the input at the text and has collected the digests
    named in the header lines. *)
Theorem check_input_clearsig (afx : armor_filter_context_t) (hdr : list Z)
  (hdrs : list rline) (blank : list Z) (body : list rline) :
  in_cleartext afx = 0 -> only_keyblocks afx = 0 ->
  is_armor_header hdr = BEGIN_SIGNED_MSG_IDX ->
  Forall (header_passed 1) hdrs ->
  empty_line blank = true ->
  exists afx',
    check_input afx (whole hdr :: hdrs ++ whole blank :: body)
    = Ok (RC_OK, afx', body)
    /\ faked afx' = 1 /\ in_cleartext afx' = 1
    /\ hashes afx' = fold_left header_hashes hdrs (hashes afx)
    /\ buffer afx' = blank.
Proof.
  intros Hc Hk Hh Hp Hb.
  destruct (check_input_signed afx hdr (hdrs ++ whole blank :: body) Hk Hh)
    as (b & bs & Eh & E).
  rewrite E. clear E.
  destruct (empty_line_verdict 1 blank Hb) as [Hv0 Hbne].
  destruct (read_header_lines_passed hdrs (whole blank) body
              (set_in_cleartext 1 (set_buffer hdr (set_buffer hdr afx))))
    as (afx' & Er & Hc' & Hbuf & Hhash).
  { exact Hp. }
  { reflexivity. }
  { cbn [in_cleartext set_in_cleartext whole rl_bytes]. rewrite Hv0. lia. }
  cbn [in_cleartext set_in_cleartext set_buffer whole rl_bytes hashes]
    in Er, Hc', Hbuf, Hhash.
  rewrite Hv0 in Er. rewrite Er, Hc, Hc'.
  cbn [Z.ltb Z.compare Z.eqb negb rc_is_ok].
  eexists. split; [reflexivity|].
  cbn [faked in_cleartext hashes buffer set_faked].
  repeat split; auto. apply Hhash; [discriminate | exact Hv0].
Qed.

(** X12: only [Hash:] and [NotDashEscaped:] may stand between the BEGIN PGP
    SIGNED MESSAGE line and the empty line: on any other non-empty line
    [check_input] ends the process with status 1, whatever follows. *)
Theorem clearsig_header_rejected (afx : armor_filter_context_t) (hdr : list Z)
  (hdrs : list rline) (bad : list Z) (rest : list rline) :
  only_keyblocks afx = 0 ->
  is_armor_header hdr = BEGIN_SIGNED_MSG_IDX ->
  Forall (header_passed 1) hdrs ->
  empty_line bad = false ->
  parse_hash_header (cstr (trim_written bad)) = 0 ->
  ((15 <? length (cstr (trim_written bad)))%nat
   && has_prefix (bytes "NotDashEscaped:") (cstr (trim_written bad))) = false ->
  check_input afx (whole hdr :: hdrs ++ whole bad :: rest) = Exit 1.
Proof.
  intros Hk Hh Hp He Hhash Hnde.
  destruct (check_input_signed afx hdr (hdrs ++ whole bad :: rest) Hk Hh)
    as (b & bs & Eh & E).
  rewrite E. clear E.
  assert (Hv : header_verdict 1 bad = -1).
  { unfold header_verdict, parse_header_line. cbn [buffer set_buffer].
    unfold empty_line in He. rewrite He.
    cbn [buffer set_buffer in_cleartext Z.eqb negb].
    destruct (negb (colon_with_text _)); [reflexivity|].
    rewrite Hhash, Hnde. reflexivity. }
  destruct (read_header_lines_passed hdrs (whole bad) rest
              (set_in_cleartext 1 (set_buffer hdr (set_buffer hdr afx))))
    as (afx' & Er & _).
  { exact Hp. }
  { reflexivity. }
  { cbn [in_cleartext set_in_cleartext whole rl_bytes]. rewrite Hv. lia. }
  cbn [in_cleartext set_in_cleartext whole rl_bytes] in Er.
  rewrite Hv in Er. rewrite Er. reflexivity.
Qed.

End DetectFacts.

Lemma check_input_finds_header_witness :
  exists afx',
    check_input 10 3 6 5 1 2 61 16 11 8 9 afx_radix
      (map whole [bytes "To: you" ++ [LF]]
       ++ whole (bytes "-----BEGIN PGP MESSAGE-----" ++ [LF])
       :: [whole (bytes "Version: 1" ++ [LF])] ++ whole [LF]
       :: [whole (bytes "AAAA" ++ [LF])])
    = Ok (RC_OK, afx', [whole (bytes "AAAA" ++ [LF])])
    /\ inp_checked afx' = 1 /\ crc afx' = CRCINIT /\ idx afx' = 0
    /\ radbuf0 afx' = 0 /\ buffer afx' = [LF].
Proof.
  apply (check_input_finds_header 10 3 6 5 1 2 61 16 11 8 9 afx_radix
           [bytes "To: you" ++ [LF]]
           (bytes "-----BEGIN PGP MESSAGE-----" ++ [LF])
           [whole (bytes "Version: 1" ++ [LF])] [LF]
           [whole (bytes "AAAA" ++ [LF])]).
  - reflexivity.
  - constructor; [|constructor]. split; [discriminate | reflexivity].
  - right. reflexivity.
  - reflexivity.
  - discriminate.
  - constructor; [|constructor]. right. split; [discriminate | reflexivity].
  - reflexivity.
Defined.

Lemma check_input_clearsig_witness :
  exists afx',
    check_input 10 3 6 5 1 2 61 16 11 8 9
      (mk_afx 0 0 0 0 0 0 0 0 [] 0 0 0 0 0 0)
      (whole (bytes "-----BEGIN PGP SIGNED MESSAGE-----" ++ [LF])
       :: [whole (bytes "Hash: SHA1" ++ [LF])] ++ whole [LF]
       :: [whole (bytes "hello" ++ [LF])])
    = Ok (RC_OK, afx', [whole (bytes "hello" ++ [LF])])
    /\ faked afx' = 1 /\ in_cleartext afx' = 1
    /\ hashes afx'
       = fold_left header_hashes [whole (bytes "Hash: SHA1" ++ [LF])]
                   (hashes (mk_afx 0 0 0 0 0 0 0 0 [] 0 0 0 0 0 0))
    /\ buffer afx' = [LF].
Proof.
  apply (check_input_clearsig 10 3 6 5 1 2 61 16 11 8 9
           (mk_afx 0 0 0 0 0 0 0 0 [] 0 0 0 0 0 0)
           (bytes "-----BEGIN PGP SIGNED MESSAGE-----" ++ [LF])
           [whole (bytes "Hash: SHA1" ++ [LF])] [LF]
           [whole (bytes "hello" ++ [LF])]).
  - reflexivity.
  - reflexivity.
  - reflexivity.
  - constructor; [|constructor]. right. split; [discriminate | reflexivity].
  - reflexivity.
Defined.

Lemma clearsig_header_rejected_witness :
  check_input 10 3 6 5 1 2 61 16 11 8 9
    (mk_afx 0 0 0 0 0 0 0 0 [] 0 0 0 0 0 0)
    (whole (bytes "-----BEGIN PGP SIGNED MESSAGE-----" ++ [LF])
     :: [whole (bytes "Hash: SHA1" ++ [LF])]
     ++ whole (bytes "Comment: signed by the king" ++ [LF])
     :: [whole [LF]; whole (bytes "hello" ++ [LF])])
  = Exit 1.
Proof.
  apply (clearsig_header_rejected 10 3 6 5 1 2 61 16 11 8 9
           (mk_afx 0 0 0 0 0 0 0 0 [] 0 0 0 0 0 0)
           (bytes "-----BEGIN PGP SIGNED MESSAGE-----" ++ [LF])
           [whole (bytes "Hash: SHA1" ++ [LF])]
           (bytes "Comment: signed by the king" ++ [LF])
           [whole [LF]; whole (bytes "hello" ++ [LF])]).
  - reflexivity.
  - reflexivity.
  - constructor; [|constructor]. right. split; [discriminate | reflexivity].
  - reflexivity.
  - reflexivity.
  - reflexivity.
Defined.

End ArmorInputFacts.

Module MainprocReportFacts.
Import Mainproc MainprocFacts MainprocReport.

Section ReportFacts.

Context {X : Collaborators}.

(** ** The return code and the context at the end *)

Lemma dispatch_unexpected (c : CTX) (pkt : PACKET) :
  dispatch c pkt = Ok None ->
  list_packets opt = false /\ (sigs_only c || encrypt_only c) = true.
Proof.
  unfold dispatch.
  destruct (list_packets opt); [|destruct (sigs_only c);
                                  [|destruct (encrypt_only c)]].
  all: destruct pkt; try discriminate; auto.
  all: unfold added;
    try (destruct (add_signature c _) as [[? ?]| |]; discriminate);
    try (destruct (add_onepass_sig c _) as [[? ?]| |]; discriminate);
    try (destruct (add_subkey c _) as [[? ?]| |]; discriminate);
    try (destruct (add_user_id c _) as [[? ?]| |]; discriminate);
    try (destruct (release_list c) as [?| |]; discriminate).
Qed.

Lemma proc_loop_rc (a : list parsed) : forall (c c1 : CTX) rc rest,
  proc_loop c a = Ok (rc, c1, rest) ->
  (rc = RC_OK \/ rc = RC_ERR G10ERR_UNEXPECTED)
  /\ sigs_only c1 = sigs_only c /\ encrypt_only c1 = encrypt_only c
  /\ (rc = RC_ERR G10ERR_UNEXPECTED ->
      list_packets opt = false /\ (sigs_only c || encrypt_only c) = true).
Proof.
  induction a as [|p a IH]; intros c c1 rc rest; cbn [proc_loop].
  - intros H; inversion H; subst. repeat split; auto; discriminate.
  - destruct (rc_is_eof (fst p)).
    + intros H; inversion H; subst. repeat split; auto; discriminate.
    + destruct (proc_packet c p) as [r| |] eqn:Ep; cbn [bind]; try discriminate.
      pose proof (proc_packet_list c p r Ep) as (Hs & He & _).
      pose proof (proc_packet_cases c p r Ep) as Hcases.
      destruct r as [c'|c'|rc' c']; cbn [ctx_of] in *.
      * intros H. apply IH in H. destruct H as (H1 & H2 & H3 & H4).
        rewrite Hs, He in *. auto.
      * intros H; inversion H; subst. repeat split; auto; discriminate.
      * intros H; inversion H; subst.
        destruct Hcases as [(_ & _ & [Hr|Hr]) | [(_ & Hd & Hr) | (_ & c2 & _ & Hr)]];
          try discriminate Hr.
        inversion Hr; subst. apply dispatch_unexpected in Hd.
        pose proof (cleanup_keeps c (snd p)) as (Hcs & Hce & _).
        rewrite Hcs, Hce in Hd. repeat split; auto; tauto.
Qed.

(** X13: when [do_proc_packets] returns, the code is success or
    [G10ERR_UNEXPECTED], the latter only outside of list mode and with
    [sigs_only] or [encrypt_only] set; the packet list is released and the
    digest context is closed; the session key that the loop has left is
    freed, but the pointer to it is not cleared: the context still holds
    it. *)
Theorem do_proc_packets_result (c c' : CTX) (a rest : list parsed) (rc : rc_t) :
  do_proc_packets c a = Ok (rc, c', rest) ->
  (rc = RC_OK \/ rc = RC_ERR G10ERR_UNEXPECTED)
  /\ (rc = RC_ERR G10ERR_UNEXPECTED ->
      list_packets opt = false /\ (sigs_only c || encrypt_only c) = true)
  /\ kblist c' = [] /\ mfx_md c' = None
  /\ exists c1,
       proc_loop c a = Ok (rc, c1, rest)
       /\ dek c' = dek c1
       /\ secmem c' = match dek c1 with
                      | Some _ => secmem c1 - 1
                      | None => secmem c1
                      end.
Proof.
  unfold do_proc_packets.
  destruct (proc_loop c a) as [[[rc0 c0] a0]| |] eqn:El; cbn [bind];
    try discriminate.
  destruct (release_list c0) as [c1| |] eqn:Er; cbn [bind]; try discriminate.
  intros H; inversion H; subst.
  apply proc_loop_rc in El. destruct El as (H1 & _ & _ & H4).
  apply release_list_effect in Er. destruct Er as (Hk & _ & _ & Hd & Hs).
  split; [exact H1|]. split; [exact H4|].
  split; [exact Hk|]. split; [reflexivity|].
  exists c0. cbn. rewrite Hd, Hs. repeat split; reflexivity.
Qed.

(** ** The process ends only in batch mode *)

Lemma no_exit_ok {A : Type} (a : A) : no_exit (Ok a).
Proof. intros s. discriminate. Qed.

Lemma no_exit_abort {A : Type} : no_exit (@Abort A).
Proof. intros s. discriminate. Qed.

Lemma no_exit_bind {A B : Type} (m : outcome A) (k : A -> outcome B) :
  no_exit m -> (forall a, m = Ok a -> no_exit (k a)) -> no_exit (bind m k).
Proof.
  intros Hm Hk. destruct m as [a|s|]; cbn [bind].
  - apply Hk. reflexivity.
  - exfalso. apply (Hm s). reflexivity.
  - apply no_exit_abort.
Qed.

Lemma do_check_sig_no_exit (c : CTX) (node : PACKET) :
  no_exit (do_check_sig c node).
Proof.
  unfold do_check_sig. destruct node; try apply no_exit_abort.
  destruct (sig_digest_algo sig =? 0); [apply no_exit_ok|].
  destruct (check_digest_algo _); try apply no_exit_ok.
  destruct (sig_class sig =? 0); [apply no_exit_ok|].
  destruct (sig_class sig =? 1); [apply no_exit_ok|].
  destruct (_ || _); [|apply no_exit_ok].
  destruct (root_type (kblist c)); [|apply no_exit_abort].
  destruct (_ || _); apply no_exit_ok.
Qed.

Lemma check_sig_and_print_no_exit (c : CTX) (node : PACKET) :
  batch opt = false -> no_exit (check_sig_and_print c node).
Proof.
  intros Hb. unfold check_sig_and_print. rewrite Hb.
  destruct (skip_verify opt); [apply no_exit_ok|].
  apply no_exit_bind; [apply do_check_sig_no_exit|].
  intros [rc b] _. destruct node; try apply no_exit_abort.
  destruct rc as [| |e]; cbn [andb]; try apply no_exit_ok.
  destruct e; apply no_exit_ok.
Qed.

Lemma check_all_no_exit (nodes : list PACKET) : forall c,
  batch opt = false -> no_exit (check_all c nodes).
Proof.
  induction nodes as [|n nodes IH]; intros c Hb; cbn [check_all].
  - apply no_exit_ok.
  - apply no_exit_bind; [now apply check_sig_and_print_no_exit|].
    intros c' _. now apply IH.
Qed.

Lemma proc_tree_no_exit (c : CTX) (node : list PACKET) :
  batch opt = false -> no_exit (proc_tree c node).
Proof.
  intros Hb. unfold proc_tree.
  destruct (list_packets opt); [apply no_exit_ok|].
  destruct node as [|root l]; [apply no_exit_abort|].
  destruct (pkttype root) eqn:Et; try apply no_exit_ok.
  - destruct root; try discriminate Et.
    destruct (negb (have_data c)); [|now apply check_sig_and_print_no_exit].
    destruct (hash_detached c _ _) as [rc c1].
    destruct (negb (rc_is_ok rc)); [apply no_exit_ok|].
    now apply check_sig_and_print_no_exit.
  - destruct (negb (have_data c)); [|now apply check_all_no_exit].
    destruct (hash_detached c _ _) as [rc c1].
    destruct (negb (rc_is_ok rc)); [apply no_exit_ok|].
    now apply check_all_no_exit.
Qed.

Lemma release_list_no_exit (c : CTX) :
  batch opt = false -> no_exit (release_list c).
Proof.
  intros Hb. unfold release_list. destruct (kblist c); [apply no_exit_ok|].
  apply no_exit_bind; [now apply proc_tree_no_exit|].
  intros; apply no_exit_ok.
Qed.

Lemma add_kbnode_no_exit (l : list PACKET) (p : PACKET) :
  no_exit (x <- add_kbnode l p ;; Ok x).
Proof. destruct l; [apply no_exit_abort | apply no_exit_ok]. Qed.

Lemma dispatch_no_exit (c : CTX) (pkt : PACKET) :
  batch opt = false -> no_exit (dispatch c pkt).
Proof.
  intros Hb.
  assert (Hadd : forall (c0 : CTX) l p,
            no_exit (l0 <- add_kbnode l p ;; Ok (set_kblist l0 c0, true))).
  { intros c0 l p. destruct l; [apply no_exit_abort | apply no_exit_ok]. }
  assert (Hsig : no_exit (added (add_signature c pkt))).
  { unfold added, add_signature. destruct (kblist c).
    - destruct (pkttype_eqb _ _); apply no_exit_ok.
    - apply no_exit_bind; [apply Hadd|]. intros [? ?] _. apply no_exit_ok. }
  assert (Huid : no_exit (added (add_user_id c pkt))).
  { unfold added, add_user_id. destruct (kblist c); [apply no_exit_ok|].
    apply no_exit_bind; [apply Hadd|]. intros [? ?] _. apply no_exit_ok. }
  assert (Hsub : no_exit (added (add_subkey c pkt))).
  { unfold added, add_subkey. destruct (kblist c); [apply no_exit_ok|].
    apply no_exit_bind; [apply Hadd|]. intros [? ?] _. apply no_exit_ok. }
  assert (Hops : no_exit (added (add_onepass_sig c pkt))).
  { unfold added, add_onepass_sig. destruct (kblist c) as [|root l];
      [apply no_exit_ok|].
    apply no_exit_bind; [|intros [? ?] _; apply no_exit_ok].
    apply no_exit_bind.
    - destruct (negb _); [now apply release_list_no_exit | apply no_exit_ok].
    - intros c0 _. apply Hadd. }
  assert (Hkey : no_exit (c0 <- release_list c ;; done (set_kblist [pkt] c0))).
  { apply no_exit_bind; [now apply release_list_no_exit|].
    intros; apply no_exit_ok. }
  unfold dispatch.
  destruct (list_packets opt); [|destruct (sigs_only c);
                                  [|destruct (encrypt_only c)]].
  all: destruct pkt; try apply no_exit_ok; assumption.
Qed.

Lemma proc_loop_no_exit (a : list parsed) : forall c,
  batch opt = false -> no_exit (proc_loop c a).
Proof.
  induction a as [|p a IH]; intros c Hb; cbn [proc_loop].
  - apply no_exit_ok.
  - destruct (rc_is_eof (fst p)); [apply no_exit_ok|].
    apply no_exit_bind.
    + unfold proc_packet. destruct p as [rc pkt].
      destruct rc as [| |e]; try apply no_exit_ok.
      * apply no_exit_bind; [now apply dispatch_no_exit|].
        intros [c1|] _; apply no_exit_ok.
      * destruct e; apply no_exit_ok.
    + intros [c1|c1|rc1 c1] _; try apply no_exit_ok. now apply IH.
Qed.

(** X14: outside of batch mode the packet loop never ends the process: it
    returns, or stops on a failed assertion. *)
Theorem do_proc_packets_no_exit (c : CTX) (a : list parsed) :
  batch opt = false -> no_exit (do_proc_packets c a).
Proof.
  intros Hb. unfold do_proc_packets.
  apply no_exit_bind; [now apply proc_loop_no_exit|].
  intros [[rc c1] a1] _.
  apply no_exit_bind; [now apply release_list_no_exit|].
  intros; apply no_exit_ok.
Qed.

(** ** One status line for every signature *)

Lemma do_check_sig_ctx (c c' : CTX) (node : PACKET) :
  mfx_md c' = mfx_md c -> kblist c' = kblist c ->
  do_check_sig c' node = do_check_sig c node.
Proof.
  intros Hm Hk. unfold do_check_sig. rewrite Hm, Hk. reflexivity.
Qed.

Lemma check_sig_and_print_status (c c' : CTX) (node : PACKET) :
  skip_verify opt = false ->
  check_sig_and_print c node = Ok c' ->
  statuses (trace c') = sig_status c node :: statuses (trace c)
  /\ mfx_md c' = mfx_md c /\ kblist c' = kblist c.
Proof.
  intros Hs. unfold check_sig_and_print, sig_status. rewrite Hs.
  destruct (do_check_sig c node) as [[rc b]| |]; cbn [bind]; try discriminate.
  destruct node; try discriminate.
  destruct rc as [| |e].
  - destruct (batch opt && _); [discriminate|].
    intros H; inversion H; subst. cbn. auto.
  - intros H; inversion H; subst. cbn. auto.
  - destruct e; try (intros H; inversion H; subst; cbn; auto).
    destruct (batch opt); [discriminate|].
    inversion H; subst. cbn. auto.
Qed.

Lemma check_all_status (nodes : list PACKET) : forall c c',
  skip_verify opt = false ->
  check_all c nodes = Ok c' ->
  statuses (trace c') = rev (map (sig_status c) nodes) ++ statuses (trace c)
  /\ mfx_md c' = mfx_md c /\ kblist c' = kblist c.
Proof.
  induction nodes as [|n nodes IH]; intros c c' Hs; cbn [check_all].
  - intros H; inversion H; subst. cbn. auto.
  - destruct (check_sig_and_print c n) as [c1| |] eqn:E1; cbn [bind];
      try discriminate.
    intros H. apply IH in H; [|exact Hs].
    destruct (check_sig_and_print_status c c1 n Hs E1) as (T1 & M1 & K1).
    destruct H as (T2 & M2 & K2).
    rewrite T2, T1, M2, M1, K2, K1. cbn [map rev].
    rewrite <- app_assoc. cbn [app]. repeat split.
    f_equal. f_equal. apply map_ext. intros x. unfold sig_status.
    rewrite (do_check_sig_ctx c c1 x M1 K1). reflexivity.
Qed.

(** X15: with the signed data present, [proc_tree] reports one status per
    signature it checks, in the order of the checks: for a list started by
    a one-pass packet one status for each signature node, for a list
    started by a signature one status for that signature; the status is
    GOODSIG, BADSIG or ERRSIG according to the result of the check. *)
Theorem proc_tree_reports (c c' : CTX) (root : PACKET) (l : list PACKET) :
  list_packets opt = false -> skip_verify opt = false ->
  have_data c = true ->
  proc_tree c (root :: l) = Ok c' ->
  (pkttype root = PKT_ONEPASS_SIG ->
   statuses (trace c')
   = rev (map (sig_status c) (signature_nodes (root :: l)))
     ++ statuses (trace c))
  /\ (pkttype root = PKT_SIGNATURE ->
      statuses (trace c') = sig_status c root :: statuses (trace c)).
Proof.
  intros Hl Hs Hd. unfold proc_tree. rewrite Hl, Hd. cbn [negb].
  intros H. split; intros Ht; rewrite Ht in H.
  - apply check_all_status in H; tauto.
  - destruct root; try discriminate Ht.
    apply check_sig_and_print_status in H; tauto.
Qed.

End ReportFacts.

(** ** The facts on sample streams *)

#[local] Existing Instance sample_collaborators.

Lemma do_proc_packets_result_witness :
  (RC_OK = RC_OK \/ RC_OK = RC_ERR G10ERR_UNEXPECTED)
  /\ (RC_OK = RC_ERR G10ERR_UNEXPECTED ->
      list_packets (@opt sample_collaborators) = false
      /\ (sigs_only (init_ctx (X := sample_collaborators) false false)
          || encrypt_only (init_ctx (X := sample_collaborators) false false))
         = true)
  /\ kblist (mk_ctx (X := sample_collaborators) None false false (Some 7) 1
                    [] false 0 []) = []
  /\ mfx_md (mk_ctx (X := sample_collaborators) None false false (Some 7) 1
                    [] false 0 []) = None
  /\ exists c1,
       proc_loop (X := sample_collaborators) (init_ctx false false)
         [(RC_OK, sample_pubkey_enc)] = Ok (RC_OK, c1, [])
       /\ dek (mk_ctx (X := sample_collaborators) None false false (Some 7) 1
                      [] false 0 []) = dek c1
       /\ secmem (mk_ctx (X := sample_collaborators) None false false (Some 7)
                         1 [] false 0 [])
          = match dek c1 with
            | Some _ => secmem c1 - 1
            | None => secmem c1
            end.
Proof.
  apply (do_proc_packets_result (X := sample_collaborators)
           (init_ctx false false)
           (mk_ctx (X := sample_collaborators) None false false (Some 7) 1
                   [] false 0 [])
           [(RC_OK, sample_pubkey_enc)] [] RC_OK).
  reflexivity.
Defined.

Lemma do_proc_packets_no_exit_witness :
  no_exit (do_proc_packets (X := sample_collaborators) (init_ctx true false)
             [(RC_OK, sample_onepass); (RC_OK, sample_signature 0)]).
Proof.
  apply (do_proc_packets_no_exit (X := sample_collaborators)
           (init_ctx true false)
           [(RC_OK, sample_onepass); (RC_OK, sample_signature 0)]).
  reflexivity.
Defined.

Lemma proc_tree_reports_witness :
  (pkttype sample_onepass = PKT_ONEPASS_SIG ->
   statuses (trace (mk_ctx (X := sample_collaborators) None true false None 0
                      [sample_onepass; sample_signature 1] true 0
                      [ev_status_goodsig]))
   = rev (map (sig_status
                 (mk_ctx (X := sample_collaborators) None true false None 0
                    [sample_onepass; sample_signature 1] true 0 []))
              (signature_nodes [sample_onepass; sample_signature 1]))
     ++ statuses (trace (mk_ctx (X := sample_collaborators) None true false
                           None 0 [sample_onepass; sample_signature 1] true 0
                           [])))
  /\ (pkttype sample_onepass = PKT_SIGNATURE ->
      statuses (trace (mk_ctx (X := sample_collaborators) None true false None
                         0 [sample_onepass; sample_signature 1] true 0
                         [ev_status_goodsig]))
      = sig_status
          (mk_ctx (X := sample_collaborators) None true false None 0
             [sample_onepass; sample_signature 1] true 0 [])
          sample_onepass
        :: statuses (trace (mk_ctx (X := sample_collaborators) None true false
                              None 0 [sample_onepass; sample_signature 1] true
                              0 []))).
Proof.
  apply (proc_tree_reports (X := sample_collaborators)
           (mk_ctx (X := sample_collaborators) None true false None 0
              [sample_onepass; sample_signature 1] true 0 [])
           (mk_ctx (X := sample_collaborators) None true false None 0
              [sample_onepass; sample_signature 1] true 0 [ev_status_goodsig])
           sample_onepass [sample_signature 1]).
  - reflexivity.
  - reflexivity.
  - reflexivity.
  - reflexivity.
Defined.

End MainprocReportFacts.

Module QualifiedMoreFacts.
Import Qualified QualifiedFacts QualifiedPrompt.

(** ** The entries of the list *)

Lemma stored_digit_upper (c : Z) :
  hexdigitp c = true -> (c =? ch ":") = false ->
  upper_hexdigitp (if ch "a" <=? c then Z.land c 0xdf else c) = true.
Proof.
  unfold hexdigitp, upper_hexdigitp. change (ch "0") with 48.
  change (ch "9") with 57. change (ch "A") with 65. change (ch "F") with 70.
  change (ch "a") with 97. change (ch "f") with 102.
  intros H _.
  destruct (Z.leb_spec 97 c) as [Ha|Ha].
  - assert (Hc : 97 <= c <= 102).
    { repeat rewrite orb_true_iff in H. repeat rewrite andb_true_iff in H.
      repeat rewrite Z.leb_le in H. lia. }
    assert (Hv : c = 97 \/ c = 98 \/ c = 99 \/ c = 100 \/ c = 101 \/ c = 102)
      by lia.
    destruct Hv as [-> | [-> | [-> | [-> | [-> | ->]]]]]; reflexivity.
  - repeat rewrite orb_true_iff in H. repeat rewrite andb_true_iff in H.
    repeat rewrite Z.leb_le in H.
    repeat rewrite orb_true_iff. repeat rewrite andb_true_iff.
    repeat rewrite Z.leb_le. lia.
Qed.

Lemma scan_fingerprint_digits (p : list Z) :
  forall (j : nat) (key key' : list Z) (j' : nat) (rest : list Z),
  scan_fingerprint p j key = (key', j', rest) ->
  exists new,
    key' = key ++ new /\ j' = (j + length new)%nat
    /\ forallb upper_hexdigitp new = true.
Proof.
  induction p as [|c p IH]; intros j key key' j' rest H; cbn [scan_fingerprint] in H.
  - inversion H; subst. exists []. rewrite app_nil_r. cbn. auto.
  - destruct (((c =? ch ":") || hexdigitp c) && (j <? 40)%nat) eqn:E.
    + destruct (c =? ch ":") eqn:Ec; cbn [negb] in H.
      * apply IH in H. exact H.
      * apply IH in H. destruct H as (new & -> & -> & Hn).
        exists ((if ch "a" <=? c then Z.land c 0xdf else c) :: new).
        rewrite <- app_assoc. cbn [app length forallb]. repeat split; [lia|].
        rewrite Hn, andb_true_r. apply stored_digit_upper; [|exact Ec].
        apply andb_true_iff in E. destruct E as [E _]. exact E.
    + inversion H; subst. exists []. rewrite app_nil_r. cbn. auto.
Qed.

Lemma entry_shape (l key country : list Z) :
  parse_line l = Entry key country ->
  length key = 40%nat /\ forallb upper_hexdigitp key = true
  /\ length country = 2%nat /\ forallb lower country = true.
Proof.
  unfold parse_line.
  destruct (_ || _); [discriminate|].
  destruct (match skip_spaces (cstr l) with [] => true | _ => _ end);
    [discriminate|].
  unfold parse_entry.
  destruct (scan_fingerprint (skip_spaces (cstr l)) 0 []) as [[k j] rest] eqn:Es.
  apply scan_fingerprint_digits in Es. destruct Es as (new & Hk & Hj & Hd).
  cbn [app plus] in Hk, Hj. subst k j.
  destruct (Nat.eqb_spec (length new) 40) as [Hl|Hl]; cbn [negb orb];
    [|discriminate].
  destruct (negb _); [discriminate|].
  destruct (lower (at_ (skip_spaces (tl rest)) 0)) eqn:L0; [|discriminate].
  destruct (lower (at_ (skip_spaces (tl rest)) 1)) eqn:L1; [|discriminate].
  cbn [andb]. destruct (_ || _); [|discriminate].
  intros H. inversion H; subst. cbn [length forallb].
  rewrite L0, L1. auto.
Qed.

(** X16: a line of the qualified list that yields an entry has given a
    fingerprint of 40 digits among 0-9 and A-F (lower case is stored in
    upper case) and a country code of two lower case letters. *)
Theorem parse_line_entry (l key country : list Z) :
  parse_line l = Entry key country ->
  length key = 40%nat /\ forallb upper_hexdigitp key = true
  /\ length country = 2%nat /\ forallb lower country = true.
Proof. apply entry_shape. Qed.

Lemma parse_line_entry_witness :
  length (bytes "0123456789ABCDEF0123456789ABCDEF01234567") = 40%nat
  /\ forallb upper_hexdigitp (bytes "0123456789ABCDEF0123456789ABCDEF01234567")
     = true
  /\ length (bytes "de") = 2%nat /\ forallb lower (bytes "de") = true.
Proof.
  apply (parse_line_entry
    (bytes "01:23:45:67:89:ab:cd:ef:01:23:45:67:89:AB:CD:EF:01:23:45:67 de"
     ++ [LF])).
  reflexivity.
Defined.

(** X17: [read_list] with buffers as its comment asks for them (at least
    3 bytes for the country code) always returns, and it delivers the
    first line of the open list that is not a comment or empty: for a
    valid entry the code 0 with the fingerprint of that line, the file
    left right behind the line; for a malformed line its error; and EOF
    only when nothing but comments and empty lines was left. *)
Theorem read_list_delivers_first_entry (content s : list Z)
  (country_size : nat) (lnr : Z) :
  (3 <= country_size)%nat ->
  exists r,
    read_list (file_present content) (mk_state true (Some s)) country_size lnr
    = Some (Returns (r, mk_state true (Some (rd_rest r))))
    /\ match rd_err r with
       | GPG_ERR_NO_ERROR =>
           (length (rd_rest r) < length s)%nat
           /\ exists pre l country,
                file_lines s = pre ++ l :: file_lines (rd_rest r)
                /\ Forall skipped pre
                /\ parse_line l = Entry (rd_key r) country
       | GPG_ERR_EOF => Forall skipped (file_lines s)
       | e =>
           exists pre l post,
             file_lines s = pre ++ l :: post
             /\ Forall skipped pre /\ parse_line l = Bad e
       end.
Proof.
  intros Hn. unfold read_list. cbn [listname listfp].
  replace (country_size <? 1)%nat with false
    by (symmetry; apply Nat.ltb_ge; lia).
  replace (country_size <? 3)%nat with false
    by (symmetry; apply Nat.ltb_ge; lia).
  destruct (read_lines_spec (S (length s)) s lnr) as (r & Hr & Ho); [lia|].
  rewrite Hr. exists r. split; [|exact Ho].
  destruct (rd_err r); reflexivity.
Qed.

Lemma read_list_delivers_first_entry_witness :
  exists r,
    read_list (file_present sample_list) (mk_state true (Some sample_list))
              3 0
    = Some (Returns (r, mk_state true (Some (rd_rest r))))
    /\ match rd_err r with
       | GPG_ERR_NO_ERROR =>
           (length (rd_rest r) < length sample_list)%nat
           /\ exists pre l country,
                file_lines sample_list = pre ++ l :: file_lines (rd_rest r)
                /\ Forall skipped pre
                /\ parse_line l = Entry (rd_key r) country
       | GPG_ERR_EOF => Forall skipped (file_lines sample_list)
       | e =>
           exists pre l post,
             file_lines sample_list = pre ++ l :: post
             /\ Forall skipped pre /\ parse_line l = Bad e
       end.
Proof.
  apply (read_list_delivers_first_entry sample_list sample_list 3 0). lia.
Defined.

(** ** Comments and empty lines *)

Lemma lookup_outcome_insert_skipped (pre post : list (list Z)) (s : list Z) :
  parse_line s = Skip ->
  lookup_outcome (pre ++ s :: post) = lookup_outcome (pre ++ post).
Proof.
  intros Hs. induction pre as [|l pre IH]; cbn [app lookup_outcome].
  - rewrite Hs. reflexivity.
  - rewrite IH. reflexivity.
Qed.

(** X18: comment lines, empty lines and blank lines of the list do not
    matter: removing one such line (ended by its line feed, shorter than
    the line buffer) from the file leaves the outcome of every lookup
    as it is, be it the code returned or the store behind the country
    buffer at the first entry. *)
Theorem lookup_ignores_comment (before : list (list Z)) (s after fpr : list Z)
  (st1 st2 : module_state) :
  Forall whole_line before -> whole_line s -> parse_line s = Skip ->
  list_usable st1 -> list_usable st2 ->
  let call1 :=
    gpgsm_is_in_qualified_list
      (file_present (concat before ++ s ++ after)) st1 (Some fpr) in
  let call2 :=
    gpgsm_is_in_qualified_list
      (file_present (concat before ++ after)) st2 (Some fpr) in
  (call1 = Some Undefined /\ call2 = Some Undefined)
  \/ exists e st1' st2',
       call1 = Some (Returns (e, st1')) /\ call2 = Some (Returns (e, st2')).
Proof.
  intros Hb Hs Hskip H1 H2 call1 call2.
  destruct (lookup_result (concat before ++ s ++ after) fpr st1 H1)
    as (st1' & E1 & _).
  destruct (lookup_result (concat before ++ after) fpr st2 H2)
    as (st2' & E2 & _).
  fold call1 in E1. fold call2 in E2. rewrite E1, E2.
  assert (Hsame : lookup_outcome (file_lines (concat before ++ s ++ after))
                  = lookup_outcome (file_lines (concat before ++ after))).
  { rewrite !file_lines_whole by assumption.
    rewrite (file_lines_step (s ++ after) s after) by now apply fgets_whole_line.
    apply lookup_outcome_insert_skipped. exact Hskip. }
  rewrite Hsame.
  destruct (lookup_outcome (file_lines (concat before ++ after))) as [e|].
  - right. exists e, st1', st2'. split; reflexivity.
  - left. split; reflexivity.
Qed.

Lemma lookup_ignores_comment_witness :
  (gpgsm_is_in_qualified_list
     (file_present (concat [bytes "# roots" ++ [LF]]
                    ++ (bytes "   " ++ [LF]) ++ bytes "no entry" ++ [LF]))
     fresh_state (Some sample_fingerprint) = Some Undefined
   /\ gpgsm_is_in_qualified_list
        (file_present (concat [bytes "# roots" ++ [LF]]
                       ++ bytes "no entry" ++ [LF]))
        fresh_state (Some sample_fingerprint) = Some Undefined)
  \/ exists e st1' st2',
       gpgsm_is_in_qualified_list
         (file_present (concat [bytes "# roots" ++ [LF]]
                        ++ (bytes "   " ++ [LF]) ++ bytes "no entry" ++ [LF]))
         fresh_state (Some sample_fingerprint) = Some (Returns (e, st1'))
       /\ gpgsm_is_in_qualified_list
            (file_present (concat [bytes "# roots" ++ [LF]]
                           ++ bytes "no entry" ++ [LF]))
            fresh_state (Some sample_fingerprint) = Some (Returns (e, st2')).
Proof.
  apply (lookup_ignores_comment [bytes "# roots" ++ [LF]]
           (bytes "   " ++ [LF]) (bytes "no entry" ++ [LF]) sample_fingerprint
           fresh_state fresh_state).
  - constructor; [|constructor].
    exists (bytes "# roots"). split; [reflexivity|]. split; [|cbn; lia].
    repeat (constructor; [discriminate|]). constructor.
  - exists (bytes "   "). split; [reflexivity|]. split; [|cbn; lia].
    repeat (constructor; [discriminate|]). constructor.
  - reflexivity.
  - left. reflexivity.
  - left. reflexivity.
Defined.

(** ** A lookup after another *)

(** X19: a lookup that returns leaves the list usable (the file stays
    open and the next lookup rewinds it), and asking again for the same
    fingerprint on the same file returns the same code. *)
Theorem lookup_repeatable (content fpr : list Z) (st st1 : module_state)
  (e : gpg_err_code_t) :
  list_usable st ->
  gpgsm_is_in_qualified_list (file_present content) st (Some fpr)
  = Some (Returns (e, st1)) ->
  list_usable st1
  /\ exists st2,
       gpgsm_is_in_qualified_list (file_present content) st1 (Some fpr)
       = Some (Returns (e, st2)).
Proof.
  intros Hst H.
  destruct (lookup_result content fpr st Hst) as (st1' & E1 & H1).
  rewrite E1 in H.
  destruct (lookup_outcome (file_lines content)) as [e0|] eqn:Eo;
    [|discriminate].
  inversion H; subst. split; [exact H1|].
  destruct (lookup_result content fpr st1 H1) as (st2 & E2 & _).
  rewrite Eo in E2. exists st2. exact E2.
Qed.

Lemma lookup_repeatable_witness :
  list_usable (mk_state true (Some []))
  /\ exists st2,
       gpgsm_is_in_qualified_list
         (file_present (bytes "# qualified roots" ++ [LF]))
         (mk_state true (Some [])) (Some sample_fingerprint)
       = Some (Returns (GPG_ERR_NOT_FOUND, st2)).
Proof.
  apply (lookup_repeatable (bytes "# qualified roots" ++ [LF])
           sample_fingerprint fresh_state (mk_state true (Some []))
           GPG_ERR_NOT_FOUND).
  - left. reflexivity.
  - reflexivity.
Defined.

(** ** The prompts *)

Lemma hex_upper_range (n : Z) : 0 <= n < 16 -> 48 <= hex_upper n <= 70.
Proof.
  intros Hn.
  assert (H : (48 <=? hex_upper n) && (hex_upper n <=? 70) = true).
  { apply (ArmorFacts.range_forallb 16
             (fun k => (48 <=? hex_upper k) && (hex_upper k <=? 70)));
      [vm_compute; reflexivity | exact Hn]. }
  apply andb_true_iff in H. destruct H as [H1 H2].
  apply Z.leb_le in H1, H2. split; assumption.
Qed.

Lemma percent_byte_chars (c : Z) :
  0 <= c < 256 -> Forall (fun x => 32 < x < 128) (percent_byte c).
Proof.
  intros Hc. unfold percent_byte.
  assert (H1 : 0 <= Z.shiftr c 4 < 16).
  { rewrite Z.shiftr_div_pow2 by lia. change (2 ^ 4) with 16.
    Z.div_mod_to_equations. lia. }
  assert (H2 : 0 <= Z.land c 15 < 16).
  { change 15 with (Z.ones 4). rewrite Z.land_ones by lia.
    apply Z.mod_pos_bound. lia. }
  apply hex_upper_range in H1, H2.
  constructor; [change (ch "%") with 37; lia|].
  constructor; [lia|]. constructor; [lia|]. constructor.
Qed.

Lemma escape_chars (cs : bool) (s : list Z) :
  Forall (fun c => 0 <= c < 256) s ->
  Forall (fun c => 32 < c) (percent_plus_escape cs s)
  /\ (cs = true -> Forall (fun c => c < 128) (percent_plus_escape cs s))
  /\ (length s <= length (percent_plus_escape cs s) <= 3 * length s)%nat.
Proof.
  induction 1 as [|c s Hc _ (IH1 & IH2 & IH3)]; cbn [percent_plus_escape].
  - repeat split; try constructor; cbn; lia.
  - assert (Hp := percent_byte_chars c Hc).
    destruct ((char_value cs c <? ch " ") || (c =? ch "+")) eqn:E.
    + split; [|split].
      * apply Forall_app. split; [|exact IH1].
        eapply Forall_impl; [|exact Hp]. cbn. intros; lia.
      * intros Hs. apply Forall_app. split; [|auto].
        eapply Forall_impl; [|exact Hp]. cbn. intros; lia.
      * rewrite length_app. cbn [percent_byte length]. lia.
    + apply orb_false_iff in E. destruct E as [E1 E2].
      apply Z.ltb_ge in E1. change (ch " ") with 32 in *.
      destruct (Z.eqb_spec c 32) as [->|Hsp].
      * split; [|split].
        -- constructor; [cbn; lia | exact IH1].
        -- intros Hs. constructor; [cbn; lia | auto].
        -- cbn [app length]. lia.
      * assert (Hge : 32 < c).
        { unfold char_value in E1. destruct (cs && (128 <=? c)); lia. }
        split; [|split].
        -- constructor; [exact Hge | exact IH1].
        -- intros ->. constructor; [|auto].
           unfold char_value in E1. cbn [andb] in E1.
           destruct (Z.leb_spec 128 c); lia.
        -- cbn [app length]. lia.
Qed.

Lemma cstr_bytes (s : list Z) :
  Forall (fun c => 0 <= c < 256) s -> Forall (fun c => 0 <= c < 256) (cstr s).
Proof.
  induction 1 as [|c s Hc _ IH]; cbn [cstr]; [constructor|].
  destruct (c =? NUL); constructor; assumption.
Qed.

Lemma escape_raw (cs : bool) (c : Z) (s : list Z) :
  In c s -> 32 < char_value cs c -> c <> ch "+" ->
  In c (percent_plus_escape cs s).
Proof.
  intros Hin Hc Hplus. induction s as [|x s IH]; [contradiction|].
  cbn [percent_plus_escape]. apply in_or_app.
  destruct Hin as [->|Hin]; [left | right; exact (IH Hin)].
  change (ch " ") with 32.
  replace (char_value cs c <? 32) with false
    by (symmetry; apply Z.ltb_ge; lia).
  replace (c =? ch "+") with false by (symmetry; apply Z.eqb_neq; exact Hplus).
  cbn [orb].
  destruct (Z.eqb_spec c 32) as [->|_]; [|left; reflexivity].
  unfold char_value in Hc. rewrite andb_false_r in Hc. lia.
Qed.

Lemma confirm_request_safe (cs : bool)
  (xtrymalloc : Z -> option gpg_err_code_t) (name p : list Z) :
  Forall (fun c => 0 <= c < 256) name ->
  confirm_request cs xtrymalloc name = inr p ->
  xtrymalloc (zlen (cstr name) * 3 + 1) = None
  /\ p = percent_plus_escape cs (cstr name)
  /\ zlen p + 1 <= zlen (cstr name) * 3 + 1
  /\ Forall (fun c => 32 < c) p
  /\ (cs = true -> Forall (fun c => c < 128) p)
  /\ (forall c, In c (cstr name) -> 32 < char_value cs c -> c <> ch "+" ->
                In c p).
Proof.
  intros Hb. unfold confirm_request.
  destruct (xtrymalloc _); [discriminate|]. intros H. inversion H; subst.
  destruct (escape_chars cs (cstr name) (cstr_bytes name Hb)) as (H1 & H2 & H3).
  split; [reflexivity|]. split; [reflexivity|].
  split; [unfold zlen; lia|]. split; [exact H1|]. split; [exact H2|].
  intros c. apply escape_raw.
Qed.

(** X20: what the two prompts hand to the agent.  The buffer holds the
    text of the prompt (up to its first NUL) with every byte that is
    below the space as a [char], and the plus sign, written as a percent
    sign and two hex digits, and every space as a plus sign; all other
    bytes are copied, the DEL character and the percent sign among them.
    So the result has no byte from 0 to 32 (no space, and no control
    character other than DEL), with a signed [char] none above 127, and
    with its terminator it fits the buffer of three times the length of
    the text plus one that was allocated for it. *)
Theorem prompts_fit_the_protocol (cert : Type) (cs approval : bool)
  (subject_of : cert -> option (list Z))
  (format_name : list Z -> option (list Z))
  (consent_text : option (list Z) -> bool -> gpg_err_code_t + list Z)
  (warning_text : option (list Z) -> gpg_err_code_t + list Z)
  (xtrymalloc : Z -> option gpg_err_code_t) (c : cert) (p : list Z) :
  (forall s b name, consent_text s b = inr name ->
                    Forall (fun c => 0 <= c < 256) name) ->
  (forall s name, warning_text s = inr name ->
                  Forall (fun c => 0 <= c < 256) name) ->
  let fits (name : list Z) :=
    xtrymalloc (zlen (cstr name) * 3 + 1) = None
    /\ p = percent_plus_escape cs (cstr name)
    /\ zlen p + 1 <= zlen (cstr name) * 3 + 1
    /\ Forall (fun c => 32 < c) p
    /\ (cs = true -> Forall (fun c => c < 128) p)
    /\ (forall c, In c (cstr name) -> 32 < char_value cs c -> c <> ch "+" ->
                  In c p) in
  (qualified_consent_request cert cs approval subject_of format_name
     consent_text xtrymalloc c = inr p ->
   exists n name,
     subject_of c = Some n
     /\ consent_text (format_name n) approval = inr name /\ fits name)
  /\ (not_qualified_warning_request cert cs approval subject_of format_name
        warning_text xtrymalloc c = inr p ->
      approval = true
      /\ exists n name,
           subject_of c = Some n
           /\ warning_text (format_name n) = inr name /\ fits name).
Proof.
  intros Hc Hw fits. split; intros H.
  - unfold qualified_consent_request in H.
    destruct (subject_of c) as [n|]; [|discriminate].
    destruct (consent_text (format_name n) approval) as [e|name] eqn:Et;
      [discriminate|].
    exists n, name. split; [reflexivity|]. split; [exact Et|].
    exact (confirm_request_safe cs xtrymalloc name p (Hc _ _ _ Et) H).
  - unfold not_qualified_warning_request in H.
    destruct approval; cbn [negb] in H; [|discriminate].
    split; [reflexivity|].
    destruct (subject_of c) as [n|]; [|discriminate].
    destruct (warning_text (format_name n)) as [e|name] eqn:Et;
      [discriminate|].
    exists n, name. split; [reflexivity|]. split; [exact Et|].
    exact (confirm_request_safe cs xtrymalloc name p (Hw _ _ Et) H).
Qed.

Lemma prompts_fit_the_protocol_witness :
  exists n name,
    Some (bytes "CN=a") = Some n
    /\ @inr gpg_err_code_t _ (bytes "sign with +CN=a" ++ [127]) = inr name
    /\ @None gpg_err_code_t = None
    /\ bytes "sign+with+%2BCN=a" ++ [127]
       = percent_plus_escape true (cstr name)
    /\ zlen (bytes "sign+with+%2BCN=a" ++ [127]) + 1
       <= zlen (cstr name) * 3 + 1
    /\ Forall (fun c => 32 < c) (bytes "sign+with+%2BCN=a" ++ [127])
    /\ (true = true ->
        Forall (fun c => c < 128) (bytes "sign+with+%2BCN=a" ++ [127]))
    /\ (forall c, In c (cstr name) -> 32 < char_value true c ->
                  c <> ch "+" ->
                  In c (bytes "sign+with+%2BCN=a" ++ [127])).
Proof.
  apply (prompts_fit_the_protocol unit true true
           (fun _ => Some (bytes "CN=a")) (fun n => Some n)
           (fun _ _ => inr (bytes "sign with +CN=a" ++ [127]))
           (fun _ => inl GPG_ERR_GENERAL) (fun _ => None) tt
           (bytes "sign+with+%2BCN=a" ++ [127])).
  - intros s b name H. inversion H; subst.
    repeat (constructor; [cbn; lia|]). constructor.
  - intros s name H. discriminate H.
  - reflexivity.
Defined.

End QualifiedMoreFacts.
